(** * Nike export application: field extraction and template filling

    A shallow embedding of the extraction core ([core/pdf_processor_nike.py],
    [core/pdf_processor.py]) and of the template engines
    ([core/template_manager.py], [core/template_manager_nike.py]), with the
    properties of the specification stated and proved over it.

    Conventions of the embedding.
    - Python [str] values are lists of characters ([text]).  Characters are
      7-bit ASCII: the classes [\s], [\w], [\d], [str.upper] and [str.strip]
      are the ASCII restrictions of Python's Unicode ones.
    - The [re] module is modelled by a backtracking matcher ([Module Re])
      with Python's priorities: leftmost match, alternatives left to right,
      greedy and lazy repetition.  Every pattern of the source is written
      as a term of the pattern type next to its Python text.
    - Coordinates of PDF words are rationals ([Q]); Python floats are exact
      rationals and [round] rounds half to even.
    - dicts are finite maps ([gmap]); an openpyxl worksheet is the finite map
      of its cells, with its shapes, page setup and margins.  Assigning a
      cell value goes through openpyxl's check of strings: a string is cut
      at 32767 characters and refused with [IllegalCharacterError] when it
      holds a control character. *)

From Stdlib Require Import Ascii String QArith Qround ZArith Lia.
From stdpp Require Import base option list sorting gmap strings.

Local Open Scope nat_scope.

(** ** Text *)

Inductive text_lit := TNil | TCons (a : ascii) (t : text_lit).

Fixpoint text_lit_of_bytes (l : list Byte.byte) : text_lit :=
  match l with
  | [] => TNil
  | b :: l => TCons (ascii_of_byte b) (text_lit_of_bytes l)
  end.

Fixpoint bytes_of_text_lit (t : text_lit) : list Byte.byte :=
  match t with
  | TNil => []
  | TCons a t => byte_of_ascii a :: bytes_of_text_lit t
  end.

Abbreviation text := (list ascii).

(** String literals denote texts. *)
Definition text_literal := list ascii.

Declare Scope text_scope.
Delimit Scope text_scope with t.
#[warnings="-via-type-remapping,-via-type-mismatch"]
String Notation text_literal text_lit_of_bytes bytes_of_text_lit
  (via text_lit mapping [[nil] => TNil, [cons] => TCons]) : text_scope.
Open Scope text_scope.

(** ** Character classes (ASCII) *)

Definition code (c : ascii) : nat := nat_of_ascii c.

Definition in_range (lo hi c : ascii) : bool :=
  (code lo <=? code c) && (code c <=? code hi).

Definition is_digit (c : ascii) : bool := in_range "0" "9" c.
Definition is_upper (c : ascii) : bool := in_range "A" "Z" c.
Definition is_lower (c : ascii) : bool := in_range "a" "z" c.
Definition is_alpha (c : ascii) : bool := is_upper c || is_lower c.

(** [\w]: letters, digits and the underscore. *)
Definition is_word (c : ascii) : bool :=
  is_alpha c || is_digit c || Ascii.eqb c "_".

(** [\s] and [str.isspace]: TAB, LF, VT, FF, CR, FS, GS, RS, US and space. *)
Definition is_space (c : ascii) : bool :=
  ((9 <=? code c) && (code c <=? 13)) ||
  ((28 <=? code c) && (code c <=? 32)).

Definition LF : ascii := ascii_of_nat 10.

(** [.] without DOTALL: anything but a line feed. *)
Definition is_dot (c : ascii) : bool := negb (Ascii.eqb c LF).

Definition to_upper (c : ascii) : ascii :=
  if is_lower c then ascii_of_nat (code c - 32) else c.

Definition to_lower (c : ascii) : ascii :=
  if is_upper c then ascii_of_nat (code c + 32) else c.

(** [str.upper()] *)
Definition upper (s : text) : text := to_upper <$> s.

(** [str.lower()] *)
Definition lower (s : text) : text := to_lower <$> s.

(** [str.lstrip()], [str.rstrip()] and [str.strip()] *)
Fixpoint lstrip (s : text) : text :=
  match s with
  | c :: s' => if is_space c then lstrip s' else s
  | [] => []
  end.

Definition rstrip (s : text) : text := reverse (lstrip (reverse s)).

Definition strip (s : text) : text := rstrip (lstrip s).

(** [p in s] on strings: [p] occurs in [s] as a contiguous substring. *)
Fixpoint starts_with (p s : text) : bool :=
  match p, s with
  | [], _ => true
  | a :: p', b :: s' => Ascii.eqb a b && starts_with p' s'
  | _ :: _, [] => false
  end.

Fixpoint contains (p s : text) : bool :=
  starts_with p s ||
  match s with
  | [] => false
  | _ :: s' => contains p s'
  end.

(** [s.split(p, 1)[0]]: the part of [s] before the first occurrence of [p]
    (all of [s] when [p] does not occur). *)
Fixpoint before_first (p s : text) : text :=
  if starts_with p s then []
  else match s with
       | [] => []
       | c :: s' => c :: before_first p s'
       end.

(** [s.replace(old, new)] for a non-empty [old]: every non-overlapping
    occurrence, left to right.  [skip] counts the characters of the
    occurrence being replaced that are still to be dropped. *)
Fixpoint replace_go (old new : text) (skip : nat) (s : text) : text :=
  match s with
  | [] => []
  | c :: s' =>
      match skip with
      | S n => replace_go old new n s'
      | O => if starts_with old s
             then new ++ replace_go old new (length old - 1) s'
             else c :: replace_go old new 0 s'
      end
  end.

Definition replace (old new s : text) : text := replace_go old new 0 s.

(** [sep.join(parts)] *)
Fixpoint join (sep : text) (parts : list text) : text :=
  match parts with
  | [] => []
  | [p] => p
  | p :: ps => p ++ sep ++ join sep ps
  end.

(** Decimal rendering of a natural number, [str(n)]. *)
Definition digit_char (d : nat) : ascii := ascii_of_nat (48 + d).

Fixpoint dec_go (fuel n : nat) (acc : text) : text :=
  match fuel with
  | O => acc
  | S fuel' =>
      let acc' := digit_char (n mod 10) :: acc in
      if n / 10 =? 0 then acc' else dec_go fuel' (n / 10) acc'
  end.

Definition str_nat (n : nat) : text := dec_go (S n) n [].

(** [str(z)] for an [int]. *)
Definition str_Z (z : Z) : text :=
  if (z <? 0)%Z then "-"%char :: str_nat (Z.to_nat (- z)) else str_nat (Z.to_nat z).

(** [int(s)] for a string of decimal digits. *)
Definition int_of_digits (s : text) : nat :=
  foldl (fun acc c => 10 * acc + (code c - 48)) 0 s.

(** ** The regular-expression matcher *)

Module Re.

(** Patterns.  A quantifier applies to a one-character item ([Rep]);
    the quantified groups of the source are bounded ([?], [{0,2}]) and are
    written with [Opt].  [Grp n] is capturing group [n]. *)
Inductive pat : Type :=
| Eps
| Chr (p : ascii -> bool)
| Seq (r1 r2 : pat)
| Alt (r1 r2 : pat)
| Rep (greedy : bool) (p : ascii -> bool) (lo : nat) (hi : option nat)
| Grp (n : nat) (r : pat)
| Ahead (r : pat)
| WordB
| Bol
| Eol
| EndZ.

(** The matcher's cursor: offset in the subject, the character before the
    cursor, and the texts captured by the groups so far (latest first). *)
Record cur := Cur { pos : nat; prev : option ascii; grp : list (nat * text) }.

Definition step (c : ascii) (s : cur) : cur :=
  Cur (S (pos s)) (Some c) (grp s).

Definition set_grp (n : nat) (g : text) (s : cur) : cur :=
  Cur (pos s) (prev s) ((n, g) :: grp s).

Definition cont := cur -> text -> option (cur * text).

Definition opt_word (o : option ascii) : bool :=
  match o with Some c => is_word c | None => false end.

(** [\b]: exactly one side of the cursor is a word character. *)
Definition at_boundary (s : cur) (l : text) : bool :=
  xorb (opt_word (prev s)) (opt_word (head l)).

Definition dec_hi (hi : option nat) : option nat := pred <$> hi.

Definition hi_open (hi : option nat) : bool :=
  match hi with Some O => false | _ => true end.

(** Repetition of a one-character item, on the rest [l] of the subject. *)
Fixpoint rep (greedy : bool) (p : ascii -> bool) (lo : nat) (hi : option nat)
    (k : cont) (s : cur) (l : text) {struct l} : option (cur * text) :=
  let stop (_ : unit) := match lo with O => k s l | S _ => None end in
  let more (_ : unit) :=
    match l with
    | c :: l' =>
        if p c && hi_open hi
        then rep greedy p (pred lo) (dec_hi hi) k (step c s) l'
        else None
    | [] => None
    end in
  if greedy
  then match more () with Some x => Some x | None => stop () end
  else match stop () with Some x => Some x | None => more () end.

(** [m r k s l]: match [r] at cursor [s] with [l] left to read, then
    continue with [k]; backtracks into [r] when [k] fails. *)
Fixpoint m (r : pat) (k : cont) (s : cur) (l : text) : option (cur * text) :=
  match r with
  | Eps => k s l
  | Chr p =>
      match l with
      | c :: l' => if p c then k (step c s) l' else None
      | [] => None
      end
  | Seq r1 r2 => m r1 (m r2 k) s l
  | Alt r1 r2 =>
      match m r1 k s l with
      | Some x => Some x
      | None => m r2 k s l
      end
  | Rep g p lo hi => rep g p lo hi k s l
  | Grp n r' => m r' (fun s' l' => k (set_grp n (take (pos s' - pos s) l) s') l') s l
  | Ahead r' =>
      match m r' (fun s' l' => Some (s', l')) s l with
      | Some _ => k s l
      | None => None
      end
  | WordB => if at_boundary s l then k s l else None
  | Bol => match prev s with None => k s l | Some _ => None end
  | Eol =>
      match l with
      | [] => k s l
      | [c] => if Ascii.eqb c LF then k s l else None
      | _ => None
      end
  | EndZ => match l with [] => k s l | _ => None end
  end.

Definition accept : cont := fun s l => Some (s, l).

(** [match_at r s l]: the match of [r] that starts at the cursor. *)
Definition match_at (r : pat) (s : cur) (l : text) : option (cur * text) :=
  m r accept s l.

(** A match object: [start()], [end()], [group(0)] and the captured
    groups. *)
Record mobj := Mobj {
  m_start : nat;
  m_end : nat;
  group0 : text;
  groups : list (nat * text) }.

Fixpoint assoc (n : nat) (gs : list (nat * text)) : option text :=
  match gs with
  | [] => None
  | (i, g) :: gs' => if i =? n then Some g else assoc n gs'
  end.

(** [m.group(n)]; [None] for a group that did not take part. *)
Definition group (n : nat) (mo : mobj) : option text := assoc n (groups mo).

Definition mk_mobj (s : cur) (l : text) (e : cur) : mobj :=
  Mobj (pos s) (pos e) (take (pos e - pos s) l) (grp e).

(** [m.group(1)], the empty string for a group that did not take part
    (as [findall] reports it). *)
Definition g1 (mo : mobj) : text := default [] (group 1 mo).

(** Leftmost match at or after the cursor. *)
Fixpoint search_from (r : pat) (s : cur) (l : text) {struct l} : option mobj :=
  match match_at r s l with
  | Some (e, _) => Some (mk_mobj s l e)
  | None =>
      match l with
      | c :: l' => search_from r (step c s) l'
      | [] => None
      end
  end.

Definition start : cur := Cur 0 None [].

(** [re.search(r, subject)] *)
Definition search (r : pat) (subject : text) : option mobj :=
  search_from r start subject.

(** [re.match(r, subject)] *)
Definition match_ (r : pat) (subject : text) : option mobj :=
  match match_at r start subject with
  | Some (e, _) => Some (mk_mobj start subject e)
  | None => None
  end.

(** The successive non-overlapping matches, left to right.  After a
    match of [n] characters the scan resumes [n] characters further
    ([skip] counts the characters of the last match still to be passed);
    after an empty match it resumes one character further. *)
Fixpoint scan (r : pat) (skip : nat) (s : cur) (l : text) {struct l} : list mobj :=
  match skip with
  | S n =>
      match l with
      | c :: l' => scan r n (step c s) l'
      | [] => []
      end
  | O =>
      match match_at r s l with
      | Some (e, _) =>
          mk_mobj s l e ::
          match l with
          | c :: l' => scan r (pred (pos e - pos s)) (step c s) l'
          | [] => []
          end
      | None =>
          match l with
          | c :: l' => scan r 0 (step c s) l'
          | [] => []
          end
      end
  end.

(** [r.finditer(subject)] *)
Definition finditer (r : pat) (subject : text) : list mobj :=
  scan r 0 start subject.

(** [r.findall(subject)] for a pattern with one group. *)
Definition findall (r : pat) (subject : text) : list text :=
  g1 <$> finditer r subject.

(** [r.sub(repl, subject)]: the text between the matches is copied and
    each match is replaced by [repl] of its match object. *)
Fixpoint assemble (repl : mobj -> text) (last : nat) (subject : text)
    (ms : list mobj) : text :=
  match ms with
  | [] => drop last subject
  | mo :: ms' =>
      take (m_start mo - last) (drop last subject) ++ repl mo ++
      assemble repl (m_end mo) subject ms'
  end.

Definition sub (r : pat) (repl : mobj -> text) (subject : text) : text :=
  assemble repl 0 subject (finditer r subject).

(** *** Building patterns *)

(** A literal character, and the same under IGNORECASE. *)
Definition lit (c : ascii) : pat := Chr (Ascii.eqb c).
Definition liti (c : ascii) : pat := Chr (fun x => Ascii.eqb (to_lower x) (to_lower c)).

(** A character set under IGNORECASE: a character is in it when one of
    its two cases is. *)
Definition icase (p : ascii -> bool) : ascii -> bool :=
  fun c => p (to_lower c) || p (to_upper c).

Definition cat (rs : list pat) : pat := foldr Seq Eps rs.

Definition alt (rs : list pat) : pat :=
  match rs with
  | [] => Eps
  | r :: rs' => foldl Alt r rs'
  end.

(** A literal string, case-sensitive or not. *)
Definition str (s : text) : pat := cat (lit <$> s).
Definition stri (s : text) : pat := cat (liti <$> s).

Definition star (p : ascii -> bool) : pat := Rep true p 0 None.
Definition plus (p : ascii -> bool) : pat := Rep true p 1 None.
Definition opt1 (p : ascii -> bool) : pat := Rep true p 0 (Some 1).
Definition star_lazy (p : ascii -> bool) : pat := Rep false p 0 None.
Definition plus_lazy (p : ascii -> bool) : pat := Rep false p 1 None.
Definition at_least (n : nat) (p : ascii -> bool) : pat := Rep true p n None.
Definition between (lo hi : nat) (p : ascii -> bool) : pat := Rep true p lo (Some hi).
Definition exactly (n : nat) (p : ascii -> bool) : pat := Rep true p n (Some n).

(** [(?:r)?] *)
Definition Opt (r : pat) : pat := Alt r Eps.

End Re.

Import Re.

(** ** Exceptions *)

Inductive exn := ValueError | AttributeError | KeyError | IllegalCharacterError.

Inductive result (A : Type) : Type :=
| Ok (a : A)
| Raise (e : exn).
Arguments Ok {A} a.
Arguments Raise {A} e.

#[global] Instance result_bind : MBind result := fun A B f x =>
  match x with
  | Ok a => f a
  | Raise e => Raise e
  end.

#[global] Instance result_ret : MRet result := fun A a => Ok a.

(** * PDF processing ([core/pdf_processor_nike.py], [core/pdf_processor.py])

    The two files hold the same functions; the Nike file names the parser
    [parse_pl], the other [parse_pl_pdf]. *)

(** ** Utils *)

(** [re.sub(r"\s+", " ", (s or '').strip())] *)
Definition norm (s : text) : text :=
  sub (plus is_space) (fun _ => " "%t) (strip s).

(** *** [datetime.strptime] for the four formats of [to_dmy]

    CPython turns a format into a pattern matched case-insensitively at
    the start of the string, which it must consume whole: [%d] is
    [3[0-1]|[1-2]\d|0[1-9]|[1-9]| [1-9]], [%m] is [1[0-2]|0[1-9]|[1-9]],
    [%Y] is [\d\d\d\d], [%b] and [%B] are the month names of the C locale
    (longest first), and a blank of the format is [\s+].  The date must
    exist in the calendar. *)

Inductive date_format := DMY_slash | DMY_dash | Mon_D_Y | Month_D_Y.

Definition re_d : pat :=
  Grp 1 (alt [ Seq (lit "3") (Chr (in_range "0" "1"));
               Seq (Chr (in_range "1" "2")) (Chr is_digit);
               Seq (lit "0") (Chr (in_range "1" "9"));
               Chr (in_range "1" "9");
               Seq (lit " ") (Chr (in_range "1" "9")) ]).

Definition re_m : pat :=
  Grp 2 (alt [ Seq (lit "1") (Chr (in_range "0" "2"));
               Seq (lit "0") (Chr (in_range "1" "9"));
               Chr (in_range "1" "9") ]).

Definition re_Y : pat := Grp 3 (exactly 4 is_digit).

Definition a_month : list text :=
  [ "jan"; "feb"; "mar"; "apr"; "may"; "jun";
    "jul"; "aug"; "sep"; "oct"; "nov"; "dec" ]%t.

Definition f_month : list text :=
  [ "january"; "february"; "march"; "april"; "may"; "june";
    "july"; "august"; "september"; "october"; "november"; "december" ]%t.

(** [sorted(names, key=len, reverse=True)] of the full month names. *)
Definition f_month_by_len : list text :=
  [ "september"; "february"; "november"; "december"; "january"; "october";
    "august"; "march"; "april"; "june"; "july"; "may" ]%t.

Definition re_b : pat := Grp 2 (alt (stri <$> a_month)).
Definition re_B : pat := Grp 2 (alt (stri <$> f_month_by_len)).

Definition format_regex (f : date_format) : pat :=
  match f with
  | DMY_slash => cat [re_d; lit "/"; re_m; lit "/"; re_Y]
  | DMY_dash => cat [re_d; lit "-"; re_m; lit "-"; re_Y]
  | Mon_D_Y => cat [re_b; plus is_space; re_d; lit ","; plus is_space; re_Y]
  | Month_D_Y => cat [re_B; plus is_space; re_d; lit ","; plus is_space; re_Y]
  end.

(** Position (from 1) of a name in a list of month names. *)
Fixpoint month_index (names : list text) (s : text) (i : nat) : nat :=
  match names with
  | [] => 0
  | n :: names' => if decide (n = s) then i else month_index names' s (S i)
  end.

Definition is_leap (y : nat) : bool :=
  (y mod 4 =? 0) && (negb (y mod 100 =? 0) || (y mod 400 =? 0)).

Definition days_in_month (y mo : nat) : nat :=
  match mo with
  | 2 => if is_leap y then 29 else 28
  | 4 | 6 | 9 | 11 => 30
  | _ => 31
  end.

Record date := Date { year : nat; month : nat; day : nat }.

Definition strptime (s : text) (f : date_format) : result date :=
  match match_ (format_regex f) s with
  | None => Raise ValueError
  | Some found =>
      if negb (length s =? m_end found) then Raise ValueError
      else
        let d := int_of_digits (lstrip (default [] (group 1 found))) in
        let g2 := default [] (group 2 found) in
        let mo := match f with
                  | DMY_slash | DMY_dash => int_of_digits g2
                  | Mon_D_Y => month_index a_month (lower g2) 1
                  | Month_D_Y => month_index f_month (lower g2) 1
                  end in
        let y := int_of_digits (default [] (group 3 found)) in
        if (1 <=? y) && (1 <=? d) && (d <=? days_in_month y mo)
        then Ok (Date y mo d)
        else Raise ValueError
  end.

(** [f"{n:02d}"] *)
Definition fmt_02d (n : nat) : text :=
  if n <? 10 then "0"%char :: str_nat n else str_nat n.

(** [f"{dt.day:02d}/{dt.month:02d}/{dt.year}"] *)
Definition fmt_dmy (dt : date) : text :=
  fmt_02d (day dt) ++ "/"%t ++ fmt_02d (month dt) ++ "/"%t ++ str_nat (year dt).

(** The loop over the formats: the first one that parses decides. *)
Fixpoint try_formats (s : text) (fs : list date_format) : option text :=
  match fs with
  | [] => None
  | f :: fs' =>
      match strptime (strip s) f with
      | Ok dt => Some (fmt_dmy dt)
      | Raise _ => try_formats s fs'
      end
  end.

Definition to_dmy (date_str : text) : text :=
  match date_str with
  | [] => []
  | _ =>
      match try_formats date_str [DMY_slash; DMY_dash; Mon_D_Y; Month_D_Y] with
      | Some r => r
      | None =>
          match strptime (strip (replace " ,"%t ","%t (replace "  "%t " "%t date_str)))
                         Month_D_Y with
          | Ok dt => fmt_dmy dt
          | Raise _ => date_str
          end
      end
  end.

(** ** Marks and destination *)

(** A word of [page.extract_words()]: its text and bounding box. *)
Record word := Word { w_text : text; x0 : Q; x1 : Q; top : Q; bottom : Q }.

(** [round(x)]: the nearest integer, a tie going to the even one. *)
Definition py_round (x : Q) : Z :=
  let f := Qfloor x in
  match (x - inject_Z f ?= 1 # 2)%Q with
  | Lt => f
  | Gt => (f + 1)%Z
  | Eq => if Z.even f then f else (f + 1)%Z
  end.

(** [sorted(l, key=...)], a stable sort: [le a b] compares the keys. *)
Fixpoint insert_by {A} (le : A -> A -> bool) (a : A) (l : list A) : list A :=
  match l with
  | [] => [a]
  | b :: l' => if le a b then a :: l else b :: insert_by le a l'
  end.

Definition sorted {A} (le : A -> A -> bool) (l : list A) : list A :=
  foldr (insert_by le) [] l.

(** Order of the keys [(round(w["top"]), w["x0"])], tuples compared
    lexicographically. *)
Definition key_le (a b : word) : bool :=
  (py_round (top a) <? py_round (top b))%Z ||
  ((py_round (top a) =? py_round (top b))%Z && Qle_bool (x0 a) (x0 b)).

(** Order of the keys [w["x0"]]. *)
Definition x0_le (a b : word) : bool := Qle_bool (x0 a) (x0 b).

(** The [for w in words] loop of [group_lines]; the state is
    [(lines, cur, cur_y)]. *)
Fixpoint group_loop (tol : Z) (words : list word) (lines : list (list word))
    (cur : list word) (cur_y : option Z) : list (list word) * list word :=
  match words with
  | [] => (lines, cur)
  | w :: words' =>
      let y := py_round (top w) in
      match cur_y with
      | None => group_loop tol words' lines (cur ++ [w]) (Some y)
      | Some cy =>
          if (Z.abs (y - cy) <=? tol)%Z
          then group_loop tol words' lines (cur ++ [w]) (Some cy)
          else group_loop tol words' (lines ++ [sorted x0_le cur]) [w] (Some y)
      end
  end.

Definition group_lines (words : list word) (tol : Z) : list (list word) :=
  match words with
  | [] => []
  | _ =>
      let '(lines, cur) := group_loop tol (sorted key_le words) [] [] None in
      match cur with
      | [] => lines
      | _ => lines ++ [sorted x0_le cur]
      end
  end.

Definition linetxt (line_words : list word) : text :=
  join " "%t (w_text <$> line_words).

(** [[A-Z0-9][A-Z0-9\-/# ]{5,}], IGNORECASE *)
Definition RE_MARKS_CODE : pat :=
  cat [ Chr (icase (fun c => is_upper c || is_digit c));
        at_least 5 (icase (fun c => is_upper c || is_digit c ||
                                    bool_decide (c ∈ ["-"; "/"; "#"; " "]%char))) ].

(** [\bCountry\s+Of\s+Origin\b], IGNORECASE *)
Definition RE_COO : pat :=
  cat [ WordB; stri "Country"; plus is_space; stri "Of"; plus is_space;
        stri "Origin"; WordB ].

(** [Country|Of|Origin], IGNORECASE *)
Definition RE_COO_WORD : pat :=
  alt [ stri "Country"; stri "Of"; stri "Origin" ].

(** [\bNOCAB\b|\bMARKS?\b], IGNORECASE *)
Definition RE_MARKS_LABEL : pat :=
  alt [ cat [WordB; stri "NOCAB"; WordB];
        cat [WordB; stri "MARK"; Opt (liti "S"); WordB] ].

(** [(.*?Country\s+Of\s+Origin\s*:\s*[A-Za-z ]+)], IGNORECASE *)
Definition RE_MARKS_COO : pat :=
  Grp 1 (cat [ star_lazy is_dot; stri "Country"; plus is_space; stri "Of";
               plus is_space; stri "Origin"; star is_space; lit ":";
               star is_space;
               plus (icase (fun c => is_alpha c || Ascii.eqb c " ")) ]).

(** A page of the PDF as the token provider shows it: [extract_text()]
    ([None] when it yields no text), [extract_words(...)] ([None] when it
    raises) and [width]. *)
Record page := Page {
  extract_text : option text;
  extract_words : option (list word);
  width : Q }.

Definition is_match (r : pat) (s : text) : bool :=
  bool_decide (is_Some (search r s)).

(** [min(...)] of a generator of numbers; it raises on an empty one. *)
Definition py_min (l : list Q) : result Q :=
  match l with
  | [] => Raise ValueError
  | q :: l' => Ok (foldl (fun a b => if Qle_bool a b then a else b) q l')
  end.

(** The first loop of [extract_marks_by_words]: the left edge given by the
    first line that holds the label. *)
Fixpoint find_x_left (lines : list (list word)) : result (option Q) :=
  match lines with
  | [] => Ok None
  | line :: lines' =>
      if is_match RE_COO (linetxt line)
      then q ← py_min (x0 <$> filter (fun w => is_match RE_COO_WORD (w_text w)) line);
           Ok (Some (q - 6)%Q)
      else find_x_left lines'
  end.

(** [next((i for i, t in enumerate(texts) if ...), None)] *)
Fixpoint first_index (f : text -> bool) (texts : list text) (i : nat) : option nat :=
  match texts with
  | [] => None
  | t :: texts' => if f t then Some i else first_index f texts' (S i)
  end.

(** [a or b] on integers: [a] unless it is [None] or [0]. *)
Definition or_int (a : option nat) (b : nat) : nat :=
  match a with
  | Some (S n) => S n
  | _ => b
  end.

(** The backward scan for a MARKS / NOCAB line: [ks] are the indices
    visited, in order. *)
Fixpoint scan_back (texts : list text) (ks : list nat) (r_start : nat) : nat :=
  match ks with
  | [] => r_start
  | k :: ks' =>
      if is_match RE_MARKS_LABEL (default [] (texts !! k)) then k
      else scan_back texts ks' r_start
  end.

Definition extract_marks_by_words (pg : page) : result text :=
  let words := default [] (extract_words pg) in
  match words with
  | [] => Ok []
  | _ =>
      let lines := group_lines words 2 in
      x ← find_x_left lines;
      let x_left := default (width pg * (7 # 10))%Q x in
      let right_lines :=
        filter (fun l => bool_decide (l ≠ []))
               ((fun line => filter (fun w => Qle_bool x_left (x0 w)) line) <$> lines) in
      let texts := linetxt <$> right_lines in
      match right_lines with
      | [] => Ok []
      | _ =>
          let r_coo_idx := first_index (is_match RE_COO) texts 0 in
          let r_start0 := match r_coo_idx with Some i => i - 3 | None => 0 end in
          let a := or_int r_coo_idx (length texts) in
          (* range(a - 1, max(-1, a - 6), -1) *)
          let ks := reverse (seq (a - 5) (a - (a - 5))) in
          let r_start := scan_back texts ks r_start0 in
          let r_end0 :=
            match r_coo_idx with
            | Some i => if S i <? length texts then S i else or_int (Some i) (r_start + 2)
            | None => r_start + 2
            end in
          let r_end := r_end0 `min` (length texts - 1) in
          let picked := norm (join " "%t (take (S r_end - r_start) (drop r_start texts))) in
          match search RE_MARKS_COO picked with
          | Some mo => Ok (norm (g1 mo))
          | None =>
              match search RE_MARKS_CODE picked with
              | Some m2 => Ok (norm (group0 m2))
              | None => Ok picked
              end
          end
      end
  end.

(** [mk or ''] *)
Definition extract_marks (pg : page) : result text := extract_marks_by_words pg.

Definition COUNTRY_SIMPLE : list text :=
  [ "Canada"; "Belgium"; "Poland"; "Taiwan"; "Singapore"; "United Kingdom"; "United States";
    "Netherlands"; "France"; "Germany"; "Italy"; "Spain"; "Portugal"; "Mexico"; "Brazil"; "China";
    "Japan"; "Korea"; "Turkey"; "Australia"; "New Zealand"; "Thailand"; "Indonesia"; "Malaysia";
    "Philippines"; "Vietnam"; "Cambodia"; "Laos"; "Myanmar"; "India"; "Pakistan"; "Bangladesh";
    "Sri Lanka"; "U.A.E"; "United Arab Emirates" ]%t.

(** [^(kingdom|republic|state|federal|commonwealth)\s+of\s+], IGNORECASE *)
Definition RE_LONG_PREFIX : pat :=
  cat [ Bol;
        Grp 1 (alt (stri <$> ["kingdom"; "republic"; "state"; "federal"; "commonwealth"]%t));
        plus is_space; stri "of"; plus is_space ].

(** [\s*\(.*?\)\s*$] *)
Definition RE_TRAILING_PAREN : pat :=
  cat [ star is_space; lit "("; star_lazy is_dot; lit ")"; star is_space; Eol ].

(** [^people's republic of\s+], IGNORECASE *)
Definition RE_PEOPLES : pat :=
  cat [ Bol; stri "people's republic of"; plus is_space ].

Definition clean_long_country_name (s : text) : text :=
  let t := strip s in
  let t := sub RE_LONG_PREFIX (fun _ => []) t in
  let t := sub RE_TRAILING_PAREN (fun _ => []) t in
  let t := sub RE_PEOPLES (fun _ => []) t in
  let t := replace "U.S.A"%t "United States"%t
             (replace "Korea, Republic of"%t "Korea"%t
                (replace "Viet Nam"%t "Vietnam"%t t)) in
  strip t.

(** The pattern text [rf"\b{name}\b"]: the name is spliced into the
    pattern unescaped, so a [.] of the name is the wildcard; letters and
    blanks stand for themselves (matched under IGNORECASE). *)
Definition name_pat (name : text) : pat :=
  cat [ WordB;
        cat ((fun c => if Ascii.eqb c "." then Chr is_dot else liti c) <$> name);
        WordB ].

(** [([A-Z][a-z]+(?:\s+[A-Z][a-z]+){0,2})\s*$] *)
Definition RE_TAIL : pat :=
  let cap := cat [ Chr is_upper; plus is_lower ] in
  let more := cat [ plus is_space; cap ] in
  cat [ Grp 1 (cat [ cap; Opt (cat [ more; Opt more ]) ]); star is_space; Eol ].

(** The [for name in COUNTRY_SIMPLE] loop: [found] is overwritten by each
    name that matches. *)
Definition find_country (names : list text) (pre : text) : text :=
  foldl (fun found name => if is_match (name_pat name) pre then name else found)
        [] names.

(** The text [pre] searched by [dest_from_marks]: the marks up to the
    label "Country Of Origin" when they hold it. *)
Definition marks_prefix (marks : text) : text :=
  if contains "Country Of Origin"%t marks
  then before_first "Country Of Origin"%t marks
  else marks.

Definition dest_from_marks (marks : text) : text :=
  match marks with
  | [] => []
  | _ =>
      let pre := marks_prefix marks in
      let found := find_country COUNTRY_SIMPLE pre in
      match found with
      | _ :: _ => clean_long_country_name found
      | [] =>
          match last (findall RE_TAIL pre) with
          | Some t => clean_long_country_name t
          | None => []
          end
      end
  end.

(** ** PL parser (PO and Reference PO) *)

Definition sp : pat := plus is_space.   (* \s+ *)
Definition sp0 : pat := star is_space.  (* \s* *)

(** [Reference\s+PO#\s*:\s*(\d{7,})(?=\s*(?:Item\s+Seq\.|Material|Desc|
    Customer\s+Ship\s+To|Plant|Total\s+CBM|Total\s+Net\s+Kgs|
    Total\s+Gross\s+Kgs|\Z))], IGNORECASE *)
Definition RE_REFPO : pat :=
  cat [ stri "Reference"; sp; stri "PO#"; sp0; lit ":"; sp0;
        Grp 1 (at_least 7 is_digit);
        Ahead (cat [ sp0;
          alt [ cat [stri "Item"; sp; stri "Seq."];
                stri "Material";
                stri "Desc";
                cat [stri "Customer"; sp; stri "Ship"; sp; stri "To"];
                stri "Plant";
                cat [stri "Total"; sp; stri "CBM"];
                cat [stri "Total"; sp; stri "Net"; sp; stri "Kgs"];
                cat [stri "Total"; sp; stri "Gross"; sp; stri "Kgs"];
                EndZ ] ]) ].

(** [\bPO\W*#?\W*[: ]\s*(\d{7,})], IGNORECASE *)
Definition RE_PO_ANY : pat :=
  cat [ WordB; stri "PO";
        star (fun c => negb (is_word c)); opt1 (Ascii.eqb "#");
        star (fun c => negb (is_word c));
        Chr (fun c => bool_decide (c ∈ [":"; " "]%char)); sp0;
        Grp 1 (at_least 7 is_digit) ].

(** [Invoice\s+Number\.?\s*:\s*([A-Z0-9\-\/]+)], IGNORECASE *)
Definition RE_INVOICE : pat :=
  cat [ stri "Invoice"; sp; stri "Number"; opt1 (Ascii.eqb "."); sp0; lit ":"; sp0;
        Grp 1 (plus (icase (fun c => is_upper c || is_digit c ||
                                     bool_decide (c ∈ ["-"; "/"]%char)))) ].

(** [\bDate\s*:\s*([0-3]?\d[\/\-][01]?\d[\/\-]\d{4})], IGNORECASE *)
Definition RE_DATE_NUM : pat :=
  let sep := Chr (fun c => bool_decide (c ∈ ["/"; "-"]%char)) in
  cat [ WordB; stri "Date"; sp0; lit ":"; sp0;
        Grp 1 (cat [ opt1 (in_range "0" "3"); Chr is_digit; sep;
                     opt1 (in_range "0" "1"); Chr is_digit; sep;
                     exactly 4 is_digit ]) ].

(** [\bDate\s*:\s*([A-Za-z]+ \d{1,2},\s*\d{4})], IGNORECASE *)
Definition RE_DATE_TEXT : pat :=
  cat [ WordB; stri "Date"; sp0; lit ":"; sp0;
        Grp 1 (cat [ plus (icase is_alpha); lit " "; between 1 2 is_digit; lit ",";
                     sp0; exactly 4 is_digit ]) ].

(** [\bItem\s+Seq\.?\s*:\s*([A-Z0-9]+)], IGNORECASE *)
Definition RE_ITEM_SEQ : pat :=
  cat [ WordB; stri "Item"; sp; stri "Seq"; opt1 (Ascii.eqb "."); sp0; lit ":"; sp0;
        Grp 1 (plus (icase (fun c => is_upper c || is_digit c))) ].

(** [[A-Z0-9\-]], IGNORECASE *)
Definition code_char : ascii -> bool :=
  icase (fun c => is_upper c || is_digit c || Ascii.eqb c "-").

(** [\bMaterial\s*:\s*([A-Z0-9\-]+)], IGNORECASE *)
Definition RE_MATERIAL : pat :=
  cat [ WordB; stri "Material"; sp0; lit ":"; sp0; Grp 1 (plus code_char) ].

(** [\bDesc\s*:\s*(.+?)(?=\s+(?:Total\s+Net\s+Kgs|Total\s+Gross\s+Kgs|
    Reference\s+PO#|Plant|Total\s+CBM|Item\s+Seq\.|Customer\s+Ship\s+To)\b)],
    IGNORECASE *)
Definition RE_DESC : pat :=
  cat [ WordB; stri "Desc"; sp0; lit ":"; sp0;
        Grp 1 (plus_lazy is_dot);
        Ahead (cat [ sp;
          alt [ cat [stri "Total"; sp; stri "Net"; sp; stri "Kgs"];
                cat [stri "Total"; sp; stri "Gross"; sp; stri "Kgs"];
                cat [stri "Reference"; sp; stri "PO#"];
                stri "Plant";
                cat [stri "Total"; sp; stri "CBM"];
                cat [stri "Item"; sp; stri "Seq."];
                cat [stri "Customer"; sp; stri "Ship"; sp; stri "To"] ];
          WordB ]) ].

(** [\bCustomer\s+Ship\s+To\s*:?\s*#?\s*:\s*(\d{6,})], IGNORECASE *)
Definition RE_CUSTSHIP : pat :=
  cat [ WordB; stri "Customer"; sp; stri "Ship"; sp; stri "To"; sp0;
        opt1 (Ascii.eqb ":"); sp0; opt1 (Ascii.eqb "#"); sp0; lit ":"; sp0;
        Grp 1 (at_least 6 is_digit) ].

(** [\bPlant\s*:\s*([A-Z0-9\-]+)], IGNORECASE *)
Definition RE_PLANT : pat :=
  cat [ WordB; stri "Plant"; sp0; lit ":"; sp0; Grp 1 (plus code_char) ].

(** [[\d\.,]] *)
Definition amount_char (c : ascii) : bool :=
  is_digit c || bool_decide (c ∈ ["."; ","]%char).

(** [\bTotal\s+<what>\s*:\s*([\d\.,]+)], IGNORECASE *)
Definition RE_TOTAL (what : list text) : pat :=
  cat [ WordB; stri "Total"; cat ((fun w => Seq sp (stri w)) <$> what);
        sp0; lit ":"; sp0; Grp 1 (plus amount_char) ].

Definition RE_GROSS : pat := RE_TOTAL ["Gross"; "Kgs"]%t.
Definition RE_CARTONS : pat := RE_TOTAL ["Cartons"]%t.
Definition RE_UNITS : pat := RE_TOTAL ["Units"]%t.

(** The record under construction and the two candidate lists. *)
Record pl_state := PlState {
  row : gmap text text;
  refpo_hits : list text;
  po_hits : list text }.

(** [row[k]] for a key of the record. *)
Definition get (r : gmap text text) (k : text) : text := default [] (r !! k).

(** [a or b] on strings. *)
Definition or_text (a b : text) : text :=
  match a with
  | [] => b
  | _ => a
  end.

(** The local function [grab] of the page loop. *)
Definition grab (txt : text) (pattern : pat) : text :=
  match search pattern txt with
  | Some m2 => norm (g1 m2)
  | None => []
  end.

(** The fields filled by [row[k] = row[k] or grab(...)], with their
    patterns, in the order of the source. *)
Definition guarded_fields : list (text * pat) :=
  [ ("Item Seq."%t, RE_ITEM_SEQ);
    ("Material"%t, RE_MATERIAL);
    ("Desc"%t, RE_DESC);
    ("Customer Ship To #"%t, RE_CUSTSHIP);
    ("Plant"%t, RE_PLANT);
    ("Total Gross Kgs"%t, RE_GROSS);
    ("Total Cartons"%t, RE_CARTONS);
    ("Total Units"%t, RE_UNITS) ].

Definition init_row : gmap text text :=
  list_to_map ((fun k => (k, [])) <$>
    [ "Invoice Number"; "Date"; "PO"; "Reference PO#"; "Item Seq.";
      "Material"; "Desc"; "Customer Ship To #"; "Plant";
      "Total Gross Kgs"; "Total Cartons"; "Total Units"; "Marks" ]%t).

(** The body of the page loop up to the call of [extract_marks]. *)
Definition page_text_fields (pg : page) (st : pl_state) : pl_state :=
  let txt := default [] (extract_text pg) in
  let r := row st in
  let r := match search RE_INVOICE txt with
           | Some mo => <["Invoice Number"%t := norm (g1 mo)]> r
           | None => r
           end in
  let mo := match search RE_DATE_NUM txt with
            | Some mo => Some mo
            | None => search RE_DATE_TEXT txt
            end in
  let r := match mo with
           | Some mo => <["Date"%t := to_dmy (g1 mo)]> r
           | None => r
           end in
  let refpo := refpo_hits st ++ findall RE_REFPO txt in
  let po := po_hits st ++ findall RE_PO_ANY txt in
  let r := foldl (fun r '(k, pattern) => <[k := or_text (get r k) (grab txt pattern)]> r)
                 r guarded_fields in
  PlState r refpo po.

(** The end of the body: the marks of the page. *)
Definition page_marks (pg : page) (st : pl_state) : result pl_state :=
  mk ← extract_marks pg;
  match mk with
  | [] => Ok st
  | _ => Ok (PlState (<["Marks"%t := norm mk]> (row st)) (refpo_hits st)
                     (po_hits st ++ findall RE_PO_ANY mk))
  end.

(** [for page in pdf.pages]: the state at the end, or the state reached
    and the exception that left the loop. *)
Fixpoint page_loop (pages : list page) (st : pl_state) : pl_state * option exn :=
  match pages with
  | [] => (st, None)
  | pg :: pages' =>
      let st1 := page_text_fields pg st in
      match page_marks pg st1 with
      | Ok st2 => page_loop pages' st2
      | Raise e => (st1, Some e)
      end
  end.

(** "Set PO values" *)
Definition set_po_values (st : pl_state) : gmap text text :=
  let r := row st in
  let r := match refpo_hits st, po_hits st with
           | x :: _, _ => <["Reference PO#"%t := x]> r
           | [], x :: _ => <["Reference PO#"%t := x]> r
           | [], [] => r
           end in
  match po_hits st with
  | x :: _ => <["PO"%t := x]> r
  | [] => r
  end.

(** [parse_pl] ([parse_pl_pdf] in [pdf_processor.py]).  [pdf] is what
    [pdfplumber.open] gives: the pages, or an exception.  Any exception is
    logged and the record is returned as it stands. *)
Definition parse_pl (pdf : result (list page)) : gmap text text :=
  match pdf with
  | Raise _ => init_row
  | Ok pages =>
      match page_loop pages (PlState init_row [] []) with
      | (st, None) => set_po_values st
      | (st, Some _) => row st
      end
  end.

Definition parse_pl_pdf := parse_pl.

(** A page with text only. *)
Definition text_page (s : text) : page := Page (Some s) (Some []) 612.

(** ** ASI (booking) description *)

(** [\b\d+[A-Z]*\b] *)
Definition RE_QUANTITY : pat :=
  cat [ WordB; plus is_digit; star is_upper; WordB ].

(** [[^A-Z ]] *)
Definition RE_NOT_LETTER : pat :=
  Chr (fun c => negb (is_upper c || Ascii.eqb c " ")).

(** The loop [for k in (...): if k in d: return ...] of [_clean_desc];
    [d] is returned when no key occurs in it. *)
Fixpoint map_product (keys : list text) (d : text) : text :=
  match keys with
  | [] => d
  | k :: keys' =>
      if contains k d
      then if decide (k = "SCULL CAP"%t) then "SKULL CAP"%t
           else if decide (k = "BEANIE"%t) then "BEANIE"%t
           else k
      else map_product keys' d
  end.

Definition product_keys : list text :=
  [ "SKULL CAP"; "HAT"; "CAP"; "BEANIE"; "SCULL CAP" ]%t.

(** The text of [_clean_desc] before the mapping to a product type. *)
Definition clean_text (d : text) : text :=
  let d := upper (norm d) in
  let d := sub RE_QUANTITY (fun _ => []) d in
  let d := sub RE_NOT_LETTER (fun _ => " "%t) d in
  strip (sub (plus is_space) (fun _ => " "%t) d).

Definition _clean_desc (d : text) : text :=
  map_product product_keys (clean_text d).

(** * Spreadsheets

    Cell values, worksheets and workbooks as openpyxl shows them. *)

Inductive value :=
| VNone
| VStr (s : text)
| VInt (z : Z)
| VBool (b : bool).

#[global] Instance value_eq_dec : EqDecision value.
Proof. solve_decision. Defined.

(** [str(v)] *)
Definition py_str (v : value) : text :=
  match v with
  | VNone => "None"%t
  | VStr s => s
  | VInt z => str_Z z
  | VBool true => "True"%t
  | VBool false => "False"%t
  end.

(** Truth value of [v] in a condition. *)
Definition truthy (v : value) : bool :=
  match v with
  | VNone => false
  | VStr s => bool_decide (s ≠ [])
  | VInt z => bool_decide (z ≠ 0%Z)
  | VBool b => b
  end.

(** [v not in (None, '')] *)
Definition non_empty (v : value) : bool :=
  bool_decide (v ≠ VNone ∧ v ≠ VStr []).

(** The attributes of [ws.page_setup] and of [ws.page_margins] (in inches)
    that the code sets. *)
Record PrintPageSetup := MkPrintPageSetup {
  orientation : option text;
  paperSize : option Z;
  fitToPage : option bool;
  fitToHeight : option Z;
  fitToWidth : option Z }.

Record PageMargins := MkPageMargins {
  margin_left : Q;
  margin_right : Q;
  margin_top : Q;
  margin_bottom : Q;
  margin_header : Q;
  margin_footer : Q }.

(** A worksheet: the cells that exist, by (row, column), the optional
    [_shapes] attribute, each shape with its optional [text], and the
    page setup and margins. *)
Record worksheet := Worksheet {
  cells : gmap (nat * nat) value;
  shapes : option (list (option text));
  page_setup : PrintPageSetup;
  page_margins : PageMargins }.

(** The page setup and the margins of a new sheet. *)
Definition new_page_setup : PrintPageSetup := MkPrintPageSetup None None None None None.

Definition new_page_margins : PageMargins :=
  MkPageMargins (3 # 4) (3 # 4) 1 1 (1 # 2) (1 # 2).

(** The value shown by the cell at a coordinate, [None] for a cell that
    does not exist yet. *)
Definition cell_value (ws : worksheet) (r c : nat) : value :=
  default VNone (cells ws !! (r, c)).

(** [ws.cell(row=r, column=c)]: coordinates start at 1; the cell is created
    empty when it does not exist. *)
Definition cell (ws : worksheet) (r c : nat) : result worksheet :=
  if (r <? 1) || (c <? 1) then Raise ValueError
  else Ok (match cells ws !! (r, c) with
           | Some _ => ws
           | None => Worksheet (<[(r, c) := VNone]> (cells ws)) (shapes ws)
                               (page_setup ws) (page_margins ws)
           end).

(** [ws.cell(row=r, column=c).value] *)
Definition read (ws : worksheet) (r c : nat) : result (worksheet * value) :=
  ws' ← cell ws r c; Ok (ws', cell_value ws' r c).

(** The characters that a cell refuses, openpyxl's [ILLEGAL_CHARACTERS_RE]:
    [[\000-\010]|[\013-\014]|[\016-\037]]. *)
Definition illegal_character (c : ascii) : bool :=
  (code c <=? 8) || ((11 <=? code c) && (code c <=? 12))
  || ((14 <=? code c) && (code c <=? 31)).

(** [s[:n]] *)
Fixpoint slice_to (n : N) (s : text) : text :=
  match s with
  | [] => []
  | c :: s' => if (n =? 0)%N then [] else c :: slice_to (N.pred n) s'
  end.

(** openpyxl's [Cell.check_string]: the string is cut at 32767 characters,
    and refused when what is left holds an illegal character. *)
Definition check_string (s : text) : result text :=
  let s := slice_to 32767 s in
  if existsb illegal_character s then Raise IllegalCharacterError else Ok s.

(** The value that the assignment [cell.value = v] stores: a string goes
    through [check_string]; [None], numbers and booleans are stored as
    they are. *)
Definition bind_value (v : value) : result value :=
  match v with
  | VStr s => s' ← check_string s; Ok (VStr s')
  | _ => Ok v
  end.

(** [ws.cell(row=r, column=c).value = v] *)
Definition write (ws : worksheet) (r c : nat) (v : value) : result worksheet :=
  ws' ← cell ws r c;
  v' ← bind_value v;
  Ok (Worksheet (<[(r, c) := v']> (cells ws')) (shapes ws')
                (page_setup ws') (page_margins ws')).

(** [ws.max_row] and [ws.max_column]: the largest index among the cells
    that exist, 1 on an empty sheet. *)
Definition max_row (ws : worksheet) : nat :=
  match elements (dom (cells ws)) with
  | [] => 1
  | l => max_list (fst <$> l)
  end.

Definition max_column (ws : worksheet) : nat :=
  match elements (dom (cells ws)) with
  | [] => 1
  | l => max_list (snd <$> l)
  end.

(** The coordinates visited by [ws.iter_rows()]: the bounding box, row by
    row.  (The cells it creates on the way are empty and stay inside the
    box; they are read as [None] by [cell_value].) *)
Definition iter_rows (ws : worksheet) : list (nat * nat) :=
  r ← seq 1 (max_row ws); c ← seq 1 (max_column ws); [(r, c)].

(** A workbook: its sheets in order, by title. *)
Definition workbook := list (text * worksheet).

Definition sheetnames (wb : workbook) : list text := fst <$> wb.

(** [wb[name]] *)
Fixpoint get_sheet (wb : workbook) (name : text) : result worksheet :=
  match wb with
  | [] => Raise KeyError
  | (n, ws) :: wb' => if decide (n = name) then Ok ws else get_sheet wb' name
  end.

(** The sheet [wb[name]] after it was changed in place. *)
Fixpoint set_sheet (wb : workbook) (name : text) (ws' : worksheet) : workbook :=
  match wb with
  | [] => []
  | (n, ws) :: wb' =>
      if decide (n = name) then (n, ws') :: wb' else (n, ws) :: set_sheet wb' name ws'
  end.

(** Lexicographic order of strings by character code, as [sorted] uses it. *)
Fixpoint text_le (a b : text) : bool :=
  match a, b with
  | [], _ => true
  | _ :: _, [] => false
  | x :: a', y :: b' =>
      (code x <? code y) || ((code x =? code y) && text_le a' b')
  end.

(** [sorted(list(placeholders))] *)
Definition sorted_set (s : gset text) : list text := sorted text_le (elements s).

(** The outcome of a fill: [FillOk n] is the pair [(True, ...)] that
    reports [n] replacements, [FillError e] the pair [(False, message)]
    built from the exception [e]. *)
Inductive fill_result :=
| FillOk (total_replacements : nat)
| FillError (e : exn).

(** Cells with a non-empty string value: [cell.value and
    isinstance(cell.value, str)]. *)
Definition str_value (v : value) : option text :=
  match v with
  | VStr (c :: s) => Some (c :: s)
  | _ => None
  end.

(** [str(data_dict.get(placeholder, match.group(0)))] *)
Definition replace_func (data_dict : gmap text value) (mo : mobj) : text :=
  py_str (default (VStr (group0 mo)) (data_dict !! g1 mo)).

(** * Template manager ([core/template_manager.py]) *)

Module TemplateManager.

(** [\[([^\]]+)\]] *)
Definition placeholders_pattern : pat :=
  cat [ lit "["; Grp 1 (plus (fun c => negb (Ascii.eqb c "]"))); lit "]" ].

Definition _replace_placeholders_in_text (s : text) (data_dict : gmap text value) : text :=
  sub placeholders_pattern (replace_func data_dict) s.

(** The texts of the shapes of a sheet that have one:
    [hasattr(ws, '_shapes') and ws._shapes], [hasattr(shape, 'text') and
    shape.text]. *)
Definition shape_text (shape : option text) : option text :=
  match shape with
  | Some (c :: s) => Some (c :: s)
  | _ => None
  end.

Definition shape_texts (ws : worksheet) : list text :=
  omap shape_text (default [] (shapes ws)).

(** The placeholders of one sheet, cells then shapes. *)
Definition scan_sheet (ws : worksheet) (placeholders : gset text) : gset text :=
  let placeholders :=
    foldl (fun acc '(r, c) =>
             match str_value (cell_value ws r c) with
             | Some s => acc ∪ list_to_set (findall placeholders_pattern s)
             | None => acc
             end) placeholders (iter_rows ws) in
  foldl (fun acc s => acc ∪ list_to_set (findall placeholders_pattern s))
        placeholders (shape_texts ws).

(** [scan_template_placeholders], on the workbook loaded from the
    template file. *)
Definition scan_template_placeholders (wb : workbook) : list text :=
  sorted_set (foldl (fun acc '(_, ws) => scan_sheet ws acc) ∅ wb).

(** The cell loop of [replace_placeholders_in_sheet]: the sheet, the
    count, and the exception that ended the loop, raised by the
    assignment of a cell value. *)
Fixpoint replace_cells (data_dict : gmap text value) (coords : list (nat * nat))
    (ws : worksheet) (replacements_made : nat) : worksheet * nat * option exn :=
  match coords with
  | [] => (ws, replacements_made, None)
  | (r, c) :: coords' =>
      match str_value (cell_value ws r c) with
      | Some original_value =>
          let new_value := _replace_placeholders_in_text original_value data_dict in
          if decide (new_value ≠ original_value)
          then match bind_value (VStr new_value) with
               | Ok v =>
                   replace_cells data_dict coords'
                     (Worksheet (<[(r, c) := v]> (cells ws)) (shapes ws)
                                (page_setup ws) (page_margins ws))
                     (S replacements_made)
               | Raise e => (ws, replacements_made, Some e)
               end
          else replace_cells data_dict coords' ws replacements_made
      | None => replace_cells data_dict coords' ws replacements_made
      end
  end.

(** One step of the shape loop. *)
Definition replace_shape (data_dict : gmap text value)
    (st : list (option text) * nat) (shape : option text) : list (option text) * nat :=
  let '(done, replacements_made) := st in
  match shape with
  | Some (c :: s) =>
      let original_text := c :: s in
      let new_text := _replace_placeholders_in_text original_text data_dict in
      if decide (new_text ≠ original_text)
      then (done ++ [Some new_text], S replacements_made)
      else (done ++ [shape], replacements_made)
  | _ => (done ++ [shape], replacements_made)
  end.

(** [replace_placeholders_in_sheet]: the sheet after the loops and the
    count.  An exception of the cell loop is logged and ends the method:
    the cells that follow and the shapes are left as they are. *)
Definition replace_placeholders_in_sheet (ws : worksheet) (data_dict : gmap text value)
    : worksheet * nat :=
  match replace_cells data_dict (iter_rows ws) ws 0 with
  | (ws, n, Some _) => (ws, n)
  | (ws, n, None) =>
      match shapes ws with
      | Some (sh :: shs) =>
          let '(shs', n') := foldl (replace_shape data_dict) ([], n) (sh :: shs) in
          (Worksheet (cells ws) (Some shs') (page_setup ws) (page_margins ws), n')
      | _ => (ws, n)
      end
  end.

(** [_apply_page_setup]: [ORIENTATION_PORTRAIT] is ["portrait"], and
    [PAPERSIZE_A4] is ["9"], which the attribute stores as the integer
    9. *)
Definition _apply_page_setup (ws : worksheet) : worksheet :=
  Worksheet (cells ws) (shapes ws)
    (MkPrintPageSetup (Some "portrait"%t) (Some 9%Z) (Some true) (Some 1%Z) (Some 1%Z))
    (MkPageMargins (1 # 2) (1 # 2) (1 # 2) (1 # 2) (3 # 10) (3 # 10)).

(** [create_filled_template]: the outcome and the workbook saved at
    [output_path].  Sheet titles are unique in a workbook, so the loop
    over [wb.sheetnames] visits the sheets themselves. *)
Definition create_filled_template (wb : workbook) (data_dict : gmap text value)
    : fill_result * option workbook :=
  let '(wb', total) :=
    foldl (fun '(done, total) '(name, ws) =>
             let '(ws', replacements) := replace_placeholders_in_sheet ws data_dict in
             (done ++ [(name, _apply_page_setup ws')], total + replacements))
          ([], 0) wb in
  (FillOk total, Some wb').

End TemplateManager.

(** * Nike template manager ([core/template_manager_nike.py]) *)

Module NikeTemplateManager.

(** [\{([^}]+)\}] *)
Definition placeholders_pattern : pat :=
  cat [ lit "{"; Grp 1 (plus (fun c => negb (Ascii.eqb c "}"))); lit "}" ].

Definition _replace_placeholders_in_text (s : text) (data_dict : gmap text value) : text :=
  sub placeholders_pattern (replace_func data_dict) s.

(** Attribute lookup [self.<name>] among the methods of the class that
    take a text and a data dictionary: the class defines
    [_replace_placeholders_in_text] and no other; looking up any other
    name raises [AttributeError]. *)
Definition text_method (name : text) : result (text -> gmap text value -> text) :=
  if decide (name = "_replace_placeholders_in_text"%t)
  then Ok _replace_placeholders_in_text
  else Raise AttributeError.

(** *** Header mapping and row append *)

(** [re.sub(r"[^a-z0-9#]+", " ", str(s).lower()).strip()] *)
Definition header_key (s : value) : text :=
  strip (sub (plus (fun c => negb (is_lower c || is_digit c || Ascii.eqb c "#")))
             (fun _ => " "%t) (lower (py_str s))).

(** The loop that fills [header]; the state is the sheet (reading a cell
    may create it) and the dict. *)
Fixpoint header_loop (header_row : nat) (columns : list nat)
    (ws : worksheet) (header : gmap text nat) : result (worksheet * gmap text nat) :=
  match columns with
  | [] => Ok (ws, header)
  | c :: columns' =>
      '(ws, raw) ← read ws header_row c;
      if bool_decide (raw ≠ VNone) && bool_decide (strip (py_str raw) ≠ [])
      then header_loop header_row columns' ws (<[header_key raw := c]> header)
      else header_loop header_row columns' ws header
  end.

Definition build_header (ws : worksheet) (header_row : nat)
    : result (worksheet * gmap text nat) :=
  header_loop header_row (seq 1 (max_column ws)) ws ∅.

(** The local function [pick]. *)
Fixpoint pick (header : gmap text nat) (aliases : list text) : option nat :=
  match aliases with
  | [] => None
  | a :: aliases' =>
      match header !! a with
      | Some c => Some c
      | None => pick header aliases'
      end
  end.

(** The fields of [cols], each with its aliases and its default column. *)
Definition col_fields : list (text * list text * nat) :=
  [ ("inv", ["invoice number"; "invoice no"; "invoice"], 1);
    ("date", ["date"], 2);
    ("po", ["po"; "po#"; "purchase order"; "purchase order #"], 3);
    ("refpo", ["reference po#"; "reference po #"; "reference po"; "po# reference"], 4);
    ("itemseq", ["item seq"; "item seq."; "item"; "seq"], 5);
    ("material", ["material"], 6);
    ("desc", ["desc"; "description short"; "product desc"], 7);
    ("custship", ["customer ship to #"; "customer ship to"; "ship to #"], 8);
    ("plant", ["plant"], 9);
    ("gross", ["total gross kgs"; "gross kgs"], 10);
    ("cartons", ["total cartons"; "cartons"], 11);
    ("units", ["total units"; "units"], 12);
    ("marks", ["marks"], 13);
    ("description", ["description"], 14);
    ("dest", ["dest"; "destination"], 15) ]%t.

(** [pick] then [ensure] for one field. *)
Definition col_of (header : gmap text nat) (aliases : list text) (default_idx : nat) : nat :=
  match pick header aliases with
  | Some v => if v <? 1 then default_idx else v
  | None => default_idx
  end.

Definition build_header_map_and_get_cols (ws : worksheet) (header_row : nat)
    : result (worksheet * gmap text nat) :=
  '(ws, header) ← build_header ws header_row;
  Ok (ws, list_to_map ((fun '(name, aliases, d) => (name, col_of header aliases d))
                         <$> col_fields)).

(** [re.sub(r"\s+", " ", str(v)).strip().upper()] *)
Definition inv_norm (v : value) : text :=
  upper (strip (sub (plus is_space) (fun _ => " "%t) (py_str v))).

(** The row loop of [find_or_append_row]: [inl r] is [return r] (a row
    with the invoice), [inr first_empty] the end of the loop. *)
Fixpoint find_row (inv_col : nat) (inv_key : text) (rows : list nat) (ws : worksheet)
    : result (worksheet * (nat + option nat)) :=
  match rows with
  | [] => Ok (ws, inr None)
  | r :: rows' =>
      '(ws, v) ← read ws r inv_col;
      if bool_decide (v = VNone) || bool_decide (strip (py_str v) = [])
      then Ok (ws, inr (Some r))
      else if decide (inv_norm v = inv_key) then Ok (ws, inl r)
      else find_row inv_col inv_key rows' ws
  end.

Definition find_or_append_row (ws : worksheet) (inv_col start_row : nat) (invoice : value)
    : result (worksheet * nat) :=
  let inv_key := inv_norm invoice in
  (* range(start_row, ws.max_row + 1) *)
  let rows := seq start_row (S (max_row ws) - start_row) in
  '(ws, found) ← find_row inv_col inv_key rows ws;
  match found with
  | inl r => Ok (ws, r)
  | inr first_empty =>
      let target :=
        match first_empty with
        | Some (S r) => S r
        | _ => if start_row <=? max_row ws then max_row ws + 1 else start_row
        end in
      ws ← write ws target inv_col invoice;
      Ok (ws, target)
  end.

(** [cols[colkey]] *)
Definition col (cols : gmap text nat) (colkey : text) : result nat :=
  match cols !! colkey with
  | Some c => Ok c
  | None => Raise KeyError
  end.

(** The local function [setc] of [fill_excel_row], at row [r]. *)
Definition setc (cols : gmap text nat) (r : nat) (ws : worksheet)
    (colkey : text) (val : value) : result worksheet :=
  if non_empty val
  then c ← col cols colkey; write ws r c val
  else Ok ws.

(** [d.get(k)] *)
Definition dict_get (d : gmap text value) (k : text) : value :=
  default VNone (d !! k).

(** The calls [setc(colkey, pl_row_dict.get(field))], in order. *)
Definition pl_columns : list (text * text) :=
  [ ("date", "Date"); ("po", "PO"); ("refpo", "Reference PO#");
    ("itemseq", "Item Seq."); ("material", "Material"); ("desc", "Desc");
    ("custship", "Customer Ship To #"); ("plant", "Plant");
    ("gross", "Total Gross Kgs"); ("cartons", "Total Cartons");
    ("units", "Total Units"); ("marks", "Marks") ]%t.

(** All the calls of [setc] made by [fill_excel_row], with their
    values: the twelve fields of the packing list, then the destination
    and the description when their conditions hold. *)
Definition setc_calls (pl_row_dict : gmap text value) (asi_desc dest_override : value)
    : list (text * value) :=
  ((fun '(colkey, field) => (colkey, dict_get pl_row_dict field)) <$> pl_columns)
  ++ (if truthy dest_override then [("dest"%t, dest_override)]
      else if truthy (dict_get pl_row_dict "DEST"%t)
           then [("dest"%t, dict_get pl_row_dict "DEST"%t)]
           else [])
  ++ (if truthy asi_desc then [("description"%t, asi_desc)] else []).

Fixpoint setc_all (cols : gmap text nat) (r : nat) (calls : list (text * value))
    (ws : worksheet) : result worksheet :=
  match calls with
  | [] => Ok ws
  | (colkey, val) :: calls' =>
      ws ← setc cols r ws colkey val;
      setc_all cols r calls' ws
  end.

Definition fill_excel_row (ws : worksheet) (cols : gmap text nat) (start_row : nat)
    (inv : value) (pl_row_dict : gmap text value) (asi_desc dest_override : value)
    : result (worksheet * nat) :=
  inv_col ← col cols "inv"%t;
  '(ws, r) ← find_or_append_row ws inv_col start_row inv;
  ws ← setc_all cols r (setc_calls pl_row_dict asi_desc dest_override) ws;
  Ok (ws, r).

(** *** Placeholders *)

(** [sheet_name and sheet_name in wb.sheetnames] *)
Definition names_sheet (wb : workbook) (sheet_name : option text) : option text :=
  match sheet_name with
  | Some (c :: s) => if bool_decide ((c :: s) ∈ sheetnames wb) then Some (c :: s) else None
  | _ => None
  end.

Definition scan_sheet (ws : worksheet) (placeholders : gset text) : gset text :=
  foldl (fun acc '(r, c) =>
           match str_value (cell_value ws r c) with
           | Some s => acc ∪ list_to_set (findall placeholders_pattern s)
           | None => acc
           end) placeholders (iter_rows ws).

(** The sheet loop of [scan_template_placeholders]; an exception ends
    it with what was found so far. *)
Fixpoint scan_sheets (wb : workbook) (sheets_to_scan : list text)
    (placeholders : gset text) : gset text :=
  match sheets_to_scan with
  | [] => placeholders
  | sheet :: sheets' =>
      match get_sheet wb sheet with
      | Ok ws => scan_sheets wb sheets' (scan_sheet ws placeholders)
      | Raise _ => placeholders
      end
  end.

Definition sheets_to_scan (wb : workbook) (sheet_name : option text) : list text :=
  match names_sheet wb sheet_name with
  | Some s => [s]
  | None => sheetnames wb
  end.

Definition scan_template_placeholders (wb : workbook) (sheet_name : option text)
    : list text :=
  sorted_set (scan_sheets wb (sheets_to_scan wb sheet_name) ∅).

(** The cell loop of [replace_placeholders_in_sheet_preserve_format]:
    the sheet, the count, and the exception that ended the loop. *)
Fixpoint preserve_loop (data_dict : gmap text value) (coords : list (nat * nat))
    (ws : worksheet) (replacements_made : nat) : worksheet * nat * option exn :=
  match coords with
  | [] => (ws, replacements_made, None)
  | (r, c) :: coords' =>
      match str_value (cell_value ws r c) with
      | Some old_value =>
          if contains "{"%t old_value
          then match text_method "replace_placeholders_in_text"%t with
               | Raise e => (ws, replacements_made, Some e)
               | Ok f =>
                   let new_value := f old_value data_dict in
                   if decide (old_value ≠ new_value)
                   then match bind_value (VStr new_value) with
                        | Ok v =>
                            preserve_loop data_dict coords'
                              (Worksheet (<[(r, c) := v]> (cells ws)) (shapes ws)
                                         (page_setup ws) (page_margins ws))
                              (S replacements_made)
                        | Raise e => (ws, replacements_made, Some e)
                        end
                   else preserve_loop data_dict coords' ws replacements_made
               end
          else preserve_loop data_dict coords' ws replacements_made
      | None => preserve_loop data_dict coords' ws replacements_made
      end
  end.

(** The exception is logged and the count returned. *)
Definition replace_placeholders_in_sheet_preserve_format (ws : worksheet)
    (data_dict : gmap text value) : worksheet * nat :=
  fst (preserve_loop data_dict (iter_rows ws) ws 0).

Definition sheets_to_process (wb : workbook) (sheet_name : option text) : list text :=
  match names_sheet wb sheet_name with
  | Some s => [s]
  | None => filter (fun s => s ≠ "Data"%t) (sheetnames wb)
  end.

(** The sheet loop of [create_filled_template]. *)
Fixpoint process_sheets (data_dict : gmap text value) (sheets : list text)
    (wb : workbook) (total_replacements : nat) : result (workbook * nat) :=
  match sheets with
  | [] => Ok (wb, total_replacements)
  | sheet :: sheets' =>
      ws ← get_sheet wb sheet;
      let '(ws', replacements) := replace_placeholders_in_sheet_preserve_format ws data_dict in
      process_sheets data_dict sheets' (set_sheet wb sheet ws')
                     (total_replacements + replacements)
  end.

(** [create_filled_template]: the outcome and the workbook saved at
    [output_path] ([None] when nothing was saved). *)
Definition create_filled_template (wb : workbook) (data_dict : gmap text value)
    (sheet_name : option text) : fill_result * option workbook :=
  match process_sheets data_dict (sheets_to_process wb sheet_name) wb 0 with
  | Ok (wb', total_replacements) => (FillOk total_replacements, Some wb')
  | Raise e => (FillError e, None)
  end.

End NikeTemplateManager.

(** * The callers ([core/pdf_processor_nike.py]) *)

(** ** Description and invoice of a booking PDF *)

(** [[A-Z0-9 /&\-]], IGNORECASE *)
Definition desc_char : ascii -> bool :=
  icase (fun c => is_upper c || is_digit c || bool_decide (c ∈ [" "; "/"; "&"; "-"]%char)).

(** [([A-Z][A-Z0-9 /&\-]{2,})], IGNORECASE *)
Definition desc_group : pat :=
  Grp 1 (cat [ Chr (icase is_upper); at_least 2 desc_char ]).

(** [\s+\d+\s+\d+\s+\d+(?:\.\d+)?] *)
Definition desc_amounts : pat :=
  cat [ sp; plus is_digit; sp; plus is_digit; sp; plus is_digit;
        Opt (cat [ lit "."; plus is_digit ]) ].

(** [(?i)\bNIKE\s+\d{7,}(?:-\d+)?\s+([A-Z][A-Z0-9 /&\-]{2,})\s+\d+\s+\d+\s+\d+(?:\.\d+)?] *)
Definition DESC_ROW1 : pat :=
  cat [ WordB; stri "NIKE"; sp; at_least 7 is_digit; Opt (cat [ lit "-"; plus is_digit ]);
        sp; desc_group; desc_amounts ].

(** [(?i)\b\d{7,}(?:-\d+)?\s+([A-Z][A-Z0-9 /&\-]{2,})\s+\d+\s+\d+\s+\d+(?:\.\d+)?] *)
Definition DESC_ROW2 : pat :=
  cat [ WordB; at_least 7 is_digit; Opt (cat [ lit "-"; plus is_digit ]);
        sp; desc_group; desc_amounts ].

(** [(?i)\bDESCRIPTION\s*[:：]?\s*([A-Z][A-Z0-9 /&\-]{2,})]; the full-width
    colon of the class is outside ASCII. *)
Definition DESC_LABEL : pat :=
  cat [ WordB; stri "DESCRIPTION"; sp0; opt1 (Ascii.eqb ":"); sp0; desc_group ].

(** [\bA\d{6,8}[A-Z]?\b], as written and under IGNORECASE. *)
Definition RE_ASI_INVOICE : pat :=
  cat [ WordB; lit "A"; between 6 8 is_digit; opt1 is_upper; WordB ].

Definition RE_ASI_INVOICE_I : pat :=
  cat [ WordB; liti "A"; between 6 8 is_digit; opt1 (icase is_upper); WordB ].

(** [os.path.basename(path)]: what follows the last slash. *)
Definition basename (path : text) : text :=
  reverse (before_first "/" (reverse path)).

(** The body of the page loop of [extract_asi_desc_from_pdf]; the state
    is [(invs, descs)].  (The no-break space that the source replaces by a
    blank is outside ASCII.) *)
Definition page_asi (st : gset text * gset text) (pg : page) : gset text * gset text :=
  let '(invs, descs) := st in
  let txt := default [] (extract_text pg) in
  let invs := invs ∪ list_to_set ((fun mo => upper (group0 mo)) <$> finditer RE_ASI_INVOICE txt) in
  let flat := replace [LF] " " txt in
  let descs :=
    foldl (fun descs rx =>
             foldl (fun descs mo => descs ∪ {[ _clean_desc (g1 mo) ]}) descs (finditer rx flat))
          descs [DESC_ROW1; DESC_ROW2] in
  let descs :=
    foldl (fun descs mo => descs ∪ {[ _clean_desc (g1 mo) ]}) descs (finditer DESC_LABEL txt) in
  (invs, descs).

(** The invoices and the descriptions found on the pages. *)
Definition asi_scan (pages : list page) : gset text * gset text :=
  foldl page_asi (∅, ∅) pages.

Definition priority : list text := [ "SKULL CAP"; "HAT"; "CAP" ].

(** [priority.index(s)] *)
Fixpoint index_of (s : text) (l : list text) (i : nat) : option nat :=
  match l with
  | [] => None
  | x :: l' => if decide (x = s) then Some i else index_of s l' (S i)
  end.

(** [priority.index(s) if s in priority else 99] *)
Definition desc_key (s : text) : nat := default 99 (index_of s priority 0).

(** [sorted(descs, key=...)[0]], on the descriptions in the order in which
    the set yields them. *)
Definition select_desc (descs : list text) : text :=
  default [] (head (sorted (fun a b => desc_key a <=? desc_key b) descs)).

(** [extract_asi_desc_from_pdf].  [set_iter] is the order in which Python
    iterates over a set, which the language leaves open; [pdf] is what
    [pdfplumber.open] gives.  An exception leaves both sets as they are:
    empty, since opening the file is the first step. *)
Definition extract_asi_desc_from_pdf (set_iter : gset text -> list text)
    (pdf_path : text) (pdf : result (list page)) : gset text * text :=
  let '(invs, descs) :=
    match pdf with
    | Raise _ => (∅, ∅)
    | Ok pages =>
        let '(invs, descs) := asi_scan pages in
        let invs :=
          if decide (invs = ∅)
          then match search RE_ASI_INVOICE_I (basename pdf_path) with
               | Some mo => {[ upper (group0 mo) ]}
               | None => invs
               end
          else invs in
        (invs, descs)
    end in
  (invs, if decide (descs = ∅) then [] else select_desc (set_iter descs)).

(** ** The processor class *)

(** [PDFProcessor.process_packing_list] *)
Definition process_packing_list (pdf : result (list page)) : gmap text text :=
  let data := parse_pl pdf in
  match default [] (data !! "Marks") with
  | [] => data
  | marks =>
      match dest_from_marks marks with
      | [] => data
      | dest => <["DEST" := dest]> data
      end
  end.

(** The dict returned by [process_booking]. *)
Record booking := Booking { invoices : list text; DESCRIPTION : text }.

(** [PDFProcessor.process_booking] *)
Definition process_booking (set_iter : gset text -> list text)
    (pdf_path : text) (pdf : result (list page)) : booking :=
  let '(invs, description) := extract_asi_desc_from_pdf set_iter pdf_path pdf in
  Booking (set_iter invs) description.

(** [PDFProcessor.process_invoice]: the texts of the pages are joined
    without a separator; an exception is logged and [{}] returned. *)
Definition process_invoice (pdf : result (list page)) : gmap text text :=
  match pdf with
  | Raise _ => ∅
  | Ok pages =>
      let txt := concat ((fun pg => default [] (extract_text pg)) <$> pages) in
      let result : gmap text text := ∅ in
      let result := match search RE_INVOICE txt with
                    | Some mo => <["Invoice Number" := norm (g1 mo)]> result
                    | None => result
                    end in
      let mo := match search RE_DATE_NUM txt with
                | Some mo => Some mo
                | None => search RE_DATE_TEXT txt
                end in
      match mo with
      | Some mo => <["Date" := to_dmy (g1 mo)]> result
      | None => result
      end
  end.

(** What [process_pdf_file] returns: the dict of one of the three
    processors. *)
Inductive pdf_data :=
| PackingList (data : gmap text text)
| BookingData (data : booking)
| InvoiceData (data : gmap text text).

(** The file type read off the file name. *)
Definition detect_type (file_path : text) : text :=
  let filename := lower (basename file_path) in
  if contains "pl" filename || contains "packing" filename then "pl"
  else if contains "booking" filename || contains "asi" filename then "booking"
  else "invoice".

(** [process_pdf_file] *)
Definition process_pdf_file (set_iter : gset text -> list text)
    (file_path file_type : text) (pdf : result (list page)) : result pdf_data :=
  let file_type := if decide (file_type = "auto") then detect_type file_path else file_type in
  if decide (file_type = "pl") then Ok (PackingList (process_packing_list pdf))
  else if decide (file_type = "booking")
       then Ok (BookingData (process_booking set_iter file_path pdf))
  else if decide (file_type = "invoice") then Ok (InvoiceData (process_invoice pdf))
  else Raise ValueError.

(** * Further methods of the Nike template manager
    ([core/template_manager_nike.py]) *)

Module NikeFill.

Import NikeTemplateManager.

(** The cell loop of [replace_placeholders_in_sheet]: the sheet, the
    count, and the exception that ended the loop, raised by the assignment
    of a cell value. *)
Fixpoint replace_cells (data_dict : gmap text value) (coords : list (nat * nat))
    (ws : worksheet) (replacements_made : nat) : worksheet * nat * option exn :=
  match coords with
  | [] => (ws, replacements_made, None)
  | (r, c) :: coords' =>
      match str_value (cell_value ws r c) with
      | Some original_value =>
          let new_value := _replace_placeholders_in_text original_value data_dict in
          if decide (new_value ≠ original_value)
          then match bind_value (VStr new_value) with
               | Ok v =>
                   replace_cells data_dict coords'
                     (Worksheet (<[(r, c) := v]> (cells ws)) (shapes ws)
                                (page_setup ws) (page_margins ws))
                     (S replacements_made)
               | Raise e => (ws, replacements_made, Some e)
               end
          else replace_cells data_dict coords' ws replacements_made
      | None => replace_cells data_dict coords' ws replacements_made
      end
  end.

(** [replace_placeholders_in_sheet]: the sheet after the loop and the
    number of cells replaced; an exception is logged. *)
Definition replace_placeholders_in_sheet (ws : worksheet) (data_dict : gmap text value)
    : worksheet * nat :=
  fst (replace_cells data_dict (iter_rows ws) ws 0).

(** [fill_template]: the workbook saved at the output path, or the
    exception from which the [Exception] that leaves the method is built. *)
Definition fill_template (wb : workbook) (sheet_name : text) (data_dict : gmap text value)
    : result workbook :=
  if bool_decide (sheet_name ∉ sheetnames wb) then Raise ValueError
  else
    ws ← get_sheet wb sheet_name;
    let '(ws', replacements) := replace_placeholders_in_sheet ws data_dict in
    Ok (set_sheet wb sheet_name ws').

(** The dict [invoice_data]: each of its three entries may be missing. *)
Record invoice_data := InvoiceRecord {
  invoice_number : option value;
  pl_data : option (gmap text value);
  booking_data : option (gmap text value) }.

(** The outcome of [process_nike_data]: [DataFilled r] is the pair
    [(True, "Data filled in row r")], [DataError e] the pair
    [(False, message)] built from the exception [e]. *)
Inductive nike_outcome :=
| DataFilled (row_num : nat)
| DataError (e : exn).

(** [process_nike_data]: the outcome and the workbook saved at
    [output_path] ([None] when nothing was saved).  [start_row - 1] is
    taken on natural numbers: row 0 and row -1 are refused alike by
    [ws.cell]. *)
Definition process_nike_data (wb : workbook) (data : invoice_data)
    (sheet_name : text) (start_row : nat) : nike_outcome * option workbook :=
  let run : result (workbook * nat) :=
    if bool_decide (sheet_name ∉ sheetnames wb) then Raise ValueError
    else
      ws ← get_sheet wb sheet_name;
      let header_row := start_row - 1 in
      '(ws, cols) ← build_header_map_and_get_cols ws header_row;
      let number := default (VStr []) (invoice_number data) in
      let pl := default ∅ (pl_data data) in
      let booking := default ∅ (booking_data data) in
      let asi_desc := default (VStr []) (booking !! "DESCRIPTION") in
      '(ws, row_num) ← fill_excel_row ws cols start_row number pl asi_desc VNone;
      Ok (set_sheet wb sheet_name ws, row_num) in
  match run with
  | Ok (wb', row_num) => (DataFilled row_num, Some wb')
  | Raise e => (DataError e, None)
  end.

End NikeFill.

(** * Specification vocabulary *)

(** * Notions used by the statements *)

(** ** Matcher *)

(** The cursor after reading [w]. *)
Definition steps (w : text) (s : cur) : cur := foldl (fun s c => step c s) s w.

(** [sub] as one pass over the subject: a character outside a match is
    copied, a match is replaced and its characters passed. *)
Fixpoint sub_go (r : pat) (repl : mobj -> text) (skip : nat) (s : cur) (l : text)
    {struct l} : text :=
  match skip with
  | S n =>
      match l with
      | c :: l' => sub_go r repl n (step c s) l'
      | [] => []
      end
  | O =>
      match match_at r s l with
      | Some (e, _) =>
          repl (mk_mobj s l e) ++
          match l with
          | c :: l' =>
              (if pos e - pos s is O then [c] else []) ++
              sub_go r repl (pred (pos e - pos s)) (step c s) l'
          | [] => []
          end
      | None =>
          match l with
          | c :: l' => c :: sub_go r repl 0 (step c s) l'
          | [] => []
          end
      end
  end.

(** [w] occurs in [t] as a contiguous piece. *)
Definition occurs (w t : text) : Prop := exists a b, t = a ++ w ++ b.

(** ** Lines *)

Definition rnd (w : word) : Z := py_round (top w).

(** Every word of the first line is at or above every word of the second. *)
Definition line_le (la lb : list word) : Prop :=
  forall a b, a ∈ la -> b ∈ lb -> (rnd a <= rnd b)%Z.

(** ** Placeholders *)

(** The two placeholder patterns: an opening character, a non-empty name
    free of the closing character (group 1), the closing character. *)
Definition ph_pattern (o c : ascii) : pat :=
  cat [ lit o; Grp 1 (plus (fun x => negb (Ascii.eqb x c))); lit c ].

(** The longest prefix whose characters satisfy [p], and the rest. *)
Fixpoint run (p : ascii -> bool) (l : text) : text * text :=
  match l with
  | x :: l' => if p x then let '(w, r) := run p l' in (x :: w, r) else ([], l)
  | [] => ([], [])
  end.

(** A placeholder at the head of [l]: its name and the text after it. *)
Definition ph_head (o c : ascii) (l : text) : option (text * text) :=
  match l with
  | a :: l1 =>
      if Ascii.eqb o a
      then match run (fun x => negb (Ascii.eqb x c)) l1 with
           | (x :: name, _ :: l2) => Some (x :: name, l2)
           | _ => None
           end
      else None
  | [] => None
  end.

(** A text cut into literal pieces and placeholders. *)
Inductive segment := Lit (s : text) | Placeholder (name : text).

(** The piece as it stands in the text. *)
Definition seg_source (o c : ascii) (sg : segment) : text :=
  match sg with
  | Lit s => s
  | Placeholder name => o :: name ++ [c]
  end.

(** The piece after the fill: a placeholder becomes the string form of its
    value when the data have one, and stays as it is otherwise. *)
Definition seg_filled (o c : ascii) (data_dict : gmap text value) (sg : segment) : text :=
  match sg with
  | Lit s => s
  | Placeholder name =>
      match data_dict !! name with
      | Some v => py_str v
      | None => o :: name ++ [c]
      end
  end.

Definition seg_name (sg : segment) : option text :=
  match sg with
  | Lit _ => None
  | Placeholder name => Some name
  end.

(** No placeholder starts anywhere in [l]. *)
Definition no_ph (o c : ascii) (l : text) : Prop :=
  forall a b, l = a ++ b -> ph_head o c b = None.

(** The fill of a text in the words of the specification, for the
    delimiters [o] and [c]: the text is read from left to right; where a
    placeholder stands (the opening delimiter, a non-empty name free of the
    closing delimiter, the closing delimiter) it is replaced by the string
    form of the value that the data give to its name, and kept as it is
    when they give none, and the reading goes on after it; any other
    character is copied. *)
Definition fills_tokens (o c : ascii) (data_dict : gmap text value) (fill : text -> text)
    : Prop :=
  fill [] = []
  /\ (forall name rest : text, name <> [] -> c ∉ name ->
        fill (o :: name ++ c :: rest)
        = match data_dict !! name with
          | Some v => py_str v
          | None => o :: name ++ [c]
          end ++ fill rest)
  /\ (forall (x : ascii) (l : text),
        (forall name rest : text, name <> [] -> c ∉ name -> x :: l <> o :: name ++ c :: rest) ->
        fill (x :: l) = x :: fill l).

(** Every placeholder found from cursor [s] on has a value whose string
    form is free of the opening character. *)
Definition covered_from (o c : ascii) (data_dict : gmap text value) (s : cur) (l : text)
    : Prop :=
  forall name : text, name ∈ g1 <$> scan (ph_pattern o c) 0 s l ->
    exists v, data_dict !! name = Some v /\ o ∉ py_str v.

(** ** Square-bracket templates *)

Definition fill_text (data_dict : gmap text value) (s : text) : text :=
  TemplateManager._replace_placeholders_in_text s data_dict.

(** Every placeholder of [s] has a value whose string form holds no
    opening bracket. *)
Definition text_covered (data_dict : gmap text value) (s : text) : Prop :=
  forall name : text, name ∈ findall TemplateManager.placeholders_pattern s ->
    exists v, data_dict !! name = Some v /\ "["%char ∉ py_str v.

Definition text_clean (s : text) : Prop := no_ph "[" "]" s.

Definition value_clean (v : value) : Prop :=
  forall s, str_value v = Some s -> text_clean s.

Definition value_covered (data_dict : gmap text value) (v : value) : Prop :=
  forall s, str_value v = Some s -> text_covered data_dict s.

Definition fill_shape (data_dict : gmap text value) (shape : option text) : option text :=
  match shape with
  | Some (x :: s) => Some (fill_text data_dict (x :: s))
  | _ => shape
  end.

Definition sheet_covered (data_dict : gmap text value) (ws : worksheet) : Prop :=
  (forall r c, (r, c) ∈ iter_rows ws -> value_covered data_dict (cell_value ws r c))
  /\ (forall s, s ∈ TemplateManager.shape_texts ws -> text_covered data_dict s).

Definition sheet_clean (ws : worksheet) : Prop :=
  (forall r c, (r, c) ∈ iter_rows ws -> value_clean (cell_value ws r c))
  /\ (forall s, s ∈ TemplateManager.shape_texts ws -> text_clean s).

(** ** Filling cells *)

(** A text that a cell takes: none of its first 32767 characters is a
    control character that openpyxl refuses. *)
Definition writable (s : text) : Prop :=
  existsb illegal_character (slice_to 32767 s) = false.

#[global] Instance writable_dec s : Decision (writable s).
Proof. unfold writable. apply _. Defined.

(** A text without a character that openpyxl refuses. *)
Definition legal_text (s : text) : Prop := Forall (fun c => illegal_character c = false) s.

(** A cell value after a fill that maps the text [s] to [f s]: a non-empty
    string that the fill changes is replaced by its filled text, cut at
    32767 characters; any other value stays. *)
Definition fill_value_with (f : text -> text) (v : value) : value :=
  match str_value v with
  | Some s => if decide (f s = s) then v else VStr (slice_to 32767 (f s))
  | None => v
  end.

(** The cell loop of both template managers, for the fill [f] of a text:
    the sheet, the count, and the exception that ended the loop. *)
Fixpoint fill_cells_with (f : text -> text) (coords : list (nat * nat))
    (ws : worksheet) (n : nat) : worksheet * nat * option exn :=
  match coords with
  | [] => (ws, n, None)
  | (r, c) :: coords' =>
      match str_value (cell_value ws r c) with
      | Some s =>
          if decide (f s ≠ s)
          then match bind_value (VStr (f s)) with
               | Ok v =>
                   fill_cells_with f coords'
                     (Worksheet (<[(r, c) := v]> (cells ws)) (shapes ws)
                                (page_setup ws) (page_margins ws))
                     (S n)
               | Raise e => (ws, n, Some e)
               end
          else fill_cells_with f coords' ws n
      | None => fill_cells_with f coords' ws n
      end
  end.

(** The cell at [rc] holds a text that the fill [f] changes into one that
    the cell refuses. *)
Definition refused_at (f : text -> text) (ws : worksheet) (rc : nat * nat) : Prop :=
  match str_value (cell_value ws rc.1 rc.2) with
  | Some s => f s <> s /\ ~ writable (f s)
  | None => False
  end.

#[global] Instance refused_at_dec f ws rc : Decision (refused_at f ws rc).
Proof. unfold refused_at. destruct (str_value _); apply _. Defined.

(** ** Destination *)

(** The pattern of a country name matches the text [pre]. *)
Definition matches (pre name : text) : Prop := is_match (name_pat name) pre = true.

#[global] Instance matches_dec pre name : Decision (matches pre name).
Proof. unfold matches. apply _. Defined.

(** ** Header row *)

(** The cell of column [c] in the header row is not empty and its text
    normalizes to [key]. *)
Definition header_cell (ws : worksheet) (header_row : nat) (key : text) (c : nat) : Prop :=
  cell_value ws header_row c <> VNone
  /\ strip (py_str (cell_value ws header_row c)) <> []
  /\ NikeTemplateManager.header_key (cell_value ws header_row c) = key.

#[global] Instance header_cell_dec ws header_row key c :
  Decision (header_cell ws header_row key c).
Proof. unfold header_cell. apply _. Defined.

(** ** Pages *)

(** The text and the marks of a page. *)
Definition page_txt (pg : page) : text := default [] (extract_text pg).

Definition marks_text (pg : page) : text :=
  match extract_marks pg with
  | Ok mk => mk
  | Raise _ => []
  end.

(** The body of the page loop when [extract_marks] returns. *)
Definition page_step (st : pl_state) (pg : page) : pl_state :=
  let st1 := page_text_fields pg st in
  match marks_text pg with
  | [] => st1
  | mk => PlState (<["Marks" := norm mk]> (row st1)) (refpo_hits st1)
                  (po_hits st1 ++ findall RE_PO_ANY mk)
  end.

(** The record after the text rules of a page. *)
Definition page_fields (pg : page) (r : gmap text text) : gmap text text :=
  row (page_text_fields pg (PlState r [] [])).

(** The candidates of a document, in the order of discovery. *)
Definition refpo_candidates (pages : list page) : list text :=
  pages ≫= fun pg => findall RE_REFPO (page_txt pg).

Definition po_candidates (pages : list page) : list text :=
  pages ≫= fun pg => findall RE_PO_ANY (page_txt pg) ++ findall RE_PO_ANY (marks_text pg).






(** ** Sample inputs *)

(** The value of a computation that returns, [d] for one that raises. *)
Definition ok_or {A} (d : A) (x : result A) : A :=
  match x with
  | Ok a => a
  | Raise _ => d
  end.




Definition marks_ex : text := "NIKE Vietnam 1234567 Canada Country Of Origin : Vietnam".

(** A sheet with the given cells, no shapes, and the page setup of a new
    sheet. *)
Definition new_sheet (cs : gmap (nat * nat) value) : worksheet :=
  Worksheet cs None new_page_setup new_page_margins.

(** A workbook with one sheet and one cell, A1. *)
Definition one_cell_workbook (s : text) : workbook :=
  [("Sheet1", new_sheet {[ (1, 1) := VStr s ]})].

Definition data_sq : gmap text value := {[ "A" := VStr "see [B]" ]}.

(** A value that ends with the control character of code 0. *)
Definition data_ctl : gmap text value :=
  {[ "B" := VStr ("b" ++ [ascii_of_nat 0]); "C" := VStr "c" ]}.

(** A workbook with one sheet and two cells, A1 and B1. *)
Definition two_cell_workbook (s1 s2 : text) : workbook :=
  [("Sheet1", new_sheet {[ (1, 1) := VStr s1; (1, 2) := VStr s2 ]})].

Definition data_cu : gmap text value := {[ "A" := VStr "x" ]}.

Definition data_ok : gmap text value :=
  {[ "Invoice Number" := VStr "A1234567"; "Total Cartons" := VInt 12 ]}.

Definition form_and_data : workbook :=
  [ ("Form", new_sheet {[ (1, 1) := VStr "{Invoice Number}" ]});
    ("Data", new_sheet {[ (1, 1) := VStr "{Date}" ]}) ].

(** A sheet whose header row 7 reads "Invoice", "PO", "po" and whose row 8
    holds an invoice and a date. *)
Definition data_sheet : worksheet :=
  new_sheet (list_to_map
    [ ((7, 1), VStr "Invoice"); ((7, 2), VStr "PO"); ((7, 3), VStr "po");
      ((8, 1), VStr "A1234567"); ((8, 2), VStr "01/01/2024") ]).

(** A sheet whose header row 7 reads "Invoice" and "PO": the date has no
    header and takes its default column 2, the column of "PO". *)
Definition po_sheet : worksheet :=
  new_sheet (list_to_map
    [ ((7, 1), VStr "Invoice"); ((7, 2), VStr "PO");
      ((8, 1), VStr "A1234567"); ((8, 2), VStr "01/01/2024") ]).

(** The header dict of [data_sheet]. *)
Definition data_sheet_header : worksheet * gmap text nat :=
  ok_or (data_sheet, ∅) (NikeTemplateManager.build_header data_sheet 7).

(** A column map in which the date and the PO have columns of their own. *)
Definition cols_example : gmap text nat :=
  list_to_map
    [ ("inv", 1); ("date", 2); ("po", 3); ("refpo", 4); ("itemseq", 5); ("material", 6);
      ("desc", 7); ("custship", 8); ("plant", 9); ("gross", 10); ("cartons", 11);
      ("units", 12); ("marks", 13); ("description", 14); ("dest", 15) ].

(** A record with an empty date and a PO. *)
Definition pl_example : gmap text value :=
  list_to_map [ ("Date", VStr []); ("PO", VStr "7654321") ].

(** [data_sheet] after the record [pl_example] was written for the invoice
    of its row 8. *)
Definition data_sheet_filled : worksheet * nat :=
  ok_or (data_sheet, 0)
    (NikeTemplateManager.fill_excel_row data_sheet cols_example 8 (VStr "A1234567")
       pl_example VNone VNone).

(** ** Runs of a character class *)

(** [re.sub(r"[class]+", " ", l)] as one pass: each maximal run of
    characters of the class [p] becomes one blank.  [in_run]: the character
    before was of the class. *)
Fixpoint squeeze_go (p : ascii -> bool) (in_run : bool) (l : text) : text :=
  match l with
  | [] => []
  | c :: l' =>
      if p c
      then if in_run then squeeze_go p true l' else " "%char :: squeeze_go p true l'
      else c :: squeeze_go p false l'
  end.

Definition squeeze (p : ascii -> bool) (l : text) : text := squeeze_go p false l.

(** ** Rows of the data sheet *)

(** A cell that ends the search for a free row: [v is None or
    str(v).strip()] is empty. *)
Definition blank (v : value) : Prop := v = VNone \/ strip (py_str v) = [].

#[global] Instance blank_dec v : Decision (blank v).
Proof. unfold blank. apply _. Defined.

(** A row that holds another invoice: its cell in the invoice column is
    not blank and does not normalize to [inv_key]. *)
Definition other_invoice (ws : worksheet) (inv_col : nat) (inv_key : text) (r : nat) : Prop :=
  ~ blank (cell_value ws r inv_col)
  /\ NikeTemplateManager.inv_norm (cell_value ws r inv_col) <> inv_key.

(** The value as a cell stores it: a string is cut at 32767 characters. *)
Definition stored (v : value) : value :=
  match v with
  | VStr s => VStr (slice_to 32767 s)
  | _ => v
  end.

(** A value that a cell takes: not a string with a control character among
    its first 32767 characters. *)
Definition accepted (v : value) : Prop :=
  match v with
  | VStr s => writable s
  | _ => True
  end.

#[global] Instance accepted_dec v : Decision (accepted v).
Proof. destruct v; apply _. Defined.

(** The value that the calls of [setc] leave in column [c]: that of the
    last call with a non-empty value whose field has this column, as the
    cell stores it. *)
Definition written (cols : gmap text nat) (calls : list (text * value)) (c : nat)
    : option value :=
  last (omap (fun '(colkey, val) =>
                if non_empty val && bool_decide (cols !! colkey = Some c)
                then Some (stored val) else None) calls).

(** ** Sample inputs, continued *)

(** [data_sheet] after a row was found for a second invoice. *)
Definition data_sheet_appended : worksheet * nat :=
  ok_or (data_sheet, 0)
    (NikeTemplateManager.find_or_append_row data_sheet 1 8 (VStr "B7654321")).

(** The columns of [data_sheet]. *)
Definition data_sheet_cols : worksheet * gmap text nat :=
  ok_or (data_sheet, ∅) (NikeTemplateManager.build_header_map_and_get_cols data_sheet 7).

(** An invoice with a packing-list record and no booking. *)
Definition invoice_example : NikeFill.invoice_data :=
  NikeFill.InvoiceRecord (Some (VStr "A1234567")) (Some pl_example) None.

(** ** The record of a packing list *)

(** The keys of the record that [parse_pl] returns. *)
Definition pl_keys : list text :=
  [ "Invoice Number"; "Date"; "PO"; "Reference PO#"; "Item Seq."; "Material"; "Desc";
    "Customer Ship To #"; "Plant"; "Total Gross Kgs"; "Total Cartons"; "Total Units";
    "Marks" ].

(** A number of [n] digits or more. *)
Definition digits_at_least (n : nat) (v : text) : Prop :=
  Forall (fun c => is_digit c = true) v /\ n <= length v.

(** ** Sample inputs for the booking *)

(** A booking page with a table row and a description label. *)
Definition booking_page : page :=
  text_page "Booking A1234567 NIKE 1234567-10 DRI FIT HAT 12 3 4.5 DESCRIPTION: skull cap 12PCS".

(** ** Lines, continued *)

(** The topmost token of a line, and the line within [tol] below it. *)
Definition anchor (tol : Z) (line : list word) (a : word) : Prop :=
  a ∈ line /\ forall b, b ∈ line -> (rnd a <= rnd b <= rnd a + tol)%Z.

(** The token [b] lies more than [tol] below the topmost token of [line]. *)
Definition below (tol : Z) (line : list word) (b : word) : Prop :=
  exists a, anchor tol line a /\ (rnd a + tol < rnd b)%Z.

(** The state of the loop: the lines closed so far have an anchor and lie
    apart; the tokens still to come lie below them. *)
Definition loop_inv (tol : Z) (ws : list word) (lines : list (list word)) (cur : list word)
    (cy : option Z) : Prop :=
  match cy with
  | None => cur = []
  | Some c => (exists a, anchor tol cur a /\ rnd a = c) /\ (forall b, b ∈ ws -> (c <= rnd b)%Z)
  end
  /\ Forall (fun la => (exists a, anchor tol la a)
                       /\ forall b, b ∈ cur ++ ws -> below tol la b) lines
  /\ StronglySorted (fun la lb => forall b, b ∈ lb -> below tol la b) lines.

(** Three words on two lines. *)
Definition words_example : list word :=
  [ Word "b" 50 60 101 110; Word "c" 10 20 120 130; Word "a" 10 20 100 110 ].

(** ** Filling cells *)

(** The fill of the Nike manager on a text. *)
Definition nike_fill_text (data_dict : gmap text value) (s : text) : text :=
  NikeTemplateManager._replace_placeholders_in_text s data_dict.

(** Strict order of strings. *)
Definition text_lt (a b : text) : Prop := text_le a b = true /\ a <> b.

(** A form with two placeholders and a number. *)
Definition form_sheet : worksheet :=
  new_sheet (list_to_map
    [ ((1, 1), VStr "Invoice {Invoice Number}"); ((1, 2), VInt 12);
      ((2, 1), VStr "Cartons: {Total Cartons}") ]).

Definition form_workbook : workbook := [ ("Form", form_sheet); ("Data", data_sheet) ].




(** Membership in a list of literal keys, by evaluation. *)
Ltac pl_key := apply (bool_decide_unpack _); by vm_compute.

(** ** What a pattern matches *)

(** [matched r s w s']: from the cursor [s] the pattern [r] can read the
    text [w] and leave the cursor [s'], with the groups it captured.  The
    conditions of the assertions are left out. *)
Fixpoint matched (r : pat) (s : cur) (w : text) (s' : cur) : Prop :=
  match r with
  | Chr p => exists c, w = [c] /\ p c = true /\ s' = step c s
  | Seq r1 r2 =>
      exists w1 w2 s1, w = w1 ++ w2 /\ matched r1 s w1 s1 /\ matched r2 s1 w2 s'
  | Alt r1 r2 => matched r1 s w s' \/ matched r2 s w s'
  | Rep _ p lo hi =>
      Forall (fun c => p c = true) w /\ lo <= length w
      /\ (forall h, hi = Some h -> length w <= h) /\ s' = steps w s
  | Grp n r' => exists s1, matched r' s w s1 /\ s' = set_grp n w s1
  | Eps | Ahead _ | WordB | Bol | Eol | EndZ => w = [] /\ s' = s
  end.

(** ** Dates *)

(** A date of the calendar with a year of at most four digits. *)
Definition valid_date (dt : date) : Prop :=
  1 <= month dt <= 12
  /\ 1 <= day dt <= days_in_month (year dt) (month dt)
  /\ (1 <= Z.of_nat (year dt) <= 9999)%Z.

(** * Worked examples *)

Example re_search_ex :
  g1 <$> search (cat [stri "po"; star is_space; lit ":"; star is_space; Grp 1 (plus is_digit)])
    "x PO : 123 y"%t = Some "123"%t.
Proof. reflexivity. Qed.

Example re_sub_ex :
  sub (plus is_space) (fun _ => " "%t) "a  b   c"%t = "a b c"%t.
Proof. reflexivity. Qed.

Example to_dmy_ex1 : to_dmy "5/3/2024"%t = "05/03/2024"%t.
Proof. reflexivity. Qed.

Example to_dmy_ex2 : to_dmy "August 20, 2025"%t = "20/08/2025"%t.
Proof. reflexivity. Qed.

Example to_dmy_ex3 : to_dmy "31/02/2024"%t = "31/02/2024"%t.
Proof. reflexivity. Qed.

Example to_dmy_ex4 : to_dmy "August 20 , 2025"%t = "20/08/2025"%t.
Proof. reflexivity. Qed.

Example dest_from_marks_ex :
  dest_from_marks "MARKS NIKE 1234567 Country Of Origin : Vietnam"%t = []
  /\ dest_from_marks "NIKE Vietnam 1234567 Canada Country Of Origin : Vietnam"%t = "Vietnam"%t
  /\ dest_from_marks "NIKE 1234567 south korea"%t = "Korea"%t
  /\ dest_from_marks "Ship to Viet Nam"%t = "Vietnam"%t.
Proof. vm_compute. done. Qed.

Example parse_pl_ex :
  let r := parse_pl (Ok [text_page "Invoice Number: A1234567 Date: 5/3/2024 PO: 7654321 Reference PO#: 1234567 Plant: 1010 Desc: SKULL CAP Total Gross Kgs: 12.5"]) in
  (r !! "Invoice Number"%t, r !! "Date"%t, r !! "PO"%t, r !! "Reference PO#"%t,
   r !! "Plant"%t, r !! "Desc"%t, r !! "Total Gross Kgs"%t, r !! "Marks"%t)
  = (Some "A1234567"%t, Some "05/03/2024"%t, Some "7654321"%t, Some "1234567"%t,
     Some "1010"%t, Some "SKULL CAP"%t, Some "12.5"%t, Some []).
Proof. vm_compute. done. Qed.

Example clean_desc_ex :
  _clean_desc "Nike 12PCS skull-cap  (black) 3"%t = "SKULL CAP"%t
  /\ _clean_desc "dri-fit beanie 24"%t = "BEANIE"%t
  /\ _clean_desc "running socks 6PK"%t = "RUNNING SOCKS"%t.
Proof. vm_compute. done. Qed.

(** * Sorting *)

Section Sorting.
Context {A : Type} (le : A -> A -> bool).

Lemma insert_by_perm a l : insert_by le a l ≡ₚ a :: l.
Proof.
  induction l as [|b l IH]; simpl; [done|].
  destruct (le a b); [done|].
  rewrite IH. apply Permutation_swap.
Qed.

Lemma sorted_perm l : sorted le l ≡ₚ l.
Proof.
  induction l as [|a l IH]; simpl; [done|].
  unfold sorted in *. simpl. rewrite insert_by_perm. by f_equiv.
Qed.

Hypothesis le_total : forall a b, le a b = false -> le b a = true.
Hypothesis le_trans : forall a b c, le a b = true -> le b c = true -> le a c = true.

Lemma insert_by_sorted a l :
  StronglySorted (fun x y => le x y = true) l ->
  StronglySorted (fun x y => le x y = true) (insert_by le a l).
Proof.
  induction 1 as [|b l Hs IH Hb]; simpl.
  - repeat constructor.
  - destruct (le a b) eqn:E.
    + constructor; [by constructor|].
      constructor; [done|].
      eapply Forall_impl; [exact Hb|]. intros c Hc. eauto.
    + constructor; [done|].
      rewrite insert_by_perm. constructor; [auto|done].
Qed.

Lemma sorted_sorted l : StronglySorted (fun x y => le x y = true) (sorted le l).
Proof.
  induction l as [|a l IH]; [constructor|].
  unfold sorted in *. simpl. by apply insert_by_sorted.
Qed.
End Sorting.

Arguments sorted : simpl never.

Lemma Qle_bool_total a b : Qle_bool a b = false -> Qle_bool b a = true.
Proof.
  intros H. apply Qle_bool_iff. destruct (Qlt_le_dec b a) as [?|H']; [by apply Qlt_le_weak|].
  apply Qle_bool_iff in H'. congruence.
Qed.

Lemma Qle_bool_trans a b c : Qle_bool a b = true -> Qle_bool b c = true -> Qle_bool a c = true.
Proof. rewrite !Qle_bool_iff. apply Qle_trans. Qed.

Lemma x0_le_total a b : x0_le a b = false -> x0_le b a = true.
Proof. apply Qle_bool_total. Qed.

Lemma x0_le_trans a b c : x0_le a b = true -> x0_le b c = true -> x0_le a c = true.
Proof. apply Qle_bool_trans. Qed.

Lemma key_le_total a b : key_le a b = false -> key_le b a = true.
Proof.
  unfold key_le. intros H.
  apply orb_false_iff in H as [H1 H2].
  apply Z.ltb_ge in H1.
  destruct (Z.eqb_spec (py_round (top a)) (py_round (top b))) as [E|E].
  - rewrite E, Z.eqb_refl. simpl in H2. rewrite (Qle_bool_total _ _ H2).
    by rewrite orb_true_r.
  - assert (py_round (top b) < py_round (top a))%Z as ->%Z.ltb_lt by lia. done.
Qed.

Lemma key_le_trans a b c : key_le a b = true -> key_le b c = true -> key_le a c = true.
Proof.
  unfold key_le. intros H1 H2.
  apply orb_true_iff in H1 as [H1%Z.ltb_lt|[H1%Z.eqb_eq H1']%andb_true_iff];
  apply orb_true_iff in H2 as [H2%Z.ltb_lt|[H2%Z.eqb_eq H2']%andb_true_iff];
  apply orb_true_iff.
  - left. apply Z.ltb_lt. lia.
  - left. apply Z.ltb_lt. lia.
  - left. apply Z.ltb_lt. lia.
  - right. apply andb_true_iff. split; [apply Z.eqb_eq; lia|].
    eapply Qle_bool_trans; eauto.
Qed.

Lemma key_le_round a b : key_le a b = true -> (py_round (top a) <= py_round (top b))%Z.
Proof.
  unfold key_le. intros [H%Z.ltb_lt|[H%Z.eqb_eq _]%andb_true_iff]%orb_true_iff; lia.
Qed.

(** * Line grouper *)

Lemma StronglySorted_lookup {A} (R : A -> A -> Prop) (l : list A) i j x y :
  StronglySorted R l -> i < j -> l !! i = Some x -> l !! j = Some y -> R x y.
Proof.
  intros Hs. revert i j. induction Hs as [|a l Hs IH Ha]; intros i j Hij Hi Hj; [done|].
  destruct j as [|j]; [lia|]. simpl in Hj.
  destruct i as [|i]; simpl in Hi.
  - injection Hi as ->. rewrite Forall_forall in Ha. apply Ha.
    eapply list_elem_of_lookup_2; eauto.
  - eapply IH; [|done..]. lia.
Qed.

Lemma elem_of_concat {A} (x : A) (ls : list (list A)) :
  x ∈ concat ls <-> exists l, l ∈ ls /\ x ∈ l.
Proof.
  induction ls as [|l ls IH]; simpl.
  - split; [by intros ?%elem_of_nil|by intros (l & ?%elem_of_nil & _)].
  - rewrite elem_of_app, IH. split.
    + intros [H|(l' & H1 & H2)]; [exists l|exists l']; (split; [|done]).
      * by left.
      * by right.
    + intros (l' & [->|H1]%elem_of_cons & H2); [by left|right; eauto].
Qed.

Lemma line_le_perm la la' lb lb' :
  la ≡ₚ la' -> lb ≡ₚ lb' -> line_le la lb -> line_le la' lb'.
Proof. intros Ha Hb H a b. rewrite <- Ha, <- Hb. apply H. Qed.

Lemma lines_snoc_sorted (lines : list (list word)) cur cur' :
  (forall a, a ∈ cur' -> a ∈ cur) ->
  StronglySorted line_le (lines ++ [cur]) ->
  StronglySorted line_le (lines ++ [cur']).
Proof.
  intros Hsub. rewrite !StronglySorted_app. intros (H1 & H2 & H3).
  split; [|split; [done|repeat constructor]].
  intros la lb Hla ->%list_elem_of_singleton a b Ha Hb.
  apply (H1 la cur); [done|set_solver|done|auto].
Qed.

Lemma group_loop_perm tol ws lines cur cy lines' cur' :
  group_loop tol ws lines cur cy = (lines', cur') ->
  concat lines' ++ cur' ≡ₚ concat lines ++ cur ++ ws.
Proof.
  revert lines cur cy. induction ws as [|w ws IH]; intros lines cur cy; simpl.
  - intros [= <- <-]. by rewrite app_nil_r.
  - destruct cy as [cy|].
    + destruct (Z.abs _ <=? tol)%Z.
      * intros ->%IH. by rewrite <- (assoc_L (++) cur).
      * intros ->%IH. rewrite concat_app. simpl.
        rewrite app_nil_r, sorted_perm, <- !(assoc_L (++)). done.
    + intros ->%IH. by rewrite <- (assoc_L (++) cur).
Qed.

Lemma group_loop_lines_sorted tol ws lines cur cy lines' cur' :
  group_loop tol ws lines cur cy = (lines', cur') ->
  Forall (StronglySorted (fun a b => x0_le a b = true)) lines ->
  Forall (StronglySorted (fun a b => x0_le a b = true)) lines'.
Proof.
  revert lines cur cy. induction ws as [|w ws IH]; intros lines cur cy; simpl.
  - by intros [= <- <-].
  - destruct cy as [cy|]; [destruct (Z.abs _ <=? tol)%Z|]; intros H Hl;
      eapply IH; try exact H; try done.
    apply Forall_app. split; [done|]. constructor; [|done].
    apply sorted_sorted; [apply x0_le_total|apply x0_le_trans].
  Qed.

Lemma group_loop_ordered tol ws lines cur cy lines' cur' :
  group_loop tol ws lines cur cy = (lines', cur') ->
  StronglySorted (fun a b => (rnd a <= rnd b)%Z) ws ->
  (forall a b, a ∈ concat lines ++ cur -> b ∈ ws -> (rnd a <= rnd b)%Z) ->
  StronglySorted line_le (lines ++ [cur]) ->
  StronglySorted line_le (lines' ++ [cur']).
Proof.
  revert lines cur cy. induction ws as [|w ws IH]; intros lines cur cy; simpl.
  - by intros [= <- <-].
  - intros H Hws Hlow Hlines.
    apply StronglySorted_cons in Hws as [Hw Hws]. rewrite Forall_forall in Hw.
    assert (StronglySorted line_le (lines ++ [cur ++ [w]])) as Hjoin.
    { apply StronglySorted_app in Hlines as (H1 & H2 & H3).
      apply StronglySorted_app. split; [|split; [done|repeat constructor]].
      intros la lb Hla ->%list_elem_of_singleton a b Ha [Hb| ->%list_elem_of_singleton]%elem_of_app.
      - apply (H1 la cur); [done|by apply list_elem_of_singleton|done..].
      - apply Hlow; [|by left].
        apply elem_of_app. left. apply elem_of_concat. eauto. }
    assert (forall a b, a ∈ concat lines ++ cur ++ [w] -> b ∈ ws -> (rnd a <= rnd b)%Z) as Hlow'.
    { intros a b Ha Hb. rewrite (assoc_L (++)) in Ha.
      apply elem_of_app in Ha as [Ha| ->%list_elem_of_singleton].
      - apply Hlow; [done|by right].
      - by apply Hw. }
    destruct cy as [cy|]; [destruct (Z.abs _ <=? tol)%Z|].
    + eapply IH; [exact H|done|exact Hlow'|done].
    + eapply IH; [exact H|done| |].
      * intros a b Ha Hb. apply Hlow'; [|done].
        rewrite concat_app in Ha. simpl in Ha.
        rewrite app_nil_r, sorted_perm, <- (assoc_L (++)) in Ha. done.
      * rewrite <- (assoc_L (++)). simpl.
        apply StronglySorted_app in Hjoin as (H1 & H2 & H3).
        apply StronglySorted_app in Hlines as (H1' & _ & _).
        apply StronglySorted_app. split; [|split; [done|]].
        -- intros la lb Hla [->| ->%list_elem_of_singleton]%elem_of_cons.
           ++ eapply line_le_perm; [done|symmetry; apply sorted_perm|].
              apply H1'; [done|set_solver].
           ++ intros a b Ha ->%list_elem_of_singleton.
              apply (H1 la (cur ++ [w])); [done|set_solver|done|set_solver].
        -- repeat constructor.
           intros a b Ha ->%list_elem_of_singleton.
           rewrite sorted_perm in Ha.
           apply Hlow; [set_solver|set_solver].
    + eapply IH; [exact H|done|exact Hlow'|done].
Qed.

(** C6 (Line Grouper): the lines of [group_lines] hold every input token
    exactly once, each line is ordered by left x, every token of an earlier
    line has a rounded top at most that of every token of a later line, and
    no token gives no line. *)
Theorem group_lines_partition_ordered (words : list word) (tol : Z) :
  let lines := group_lines words tol in
  concat lines ≡ₚ words
  /\ (forall line, line ∈ lines ->
        StronglySorted (fun a b => (x0 a <= x0 b)%Q) line)
  /\ (forall i j la lb a b, i < j -> lines !! i = Some la -> lines !! j = Some lb ->
        a ∈ la -> b ∈ lb -> (py_round (top a) <= py_round (top b))%Z)
  /\ group_lines [] tol = [].
Proof.
  simpl. split; [|split; [|split; [|done]]].
  - unfold group_lines. destruct words as [|w words]; [done|].
    destruct (group_loop _ _ _ _ _) as [lines cur] eqn:E.
    apply group_loop_perm in E. rewrite sorted_perm in E. simpl in E.
    rewrite <- E. destruct cur; [by rewrite app_nil_r|].
    rewrite concat_app. simpl. by rewrite app_nil_r, sorted_perm.
  - intros line Hline.
    enough (StronglySorted (fun a b => x0_le a b = true) line) as Hs.
    { clear -Hs. induction Hs; constructor; [done|].
      eapply Forall_impl; [done|]. intros b Hb. by apply Qle_bool_iff. }
    unfold group_lines in Hline. destruct words as [|w words]; [set_solver|].
    destruct (group_loop _ _ _ _ _) as [lines cur] eqn:E.
    apply group_loop_lines_sorted in E; [|constructor].
    rewrite Forall_forall in E.
    destruct cur as [|c cur]; [by apply E|].
    apply elem_of_app in Hline as [Hline| ->%list_elem_of_singleton].
    + by apply E.
    + apply sorted_sorted; [apply x0_le_total|apply x0_le_trans].
  - intros i j la lb a b Hij Hi Hj Ha Hb.
    enough (StronglySorted line_le (group_lines words tol)) as Hs.
    { by apply (StronglySorted_lookup _ _ i j la lb Hs Hij Hi Hj a b). }
    clear. unfold group_lines. destruct words as [|w words]; [constructor|].
    destruct (group_loop _ _ _ _ _) as [lines cur] eqn:E.
    apply group_loop_ordered in E.
    + destruct cur as [|c cur]; [by apply StronglySorted_app_1_l in E|].
      eapply lines_snoc_sorted; [|exact E].
      intros a. by rewrite sorted_perm.
    + pose proof (sorted_sorted key_le key_le_total key_le_trans (w :: words)) as Hs.
      clear -Hs. induction Hs; constructor; [done|].
      eapply Forall_impl; [done|]. intros b Hb. by apply key_le_round.
    + intros a b Ha. set_solver.
    + repeat constructor.
Qed.

(** * The matcher *)

Lemma pos_steps w s : pos (steps w s) = pos s + length w.
Proof.
  revert s. induction w as [|c w IH]; intros s; simpl; [lia|].
  rewrite IH. simpl. lia.
Qed.

Lemma grp_steps w s : grp (steps w s) = grp s.
Proof. revert s. induction w as [|c w IH]; intros s; simpl; [done|]. by rewrite IH. Qed.

Lemma steps_app w1 w2 s : steps (w1 ++ w2) s = steps w2 (steps w1 s).
Proof. apply foldl_app. Qed.

(** What a match consumes: the continuation is entered after a prefix [w]
    of the subject, at offset [pos s + length w]. *)
Lemma rep_consumes g p lo hi k s l x :
  rep g p lo hi k s l = Some x ->
  exists s' w l', l = w ++ l' /\ pos s' = pos s + length w /\ k s' l' = Some x.
Proof.
  revert lo hi s. induction l as [|c l IH]; intros lo hi s H.
  - exists s, [], []. split; [done|]. split; [simpl; lia|].
    simpl in H. destruct g, lo; simpl in H; try done.
    by destruct (k s []).
  - simpl in H.
    assert ((match lo with 0 => k s (c :: l) | S _ => None end = Some x) ->
            exists s' w l', c :: l = w ++ l' /\ pos s' = pos s + length w /\ k s' l' = Some x) as Hstop.
    { intros H'. exists s, [], (c :: l). destruct lo; [|done]. split; [done|]. split; [simpl; lia|done]. }
    assert ((if p c && hi_open hi then rep g p (pred lo) (dec_hi hi) k (step c s) l else None) = Some x ->
            exists s' w l', c :: l = w ++ l' /\ pos s' = pos s + length w /\ k s' l' = Some x) as Hmore.
    { intros H'. destruct (p c && hi_open hi); [|done].
      apply IH in H' as (s' & w & l' & -> & Hp & Hk).
      exists s', (c :: w), l'. split; [done|]. split; [simpl in *; lia|done]. }
    destruct g.
    + destruct (if p c && hi_open hi then _ else _) eqn:E; [apply Hmore; congruence|by apply Hstop].
    + destruct (match lo with 0 => _ | S _ => _ end) eqn:E; [apply Hstop; congruence|by apply Hmore].
Qed.

Lemma m_consumes r : forall k s l x,
  m r k s l = Some x ->
  exists s' w l', l = w ++ l' /\ pos s' = pos s + length w /\ k s' l' = Some x.
Proof.
  induction r as [|p|r1 IH1 r2 IH2|r1 IH1 r2 IH2|g p lo hi|n r IH|r IH| | | |];
    intros k s l x H; simpl in H.
  - exists s, [], l. split; [done|]. split; [simpl; lia|done].
  - destruct l as [|c l]; [done|]. destruct (p c); [|done].
    exists (step c s), [c], l. split; [done|]. split; [simpl; lia|done].
  - apply IH1 in H as (s1 & w1 & l1 & -> & Hp1 & H).
    apply IH2 in H as (s2 & w2 & l2 & -> & Hp2 & H).
    exists s2, (w1 ++ w2), l2. split; [by rewrite <- (assoc_L (++))|].
    split; [rewrite length_app; lia|done].
  - destruct (m r1 k s l) eqn:E; [apply IH1; congruence|by apply IH2].
  - by apply rep_consumes in H.
  - apply IH in H as (s1 & w1 & l1 & -> & Hp1 & H).
    eexists _, w1, l1. split; [done|]. split; [|exact H]. done.
  - destruct (m r _ s l); [|done]. exists s, [], l. split; [done|]. split; [simpl; lia|done].
  - destruct (at_boundary s l); [|done]. exists s, [], l. split; [done|]. split; [simpl; lia|done].
  - destruct (prev s); [done|]. exists s, [], l. split; [done|]. split; [simpl; lia|done].
  - exists s, [], l. split; [done|]. split; [simpl; lia|].
    destruct l as [|c [|? ?]]; [done| |done]. by destruct (Ascii.eqb c LF).
  - destruct l; [|done]. exists s, [], []. split; [done|]. split; [simpl; lia|done].
Qed.

Lemma match_at_consumes r s l e l' :
  match_at r s l = Some (e, l') ->
  exists w, l = w ++ l' /\ pos e = pos s + length w.
Proof.
  intros (s' & w & l'' & -> & Hp & [= <- <-])%m_consumes. eauto.
Qed.

(** [group(0)] of a match is the text it consumed. *)
Lemma group0_mk_mobj s w l' e :
  pos e = pos s + length w -> group0 (mk_mobj s (w ++ l') e) = w.
Proof.
  intros H. simpl. rewrite H. replace (pos s + length w - pos s) with (length w) by lia.
  by rewrite take_app_length.
Qed.

(** ** Unfolding the scans *)

Lemma scan_skip r w s l : scan r (length w) s (w ++ l) = scan r 0 (steps w s) l.
Proof.
  revert s. induction w as [|c w IH]; intros s; simpl; [by destruct l|]. apply IH.
Qed.

Lemma scan_match r s w l e :
  w <> [] -> match_at r s (w ++ l) = Some (e, l) ->
  scan r 0 s (w ++ l) = mk_mobj s (w ++ l) e :: scan r 0 (steps w s) l.
Proof.
  intros Hw H. pose proof H as (w' & Hw' & Hp)%match_at_consumes.
  apply app_inv_tail in Hw' as <-.
  destruct w as [|c w]; [done|]. simpl in *. rewrite H. f_equal.
  replace (pred (pos e - pos s)) with (length w) by lia. apply scan_skip.
Qed.

Lemma scan_nomatch r s c l :
  match_at r s (c :: l) = None -> scan r 0 s (c :: l) = scan r 0 (step c s) l.
Proof. intros H. simpl. by rewrite H. Qed.

Lemma sub_go_skip r repl w s l :
  sub_go r repl (length w) s (w ++ l) = sub_go r repl 0 (steps w s) l.
Proof.
  revert s. induction w as [|c w IH]; intros s; simpl; [by destruct l|]. apply IH.
Qed.

Lemma sub_go_match r repl s w l e :
  w <> [] -> match_at r s (w ++ l) = Some (e, l) ->
  sub_go r repl 0 s (w ++ l) = repl (mk_mobj s (w ++ l) e) ++ sub_go r repl 0 (steps w s) l.
Proof.
  intros Hw H. pose proof H as (w' & Hw' & Hp)%match_at_consumes.
  apply app_inv_tail in Hw' as <-.
  destruct w as [|c w]; [done|]. simpl in *. rewrite H. f_equal.
  replace (pos e - pos s) with (S (length w)) by lia. simpl. apply sub_go_skip.
Qed.

Lemma sub_go_nomatch r repl s c l :
  match_at r s (c :: l) = None ->
  sub_go r repl 0 s (c :: l) = c :: sub_go r repl 0 (step c s) l.
Proof. intros H. simpl. by rewrite H. Qed.

(** [sub] is the one-pass substitution. *)
Lemma assemble_scan r repl l : forall s skip pre last,
  length pre = pos s ->
  match skip with
  | O => last <= pos s
  | S _ => last = pos s + skip
  end ->
  assemble repl last (pre ++ l) (scan r skip s l) =
  match skip with
  | O => drop last pre ++ sub_go r repl 0 s l
  | S _ => sub_go r repl skip s l
  end.
Proof.
  induction l as [|c l IH]; intros s skip pre last Hpre Hlast.
  - destruct skip as [|n]; simpl.
    + destruct (match_at r s []) as [[e l']|] eqn:E; simpl.
      * pose proof E as (w & Hw & Hp)%match_at_consumes.
        symmetry in Hw. apply app_eq_nil in Hw as [-> ->]. simpl in Hp.
        rewrite !app_nil_r. replace (pos s - last) with (length (drop last pre)).
        2:{ rewrite length_drop. lia. }
        rewrite firstn_all. f_equal.
        rewrite drop_ge; [by rewrite app_nil_r|]. rewrite Hp, Nat.add_0_r. lia.
      * by rewrite !app_nil_r.
    + rewrite app_nil_r. apply drop_ge. lia.
  - destruct skip as [|n].
    + simpl. destruct (match_at r s (c :: l)) as [[e l']|] eqn:E.
      * pose proof E as (w & Hw & Hp)%match_at_consumes.
        cbn [assemble m_start m_end mk_mobj].
        rewrite drop_app_le by lia.
        rewrite take_app_le by (rewrite length_drop; lia).
        rewrite firstn_all2 by (rewrite length_drop; lia).
        f_equal. f_equal.
        specialize (IH (step c s) (pred (pos e - pos s)) (pre ++ [c]) (pos e)).
        rewrite <- (assoc_L (++)) in IH. simpl in IH. rewrite IH.
        -- destruct (pos e - pos s) as [|[|n]] eqn:En; simpl.
           ++ replace (pos e) with (length pre) by lia.
              rewrite drop_app_length. done.
           ++ rewrite drop_ge; [done|]. rewrite length_app. simpl. lia.
           ++ done.
        -- rewrite length_app. simpl. lia.
        -- destruct (pos e - pos s) as [|[|n]] eqn:En; simpl; lia.
      * specialize (IH (step c s) 0 (pre ++ [c]) last).
        rewrite <- (assoc_L (++)) in IH. simpl in IH. rewrite IH.
        -- rewrite drop_app_le by lia. by rewrite <- (assoc_L (++)).
        -- rewrite length_app. simpl. lia.
        -- lia.
    + simpl.
      specialize (IH (step c s) n (pre ++ [c]) last).
      rewrite <- (assoc_L (++)) in IH. simpl in IH. rewrite IH.
      * destruct n; [|done]. rewrite drop_ge; [done|]. rewrite length_app. simpl. lia.
      * rewrite length_app. simpl. lia.
      * destruct n; simpl; lia.
Qed.

Lemma sub_sub_go r repl l : sub r repl l = sub_go r repl 0 start l.
Proof.
  unfold sub, finditer.
  by apply (assemble_scan r repl l start 0 [] 0).
Qed.

(** * Placeholders *)

Lemma run_spec p l w r :
  run p l = (w, r) ->
  l = w ++ r /\ Forall (fun x => p x = true) w /\
  match r with [] => True | b :: _ => p b = false end.
Proof.
  revert w r. induction l as [|x l IH]; intros w r; simpl.
  - intros [= <- <-]. by repeat constructor.
  - destruct (p x) eqn:E.
    + destruct (run p l) as [w' r'] eqn:E'. intros [= <- <-].
      destruct (IH _ _ eq_refl) as (-> & Hw & Hr). by repeat constructor.
    + intros [= <- <-]. by repeat constructor.
Qed.

Lemma rep_greedy_run p k : 
  (forall s x l, p x = true -> k s (x :: l) = None) ->
  forall l s lo,
  rep true p lo None k s l =
  let '(w, r) := run p l in
  if lo <=? length w then k (steps w s) r else None.
Proof.
  intros Hk. induction l as [|x l IH]; intros s lo.
  - simpl. by destruct lo.
  - cbn [rep run]. destruct (p x) eqn:E; simpl.
    + rewrite IH. destruct (run p l) as [w r]. simpl.
      assert ((pred lo <=? length w) = (lo <=? S (length w))) as ->.
      { destruct lo; simpl; [by destruct (length w)|done]. }
      destruct (lo <=? S (length w)) eqn:E'; [|by destruct lo].
      destruct (k _ r); [done|]. destruct lo; [by apply Hk|done].
    + by destruct lo.
Qed.

Lemma ph_head_Some o c l name rest :
  ph_head o c l = Some (name, rest) ->
  l = o :: name ++ c :: rest /\ name <> [] /\ c ∉ name.
Proof.
  unfold ph_head. destruct l as [|a l1]; [done|].
  destruct (Ascii.eqb_spec o a) as [<-|]; [|done].
  destruct (run _ l1) as [w r] eqn:E. apply run_spec in E as (-> & Hw & Hr).
  destruct w as [|x w]; [done|]. destruct r as [|b r]; [done|].
  intros [= <- <-]. apply negb_false_iff, Ascii.eqb_eq in Hr as ->.
  split; [done|]. split; [done|].
  intros Hin. rewrite Forall_forall in Hw. apply Hw in Hin.
  by rewrite Ascii.eqb_refl in Hin.
Qed.

(** The matcher on a placeholder pattern is [ph_head]. *)
Lemma match_at_ph o c s l :
  match_at (ph_pattern o c) s l =
  match ph_head o c l with
  | Some (name, rest) =>
      Some (Cur (pos s + length name + 2) (Some c) ((1, name) :: grp s), rest)
  | None => None
  end.
Proof.
  unfold match_at, ph_pattern, ph_head. cbn [cat foldr m lit plus].
  destruct l as [|a l1]; [done|].
  destruct (Ascii.eqb o a); [|done].
  rewrite rep_greedy_run.
  2:{ intros s' x l' Hx. cbn [m]. apply negb_true_iff in Hx.
      rewrite Ascii.eqb_sym. by rewrite Hx. }
  destruct (run _ l1) as [w r] eqn:E. apply run_spec in E as (-> & Hw & Hr).
  destruct w as [|x w]; [done|]. cbn [length Nat.leb].
  destruct r as [|b r]; [done|].
  apply negb_false_iff in Hr. rewrite Ascii.eqb_sym in Hr. rewrite Hr.
  apply Ascii.eqb_eq in Hr as <-.
  unfold accept. f_equal. f_equal.
  unfold step, set_grp. cbn [pos prev grp].
  rewrite pos_steps, grp_steps. cbn [pos grp step].
  f_equal; [simpl; lia|].
  f_equal. f_equal.
  replace (S (pos s) + length (x :: w) - S (pos s)) with (length (x :: w)) by lia.
  by rewrite take_app_length.
Qed.

Lemma match_at_ph_Some o c s l name rest :
  ph_head o c l = Some (name, rest) ->
  exists e, match_at (ph_pattern o c) s ((o :: name ++ [c]) ++ rest) = Some (e, rest)
    /\ group0 (mk_mobj s ((o :: name ++ [c]) ++ rest) e) = o :: name ++ [c]
    /\ g1 (mk_mobj s ((o :: name ++ [c]) ++ rest) e) = name.
Proof.
  intros H. pose proof H as (Hl & _ & _)%ph_head_Some.
  assert (l = (o :: name ++ [c]) ++ rest) as Hl'.
  { rewrite Hl. simpl. by rewrite <- (assoc_L (++)). }
  rewrite <- Hl'. rewrite match_at_ph, H. eexists. split; [done|].
  split.
  - rewrite Hl'. apply group0_mk_mobj. simpl. rewrite length_app. simpl. lia.
  - unfold g1, group. simpl. done.
Qed.

Section Passthrough.
Context (o c : ascii) (data_dict : gmap text value).

Lemma replace_func_placeholder mo (name : text) :
  group0 mo = o :: name ++ [c] -> g1 mo = name ->
  replace_func data_dict mo = seg_filled o c data_dict (Placeholder name).
Proof.
  intros H0 H1. unfold replace_func. rewrite H0, H1. simpl.
  by destruct (data_dict !! name).
Qed.

Lemma ph_segments n : forall l s, length l <= n ->
  exists segs,
    l = concat (seg_source o c <$> segs)
    /\ sub_go (ph_pattern o c) (replace_func data_dict) 0 s l
       = concat (seg_filled o c data_dict <$> segs)
    /\ g1 <$> scan (ph_pattern o c) 0 s l = omap seg_name segs.
Proof.
  induction n as [|n IH]; intros l s Hn.
  - destruct l; [|simpl in Hn; lia]. by exists [].
  - destruct (ph_head o c l) as [[name rest]|] eqn:E.
    + pose proof E as (Hl & _ & _)%ph_head_Some.
      destruct (match_at_ph_Some _ _ s _ _ _ E) as (e & He & H0 & H1).
      assert (l = (o :: name ++ [c]) ++ rest) as ->.
      { rewrite Hl. simpl. by rewrite <- (assoc_L (++)). }
      destruct (IH rest (steps (o :: name ++ [c]) s)) as (segs & Hsrc & Hout & Hnames).
      { rewrite length_app in Hn. simpl in Hn. lia. }
      exists (Placeholder name :: segs).
      rewrite (sub_go_match _ _ _ _ _ e), (scan_match _ _ _ _ e) by done.
      rewrite (replace_func_placeholder _ name), Hout by done.
      cbn [fmap list_fmap omap list_omap seg_name concat]. rewrite Hnames, H1.
      split; [|done]. by rewrite <- Hsrc.
    + destruct l as [|a l]; [by exists []|].
      destruct (IH l (step a s)) as (segs & Hsrc & Hout & Hnames).
      { simpl in Hn. lia. }
      exists (Lit [a] :: segs).
      rewrite sub_go_nomatch, scan_nomatch by (by rewrite match_at_ph, E).
      cbn [fmap list_fmap omap list_omap seg_name concat seg_source seg_filled].
      rewrite Hnames, Hout. split; [|done]. simpl. by rewrite <- Hsrc.
Qed.
End Passthrough.

Lemma run_prefix (p : ascii -> bool) (w : text) (x : ascii) (r : text) :
  Forall (fun y => p y = true) w -> p x = false -> run p (w ++ x :: r) = (w, x :: r).
Proof.
  intros Hw Hx. induction Hw as [|y w Hy Hw IH]; simpl.
  - by rewrite Hx.
  - by rewrite Hy, IH.
Qed.

(** A placeholder that stands at the head of a text is found there. *)
Lemma ph_head_token o c (name rest : text) :
  name <> [] -> c ∉ name -> ph_head o c (o :: name ++ c :: rest) = Some (name, rest).
Proof.
  intros Hne Hc. unfold ph_head. rewrite Ascii.eqb_refl.
  rewrite (run_prefix _ name c rest).
  - by destruct name.
  - apply Forall_forall. intros y Hy. apply negb_true_iff, Ascii.eqb_neq.
    intros ->. done.
  - by rewrite Ascii.eqb_refl.
Qed.

Lemma ph_head_no_token o c (l : text) :
  (forall name rest : text, name <> [] -> c ∉ name -> l <> o :: name ++ c :: rest) ->
  ph_head o c l = None.
Proof.
  intros H. destruct (ph_head o c l) as [[name rest]|] eqn:E; [|done].
  apply ph_head_Some in E as (Hl & Hne & Hc). by destruct (H name rest Hne Hc).
Qed.

Section Tokens.
Context (o c : ascii) (data_dict : gmap text value).

Lemma sub_go_token s (l name rest : text) :
  ph_head o c l = Some (name, rest) ->
  sub_go (ph_pattern o c) (replace_func data_dict) 0 s l
  = seg_filled o c data_dict (Placeholder name)
    ++ sub_go (ph_pattern o c) (replace_func data_dict) 0 (steps (o :: name ++ [c]) s) rest.
Proof.
  intros E. pose proof E as (Hl & _ & _)%ph_head_Some.
  destruct (match_at_ph_Some _ _ s _ _ _ E) as (e & He & H0 & H1).
  assert (l = (o :: name ++ [c]) ++ rest) as ->.
  { rewrite Hl. simpl. by rewrite <- (assoc_L (++)). }
  rewrite (sub_go_match _ _ _ _ _ e) by done.
  by rewrite (replace_func_placeholder o c data_dict _ name).
Qed.

Lemma sub_go_no_token s (x : ascii) (l : text) :
  ph_head o c (x :: l) = None ->
  sub_go (ph_pattern o c) (replace_func data_dict) 0 s (x :: l)
  = x :: sub_go (ph_pattern o c) (replace_func data_dict) 0 (step x s) l.
Proof. intros E. apply sub_go_nomatch. by rewrite match_at_ph, E. Qed.

(** The substitution does not depend on the offset at which it starts. *)
Lemma sub_go_cursor n : forall (l : text) s s', length l <= n ->
  sub_go (ph_pattern o c) (replace_func data_dict) 0 s l
  = sub_go (ph_pattern o c) (replace_func data_dict) 0 s' l.
Proof.
  induction n as [|n IH]; intros l s s' Hn.
  - destruct l; [done|simpl in Hn; lia].
  - destruct (ph_head o c l) as [[name rest]|] eqn:E.
    + rewrite (sub_go_token s _ _ _ E), (sub_go_token s' _ _ _ E). f_equal.
      apply IH. apply ph_head_Some in E as (-> & _ & _).
      simpl in Hn. rewrite length_app in Hn. simpl in Hn. lia.
    + destruct l as [|x l]; [done|].
      rewrite !sub_go_no_token by done. f_equal. apply IH. simpl in Hn. lia.
Qed.

Lemma sub_fills_tokens :
  fills_tokens o c data_dict (sub (ph_pattern o c) (replace_func data_dict)).
Proof.
  split; [done|]. split.
  - intros name rest Hne Hc. rewrite !sub_sub_go.
    rewrite (sub_go_token _ _ name rest) by (by apply ph_head_token).
    cbn [seg_filled]. f_equal. by apply (sub_go_cursor (length rest)).
  - intros x l H. rewrite !sub_sub_go.
    rewrite sub_go_no_token by (by apply ph_head_no_token). f_equal.
    by apply (sub_go_cursor (length l)).
Qed.
End Tokens.

(** C4 (unresolved placeholders pass through): for every data map, the
    fill of a text reads it from left to right; a placeholder (the opening
    delimiter, a non-empty name without the closing delimiter, the closing
    delimiter) whose name is absent from the data is left in the output as
    the token it was, and one whose name is present is replaced by the
    string form of its value; every other character is copied.  This holds
    for the square-bracket and for the curly-brace templates; the fill is a
    total function and raises nothing. *)
Theorem placeholders_pass_through (data_dict : gmap text value) :
  fills_tokens "[" "]" data_dict
    (fun s => TemplateManager._replace_placeholders_in_text s data_dict)
  /\ fills_tokens "{" "}" data_dict
       (fun s => NikeTemplateManager._replace_placeholders_in_text s data_dict).
Proof.
  split.
  - apply (sub_fills_tokens "[" "]").
  - apply (sub_fills_tokens "{" "}").
Qed.

(** * Round trip of the square-bracket templates *)

Section NoPlaceholder.
Context (o c : ascii) (Hoc : o <> c).

Lemma no_ph_tail x l : no_ph o c (x :: l) -> no_ph o c l.
Proof. intros H a b ->. by apply (H (x :: a)). Qed.

Lemma no_ph_cons x l : ph_head o c (x :: l) = None -> no_ph o c l -> no_ph o c (x :: l).
Proof.
  intros Hx Hl a b Hab. destruct a as [|y a]; simpl in Hab.
  - by subst b.
  - injection Hab as -> ->. by apply (Hl a).
Qed.

Lemma no_ph_nil : no_ph o c [].
Proof. intros a b Hab. symmetry in Hab. by apply app_eq_nil in Hab as [_ ->]. Qed.

Lemma no_ph_scan l : no_ph o c l -> forall s, scan (ph_pattern o c) 0 s l = [].
Proof.
  induction l as [|x l IH]; intros Hl s; [done|].
  rewrite scan_nomatch.
  - apply IH. by eapply no_ph_tail.
  - rewrite match_at_ph. by rewrite (Hl [] (x :: l)).
Qed.

Lemma no_ph_sub repl l :
  no_ph o c l -> forall s, sub_go (ph_pattern o c) repl 0 s l = l.
Proof.
  induction l as [|x l IH]; intros Hl s; [done|].
  rewrite sub_go_nomatch.
  - f_equal. apply IH. by eapply no_ph_tail.
  - rewrite match_at_ph. by rewrite (Hl [] (x :: l)).
Qed.

Lemma no_close_no_ph l : c ∉ l -> no_ph o c l.
Proof.
  intros Hc a b ->. destruct (ph_head o c b) as [[name rest]|] eqn:E; [|done].
  apply ph_head_Some in E as (-> & _ & _). exfalso. apply Hc.
  rewrite !elem_of_app, !elem_of_cons, !elem_of_app, !elem_of_cons. auto.
Qed.

Lemma no_ph_app_free v l : o ∉ v -> no_ph o c l -> no_ph o c (v ++ l).
Proof.
  induction v as [|x v IH]; intros Hv Hl; [done|]. simpl.
  apply no_ph_cons.
  - simpl. destruct (Ascii.eqb_spec o x) as [->|]; [|done].
    exfalso. apply Hv. by left.
  - apply IH; [|done]. intros Hin. apply Hv. by right.
Qed.

Context (data_dict : gmap text value).

Lemma sub_no_ph n : forall l s, length l <= n ->
  covered_from o c data_dict s l ->
  no_ph o c (sub_go (ph_pattern o c) (replace_func data_dict) 0 s l).
Proof.
  induction n as [|n IH]; intros l s Hn Hcov.
  - destruct l; [|simpl in Hn; lia]. apply no_ph_nil.
  - destruct (ph_head o c l) as [[name rest]|] eqn:E.
    + pose proof E as (Hl & _ & _)%ph_head_Some.
      destruct (match_at_ph_Some _ _ s _ _ _ E) as (e & He & H0 & H1).
      assert (l = (o :: name ++ [c]) ++ rest) as ->.
      { rewrite Hl. simpl. by rewrite <- (assoc_L (++)). }
      unfold covered_from in Hcov.
      rewrite (scan_match _ _ _ _ e) in Hcov by done.
      rewrite (sub_go_match _ _ _ _ _ e) by done.
      destruct (Hcov name) as (v & Hv & Hfree).
      { rewrite fmap_cons, H1. by left. }
      unfold replace_func at 1. rewrite H1, Hv. simpl.
      apply no_ph_app_free; [done|].
      apply IH.
      * rewrite length_app in Hn. simpl in Hn. lia.
      * intros nm Hnm. apply Hcov. rewrite fmap_cons. by right.
    + destruct l as [|a l]; [apply no_ph_nil|].
      assert (match_at (ph_pattern o c) s (a :: l) = None) as Hm
        by (by rewrite match_at_ph, E).
      unfold covered_from in Hcov. rewrite scan_nomatch in Hcov by done.
      rewrite sub_go_nomatch by done.
      assert (no_ph o c (sub_go (ph_pattern o c) (replace_func data_dict) 0 (step a s) l))
        as Hrest by (apply IH; [simpl in Hn; lia|done]).
      apply no_ph_cons; [|done].
      unfold ph_head in E |- *.
      destruct (Ascii.eqb o a) eqn:Ea; [|done].
      destruct (run _ l) as [w r] eqn:Er.
      pose proof Er as (-> & Hw & Hr)%run_spec.
      destruct w as [|x w].
      * (* the opening character is followed by the closing one, or by nothing *)
        destruct r as [|b r]; [done|]. cbn [app] in *.
        apply negb_false_iff, Ascii.eqb_eq in Hr as ->.
        rewrite sub_go_nomatch.
        2:{ rewrite match_at_ph. simpl.
            destruct (Ascii.eqb_spec o c); [done|done]. }
        simpl. by rewrite Ascii.eqb_refl.
      * (* no closing character after the opening one *)
        destruct r as [|b r]; [|done]. rewrite app_nil_r in *.
        rewrite no_ph_sub; [by rewrite Er|].
        apply no_close_no_ph. intros Hin.
        rewrite Forall_forall in Hw. apply Hw in Hin.
        by rewrite Ascii.eqb_refl in Hin.
Qed.
End NoPlaceholder.

(** A text without placeholder has none in any of its prefixes. *)
Lemma no_ph_prefix o c (a b : text) : no_ph o c (a ++ b) -> no_ph o c a.
Proof.
  intros H a1 b1 ->. specialize (H a1 (b1 ++ b)).
  rewrite <- (assoc_L (++)) in H. specialize (H eq_refl).
  destruct (ph_head o c b1) as [[name rest]|] eqn:E; [|done].
  apply ph_head_Some in E as (-> & Hne & Hc).
  cbn [app] in H. rewrite <- (assoc_L (++)) in H. cbn [app] in H.
  by rewrite ph_head_token in H.
Qed.

Lemma elem_of_sorted_set (s : gset text) (x : text) : x ∈ sorted_set s <-> x ∈ s.
Proof. unfold sorted_set. by rewrite sorted_perm, elem_of_elements. Qed.

Lemma sorted_set_empty (s : gset text) : (forall x : text, x ∉ s) -> sorted_set s = [].
Proof.
  intros H. assert (s = ∅) as -> by (apply elem_of_equiv_empty_L; done).
  unfold sorted_set. by rewrite elements_empty.
Qed.

Lemma max_row_dom ws ws' : dom (cells ws') = dom (cells ws) -> max_row ws' = max_row ws.
Proof. unfold max_row. by intros ->. Qed.

Lemma max_column_dom ws ws' :
  dom (cells ws') = dom (cells ws) -> max_column ws' = max_column ws.
Proof. unfold max_column. by intros ->. Qed.

Lemma iter_rows_dom ws ws' : dom (cells ws') = dom (cells ws) -> iter_rows ws' = iter_rows ws.
Proof. intros H. unfold iter_rows. by rewrite (max_row_dom _ _ H), (max_column_dom _ _ H). Qed.

Lemma str_value_Some v s : str_value v = Some s -> v = VStr s /\ s <> [].
Proof. destruct v as [|[|x t]| |]; try done. by intros [= <-]. Qed.

(** * Cell values as openpyxl stores them *)

Lemma slice_to_prefix n (s : text) : exists b, s = slice_to n s ++ b.
Proof.
  revert n. induction s as [|x s IH]; intros n; simpl; [by exists []|].
  destruct (n =? 0)%N; [by exists (x :: s)|].
  destruct (IH (N.pred n)) as [b Hb]. exists b. simpl. by rewrite <- Hb.
Qed.

Lemma slice_to_id n (s : text) : (N.of_nat (length s) <= n)%N -> slice_to n s = s.
Proof.
  revert n. induction s as [|x s IH]; intros n Hn; simpl; [done|].
  simpl in Hn. destruct (N.eqb_spec n 0) as [->|Hne]; [lia|].
  rewrite IH; [done|lia].
Qed.

Lemma legal_text_writable (s : text) : legal_text s -> writable s.
Proof.
  unfold legal_text, writable. intros H.
  destruct (slice_to_prefix 32767 s) as [b Hb]. rewrite Hb in H.
  apply Forall_app in H as [H _]. revert H. generalize (slice_to 32767 s).
  intros l H. induction H as [|x l Hx Hl IH]; simpl; [done|]. by rewrite Hx, IH.
Qed.

Lemma legal_text_app (a b : text) : legal_text (a ++ b) <-> legal_text a /\ legal_text b.
Proof. apply Forall_app. Qed.

Lemma bind_value_str (t : text) :
  bind_value (VStr t)
  = if decide (writable t) then Ok (VStr (slice_to 32767 t)) else Raise IllegalCharacterError.
Proof.
  unfold bind_value, check_string. cbv zeta.
  destruct (decide (writable t)) as [H|H]; unfold writable in H.
  - by rewrite H.
  - by destruct (existsb illegal_character (slice_to 32767 t)).
Qed.

Lemma refused_at_ext f ws1 ws rc :
  cell_value ws1 rc.1 rc.2 = cell_value ws rc.1 rc.2 ->
  refused_at f ws1 rc <-> refused_at f ws rc.
Proof. unfold refused_at. by intros ->. Qed.

Lemma fill_value_with_fixed f v :
  f <$> str_value v = str_value v -> fill_value_with f v = v.
Proof.
  unfold fill_value_with. destruct (str_value v) as [s|]; [|done].
  intros [= H]. by rewrite decide_True.
Qed.

(** The cell loop: the cells of a first part of the list are filled, the
    loop ends at the first cell that refuses its text, and nothing else
    changes. *)
Lemma fill_cells_with_spec f coords : forall ws n ws' n' e,
  NoDup coords ->
  fill_cells_with f coords ws n = (ws', n', e) ->
  dom (cells ws') = dom (cells ws) /\ shapes ws' = shapes ws
  /\ page_setup ws' = page_setup ws /\ page_margins ws' = page_margins ws
  /\ exists filled rest,
       coords = filled ++ rest
       /\ (forall r c, cell_value ws' r c =
             if bool_decide ((r, c) ∈ filled) then fill_value_with f (cell_value ws r c)
             else cell_value ws r c)
       /\ (forall rc, rc ∈ filled -> ~ refused_at f ws rc)
       /\ match e with
          | None => rest = []
          | Some e' => e' = IllegalCharacterError
                       /\ exists rc rest', rest = rc :: rest' /\ refused_at f ws rc
          end.
Proof.
  induction coords as [|[r0 c0] coords IH]; intros ws n ws' n' e Hnd; cbn [fill_cells_with].
  - intros [= <- <- <-]. do 4 (split; [done|]). exists [], [].
    split; [done|]. split; [done|]. split; [by intros rc ?%elem_of_nil|done].
  - apply NoDup_cons in Hnd as [Hnot Hnd].
    assert (forall ws1,
      (forall r c, (r, c) <> (r0, c0) -> cell_value ws1 r c = cell_value ws r c) ->
      cell_value ws1 r0 c0 = fill_value_with f (cell_value ws r0 c0) ->
      ~ refused_at f ws (r0, c0) ->
      dom (cells ws1) = dom (cells ws) -> shapes ws1 = shapes ws ->
      page_setup ws1 = page_setup ws -> page_margins ws1 = page_margins ws ->
      forall n1, fill_cells_with f coords ws1 n1 = (ws', n', e) ->
      dom (cells ws') = dom (cells ws) /\ shapes ws' = shapes ws
      /\ page_setup ws' = page_setup ws /\ page_margins ws' = page_margins ws
      /\ exists filled rest,
           (r0, c0) :: coords = filled ++ rest
           /\ (forall r c, cell_value ws' r c =
                 if bool_decide ((r, c) ∈ filled) then fill_value_with f (cell_value ws r c)
                 else cell_value ws r c)
           /\ (forall rc, rc ∈ filled -> ~ refused_at f ws rc)
           /\ match e with
              | None => rest = []
              | Some e' => e' = IllegalCharacterError
                           /\ exists rc rest', rest = rc :: rest' /\ refused_at f ws rc
              end) as Hstep.
    { intros ws1 Hother Hhere Hok Hd Hs Hp Hm n1 E.
      apply IH in E as (Hd' & Hs' & Hp' & Hm' & filled & rest & -> & Hv & Hdone & He); [|done].
      split; [congruence|]. split; [congruence|]. split; [congruence|].
      split; [congruence|].
      assert ((r0, c0) ∉ filled) as Hnot1.
      { intros Hin. apply Hnot, elem_of_app. by left. }
      assert (forall rc, rc ∈ filled ++ rest -> refused_at f ws1 rc <-> refused_at f ws rc)
        as Hext.
      { intros [r c] Hin. apply refused_at_ext. apply Hother. intros [= -> ->]. done. }
      exists ((r0, c0) :: filled), rest. split; [done|]. split; [|split].
      - intros r c. rewrite Hv.
        destruct (decide ((r, c) = (r0, c0))) as [[= -> ->]|Hne].
        + rewrite bool_decide_eq_false_2 by done.
          rewrite bool_decide_eq_true_2 by (by left). done.
        + rewrite Hother by done.
          destruct (bool_decide_reflect ((r, c) ∈ filled)) as [Hin|Hin].
          * by rewrite bool_decide_eq_true_2 by (by right).
          * rewrite bool_decide_eq_false_2; [done|]. by intros [?|?]%elem_of_cons.
      - intros rc [->|Hin]%elem_of_cons; [done|].
        rewrite <- Hext by (apply elem_of_app; by left). by apply Hdone.
      - destruct e as [e'|]; [|done]. destruct He as (-> & rc & rest' & -> & Hr).
        split; [done|]. exists rc, rest'. split; [done|].
        apply Hext; [|done]. apply elem_of_app. right. by left. }
    destruct (str_value (cell_value ws r0 c0)) as [s|] eqn:Es.
    + destruct (decide (f s ≠ s)) as [Hne|Heq].
      * rewrite bind_value_str. destruct (decide (writable (f s))) as [Hw|Hw].
        -- apply Hstep; try done.
           ++ intros r c Hrc. unfold cell_value. cbn [cells]. by rewrite lookup_insert_ne.
           ++ unfold cell_value at 1. cbn [cells]. rewrite lookup_insert_eq.
              unfold fill_value_with. rewrite Es. by rewrite decide_False.
           ++ unfold refused_at. cbn [fst snd]. rewrite Es. by intros [_ ?].
           ++ cbn [cells]. apply str_value_Some in Es as [Es _]. unfold cell_value in Es.
              rewrite dom_insert_L. apply subseteq_union_1_L, singleton_subseteq_l.
              apply elem_of_dom. by destruct (cells ws !! (r0, c0)).
        -- intros [= <- <- <-]. do 4 (split; [done|]).
           exists [], ((r0, c0) :: coords). split; [done|]. split; [done|].
           split; [by intros rc ?%elem_of_nil|]. split; [done|].
           exists (r0, c0), coords. split; [done|].
           unfold refused_at. cbn [fst snd]. by rewrite Es.
      * apply dec_stable in Heq. apply Hstep; try done.
        -- unfold fill_value_with. rewrite Es. by rewrite decide_True.
        -- unfold refused_at. cbn [fst snd]. rewrite Es. by intros [? _].
    + apply Hstep; try done.
      * unfold fill_value_with. by rewrite Es.
      * unfold refused_at. cbn [fst snd]. rewrite Es. by intros [].
Qed.

(** Without a cell that refuses its text the loop fills every cell. *)
Lemma fill_cells_with_all f coords ws n ws' n' e :
  NoDup coords ->
  fill_cells_with f coords ws n = (ws', n', e) ->
  (forall rc, rc ∈ coords -> ~ refused_at f ws rc) ->
  e = None
  /\ forall r c, cell_value ws' r c =
       if bool_decide ((r, c) ∈ coords) then fill_value_with f (cell_value ws r c)
       else cell_value ws r c.
Proof.
  intros Hnd E Hok.
  apply fill_cells_with_spec in E as (_ & _ & _ & _ & filled & rest & -> & Hv & _ & He);
    [|done].
  destruct e as [e'|].
  - destruct He as (_ & rc & rest' & -> & Hr). destruct (Hok rc); [|done].
    apply elem_of_app. right. by left.
  - subst rest. rewrite app_nil_r. done.
Qed.


Lemma iter_rows_NoDup ws : NoDup (iter_rows ws).
Proof.
  unfold iter_rows. apply NoDup_bind; [| |apply NoDup_seq].
  - intros r1 r2 [r c] _ _ H1 H2.
    apply list_elem_of_bind in H1 as (c1 & [= -> ->]%list_elem_of_singleton & _).
    by apply list_elem_of_bind in H2 as (c2 & [= -> ->]%list_elem_of_singleton & _).
  - intros r _. apply NoDup_bind; [| |apply NoDup_seq].
    + intros c1 c2 [r' c] _ _ [= -> ->]%list_elem_of_singleton
        [= ->]%list_elem_of_singleton. done.
    + intros c _. apply NoDup_singleton.
Qed.

Module TemplateManagerFacts.
Import TemplateManager.

Section RoundTrip.
Context (data_dict : gmap text value).

Lemma fill_clean s : text_covered data_dict s -> text_clean (fill_text data_dict s).
Proof.
  intros H. unfold fill_text, _replace_placeholders_in_text. rewrite sub_sub_go.
  by apply (sub_no_ph "[" "]" ltac:(done) data_dict (length s)).
Qed.

Lemma fill_id s : text_clean s -> fill_text data_dict s = s.
Proof.
  intros H. unfold fill_text, _replace_placeholders_in_text. rewrite sub_sub_go.
  by apply (no_ph_sub "[" "]").
Qed.

Lemma clean_findall s : text_clean s -> findall placeholders_pattern s = [].
Proof. intros H. unfold findall, finditer. by rewrite (no_ph_scan "[" "]"). Qed.

Lemma fill_good s : text_covered data_dict s \/ text_clean s -> text_clean (fill_text data_dict s).
Proof. intros [H|H]; [by apply fill_clean|by rewrite fill_id]. Qed.

(** *** Cells *)

Lemma replace_cells_eq coords : forall ws n,
  replace_cells data_dict coords ws n = fill_cells_with (fill_text data_dict) coords ws n.
Proof.
  induction coords as [|[r c] coords IH]; intros ws n; cbn [replace_cells fill_cells_with];
    [done|].
  destruct (str_value (cell_value ws r c)) as [s|]; [|apply IH].
  fold (fill_text data_dict s). cbv zeta.
  destruct (decide (fill_text data_dict s ≠ s)); [|apply IH].
  destruct (bind_value _); [apply IH|done].
Qed.

(** A cleaned or covered text is clean once filled and stored. *)
Lemma fill_value_clean v :
  value_covered data_dict v -> value_clean (fill_value_with (fill_text data_dict) v).
Proof.
  intros Hc s' Hs'. unfold fill_value_with in Hs'.
  destruct (str_value v) as [s|] eqn:Es; [|congruence].
  specialize (Hc s Es). apply fill_clean in Hc.
  destruct (decide (fill_text data_dict s = s)) as [Heq|Hne].
  - rewrite Es in Hs'. injection Hs' as <-. by rewrite <- Heq.
  - apply str_value_Some in Hs' as [[= <-] _].
    destruct (slice_to_prefix 32767 (fill_text data_dict s)) as [b Hb].
    unfold text_clean in *. rewrite Hb in Hc. by apply no_ph_prefix in Hc.
Qed.

(** *** Shapes *)

Lemma replace_shapes_spec shs : forall acc n,
  exists n', foldl (replace_shape data_dict) (acc, n) shs = (acc ++ (fill_shape data_dict <$> shs), n').
Proof.
  induction shs as [|sh shs IH]; intros acc n; cbn [foldl fmap list_fmap].
  - exists n. by rewrite app_nil_r.
  - assert (exists n1, replace_shape data_dict (acc, n) sh = (acc ++ [fill_shape data_dict sh], n1))
      as [n1 ->].
    { unfold replace_shape. destruct sh as [[|x s]|]; simpl; eauto.
      destruct (decide _) as [Hne|Heq]; [eauto|].
      apply dec_stable in Heq. fold (fill_text data_dict (x :: s)) in Heq. rewrite Heq. eauto. }
    destruct (IH (acc ++ [fill_shape data_dict sh]) n1) as [n' ->].
    exists n'. by rewrite <- (assoc_L (++)).
Qed.

(** *** One sheet *)

Lemma shape_texts_fill (shs : list (option text)) (s : text) :
  s ∈ omap shape_text (fill_shape data_dict <$> shs) ->
  exists s0, s0 ∈ omap shape_text shs /\ s = fill_text data_dict s0.
Proof.
  rewrite !list_elem_of_omap. intros (sh' & Hin & Hs).
  apply list_elem_of_fmap in Hin as (sh & -> & Hin).
  destruct sh as [[|x t]|]; simpl in Hs; try done.
  exists (x :: t). split.
  - apply list_elem_of_omap. by exists (Some (x :: t)).
  - destruct (fill_text data_dict (x :: t)); [done|]. by injection Hs as <-.
Qed.

(** The sheet after [replace_placeholders_in_sheet]: the cells of a first
    part of the bounding box are filled; when a cell refuses its text
    the loop ends there and the shapes stay, else the shapes are filled
    too. *)
Lemma replace_sheet_spec ws ws' n :
  replace_placeholders_in_sheet ws data_dict = (ws', n) ->
  dom (cells ws') = dom (cells ws)
  /\ page_setup ws' = page_setup ws /\ page_margins ws' = page_margins ws
  /\ exists filled rest,
       iter_rows ws = filled ++ rest
       /\ (forall r c, cell_value ws' r c =
             if bool_decide ((r, c) ∈ filled)
             then fill_value_with (fill_text data_dict) (cell_value ws r c)
             else cell_value ws r c)
       /\ (forall rc, rc ∈ filled -> ~ refused_at (fill_text data_dict) ws rc)
       /\ ((rest = []
            /\ shapes ws' = (fun shs : list (option text) => fill_shape data_dict <$> shs)
                            <$> shapes ws)
           \/ (exists rc rest', rest = rc :: rest'
                 /\ refused_at (fill_text data_dict) ws rc)
              /\ shapes ws' = shapes ws).
Proof.
  unfold replace_placeholders_in_sheet. rewrite replace_cells_eq.
  destruct (fill_cells_with _ (iter_rows ws) ws 0) as [[ws1 n1] e] eqn:E1.
  apply fill_cells_with_spec in E1
    as (Hd & Hs & Hp & Hm & filled & rest & Hsplit & Hv & Hdone & He);
    [|apply iter_rows_NoDup].
  destruct e as [e'|].
  - intros [= <- <-]. do 3 (split; [done|]). exists filled, rest.
    do 3 (split; [done|]). right. by destruct He as [_ He].
  - subst rest. rewrite Hs. destruct (shapes ws) as [[|sh shs]|] eqn:Esh.
    + intros [= <- <-]. do 3 (split; [done|]). exists filled, [].
      do 3 (split; [done|]). left. by rewrite Hs.
    + destruct (replace_shapes_spec (sh :: shs) [] n1) as [n' ->].
      intros [= <- <-]. do 3 (split; [done|]). exists filled, [].
      do 3 (split; [done|]). by left.
    + intros [= <- <-]. do 3 (split; [done|]). exists filled, [].
      do 3 (split; [done|]). left. by rewrite Hs.
Qed.

Lemma replace_sheet_clean ws ws' n :
  replace_placeholders_in_sheet ws data_dict = (ws', n) ->
  sheet_covered data_dict ws ->
  (forall rc, rc ∈ iter_rows ws -> ~ refused_at (fill_text data_dict) ws rc) ->
  sheet_clean ws'.
Proof.
  intros H [Hcells Hshapes] Hok.
  apply replace_sheet_spec in H as (Hd & _ & _ & filled & rest & Hsplit & Hv & _ & Hend).
  destruct Hend as [[-> Hsh]|[(rc & rest' & -> & Hr) _]].
  2:{ destruct (Hok rc); [|done]. rewrite Hsplit. apply elem_of_app. right. by left. }
  rewrite app_nil_r in Hsplit. subst filled. split.
  - rewrite (iter_rows_dom _ _ Hd). intros r c Hin.
    rewrite Hv, bool_decide_eq_true_2 by done.
    apply fill_value_clean. by apply Hcells.
  - unfold shape_texts in *. rewrite Hsh.
    destruct (shapes ws) as [shs|]; [|by intros s ?%elem_of_nil].
    cbn [fmap option_fmap option_map default from_option id] in *.
    intros s Hin. apply shape_texts_fill in Hin as (s0 & Hs0 & ->).
    by apply fill_clean, Hshapes.
Qed.

(** *** Scanning *)

Lemma scan_cells_elem (ws : worksheet) (coords : list (nat * nat)) : forall (acc : gset text) (name : text),
  name ∈ foldl (fun acc '(r, c) =>
                  match str_value (cell_value ws r c) with
                  | Some s => acc ∪ list_to_set (findall placeholders_pattern s)
                  | None => acc
                  end) acc coords
  <-> name ∈ acc \/ exists r c s, (r, c) ∈ coords /\ str_value (cell_value ws r c) = Some s
                      /\ name ∈ findall placeholders_pattern s.
Proof.
  induction coords as [|[r0 c0] coords IH]; intros acc name; simpl.
  - split; [by left|]. intros [H|(r & c & s & ?%elem_of_nil & _)]; done.
  - rewrite IH. split.
    + intros [H|(r & c & s & Hin & Hs & Hn)].
      * destruct (str_value (cell_value ws r0 c0)) as [s|] eqn:E; [|by left].
        apply elem_of_union in H as [H|H%elem_of_list_to_set]; [by left|].
        right. exists r0, c0, s. split; [by left|done].
      * right. exists r, c, s. split; [by right|done].
    + intros [H|(r & c & s & [[= -> ->]|Hin]%elem_of_cons & Hs & Hn)].
      * left. destruct (str_value _); [|done]. apply elem_of_union. by left.
      * left. rewrite Hs. apply elem_of_union. right. by apply elem_of_list_to_set.
      * right. eauto 10.
Qed.

Lemma scan_texts_elem (texts : list text) : forall (acc : gset text) (name : text),
  name ∈ foldl (fun acc s => acc ∪ list_to_set (findall placeholders_pattern s)) acc texts
  <-> name ∈ acc \/ exists s, s ∈ texts /\ name ∈ findall placeholders_pattern s.
Proof.
  induction texts as [|t texts IH]; intros acc name; simpl.
  - split; [by left|]. intros [H|(s & ?%elem_of_nil & _)]; done.
  - rewrite IH, elem_of_union, elem_of_list_to_set. split.
    + intros [[H|H]|(s & Hin & Hn)]; [by left|right; exists t|right; exists s].
      * split; [by left|done].
      * split; [by right|done].
    + intros [H|(s & [->|Hin]%elem_of_cons & Hn)]; [by left; left|by left; right|].
      right. eauto.
Qed.

Lemma scan_sheet_elem (ws : worksheet) (acc : gset text) (name : text) :
  name ∈ scan_sheet ws acc
  <-> name ∈ acc
      \/ (exists r c s, (r, c) ∈ iter_rows ws /\ str_value (cell_value ws r c) = Some s
                        /\ name ∈ findall placeholders_pattern s)
      \/ (exists s, s ∈ shape_texts ws /\ name ∈ findall placeholders_pattern s).
Proof. unfold scan_sheet. rewrite scan_texts_elem, scan_cells_elem. tauto. Qed.

Lemma scan_wb_elem (wb : workbook) : forall (acc : gset text) (name : text),
  name ∈ foldl (fun acc '(_, ws) => scan_sheet ws acc) acc wb
  <-> name ∈ acc \/ exists n ws, (n, ws) ∈ wb /\ name ∈ scan_sheet ws ∅.
Proof.
  induction wb as [|[n0 ws0] wb IH]; intros acc name; simpl.
  - split; [by left|]. intros [H|(n & ws & ?%elem_of_nil & _)]; done.
  - rewrite IH, !scan_sheet_elem. split.
    + intros [[H|H]|(n & ws & Hin & Hn)]; [by left| |].
      * right. exists n0, ws0. split; [by left|]. apply scan_sheet_elem. by right.
      * right. exists n, ws. split; [by right|done].
    + intros [H|(n & ws & [[= -> ->]|Hin]%elem_of_cons & Hn)]; [by left; left| |].
      * apply scan_sheet_elem in Hn as [?%elem_of_empty|Hn]; [done|]. by left; right.
      * right. eauto.
Qed.

Lemma sheet_clean_scan (ws : worksheet) (name : text) : sheet_clean ws -> name ∉ scan_sheet ws ∅.
Proof.
  intros [Hc Hs]. rewrite scan_sheet_elem.
  intros [?%elem_of_empty|[(r & c & s & Hin & Hv & Hn)|(s & Hin & Hn)]]; [done| |].
  - rewrite clean_findall in Hn; [by apply elem_of_nil in Hn|]. by apply (Hc r c).
  - rewrite clean_findall in Hn; [by apply elem_of_nil in Hn|]. by apply Hs.
Qed.

(** *** The workbook *)

Lemma create_filled_template_spec (wb : workbook) :
  exists total,
    create_filled_template wb data_dict =
    (FillOk total,
     Some ((fun '(name, ws) =>
              (name, _apply_page_setup (fst (replace_placeholders_in_sheet ws data_dict))))
           <$> wb)).
Proof.
  unfold create_filled_template.
  enough (forall done total, exists total',
    foldl (fun '(done, total) '(name, ws) =>
             let '(ws', replacements) := replace_placeholders_in_sheet ws data_dict in
             (done ++ [(name, _apply_page_setup ws')], total + replacements)) (done, total) wb
    = (done ++ ((fun '(name, ws) =>
                   (name, _apply_page_setup (fst (replace_placeholders_in_sheet ws data_dict))))
                <$> wb),
       total')) as H.
  { destruct (H [] 0) as [total' ->]. by exists total'. }
  induction wb as [|[name ws] wb IH]; intros done total; simpl.
  - exists total. by rewrite app_nil_r.
  - destruct (replace_placeholders_in_sheet ws data_dict) as [ws' n] eqn:E.
    destruct (IH (done ++ [(name, _apply_page_setup ws')]) (total + n)) as [total' ->].
    exists total'. by rewrite <- (assoc_L (++)).
Qed.

Lemma apply_page_setup_clean ws : sheet_clean ws -> sheet_clean (_apply_page_setup ws).
Proof. done. Qed.

Lemma round_trip (wb : workbook) :
  (forall name : text, name ∈ scan_template_placeholders wb ->
     exists v, data_dict !! name = Some v /\ "["%char ∉ py_str v) ->
  (forall n ws rc, (n, ws) ∈ wb -> rc ∈ iter_rows ws ->
     ~ refused_at (fill_text data_dict) ws rc) ->
  exists total wb',
    create_filled_template wb data_dict = (FillOk total, Some wb')
    /\ scan_template_placeholders wb' = [].
Proof.
  intros Hcov Hok. destruct (create_filled_template_spec wb) as [total ->].
  eexists _, _. split; [done|].
  apply sorted_set_empty. intros name.
  rewrite scan_wb_elem. intros [?%elem_of_empty|(n & ws' & Hin & Hn)]; [done|].
  apply list_elem_of_fmap in Hin as ([n0 ws] & [= -> ->] & Hin).
  revert Hn. apply sheet_clean_scan, apply_page_setup_clean.
  destruct (replace_placeholders_in_sheet ws data_dict) as [ws' k] eqn:E.
  eapply replace_sheet_clean; [exact E| |intros rc Hrc; by apply (Hok n0 ws)].
  split.
  - intros r c Hrc s Hs nm Hnm. apply Hcov.
    apply elem_of_sorted_set, scan_wb_elem. right. exists n0, ws. split; [done|].
    apply scan_sheet_elem. right. left. eauto 10.
  - intros s Hs nm Hnm. apply Hcov.
    apply elem_of_sorted_set, scan_wb_elem. right. exists n0, ws. split; [done|].
    apply scan_sheet_elem. right. right. eauto.
Qed.
End RoundTrip.
End TemplateManagerFacts.

(** C3 as stated fails.  A value that holds a placeholder leaves one in the
    filled workbook; the curly-brace fill replaces nothing; and a value
    with a control character is refused by its cell, which ends the fill
    of the sheet and leaves the placeholders that follow. *)
Lemma template_round_trip_counterexample :
  (TemplateManager.scan_template_placeholders (one_cell_workbook "[A]") = ["A"%t]
   /\ is_Some (data_sq !! "A"%t)
   /\ exists wb',
        TemplateManager.create_filled_template (one_cell_workbook "[A]") data_sq
        = (FillOk 1, Some wb')
        /\ TemplateManager.scan_template_placeholders wb' = ["B"%t])
  /\ (NikeTemplateManager.scan_template_placeholders (one_cell_workbook "{A}") None = ["A"%t]
   /\ is_Some (data_cu !! "A"%t)
   /\ exists wb',
        NikeTemplateManager.create_filled_template (one_cell_workbook "{A}") data_cu None
        = (FillOk 0, Some wb')
        /\ NikeTemplateManager.scan_template_placeholders wb' None = ["A"%t])
  /\ (TemplateManager.scan_template_placeholders (two_cell_workbook "[B]" "[C]")
      = ["B"; "C"]%t
   /\ is_Some (data_ctl !! "B"%t) /\ is_Some (data_ctl !! "C"%t)
   /\ exists wb',
        TemplateManager.create_filled_template (two_cell_workbook "[B]" "[C]") data_ctl
        = (FillOk 0, Some wb')
        /\ TemplateManager.scan_template_placeholders wb' = ["B"; "C"]%t).
Proof.
  split; [|split].
  - split; [by vm_compute|]. split; [by eexists|].
    eexists. split; [by vm_compute|]. by vm_compute.
  - split; [by vm_compute|]. split; [by eexists|].
    eexists. split; [by vm_compute|]. by vm_compute.
  - split; [by vm_compute|]. split; [by eexists|]. split; [by eexists|].
    eexists. split; [by vm_compute|]. by vm_compute.
Qed.

(** C3 (template round trip), amended: for the square-bracket templates, when
    the data supply a value for every scanned placeholder, the string
    form of no such value holds an opening bracket, and no cell refuses
    its filled text (no filled text that differs from the text of its cell
    has a control character among its first 32767 characters), the fill
    succeeds and a rescan of the filled workbook finds no placeholder. *)
Theorem template_round_trip_square_brackets (wb : workbook) (data_dict : gmap text value) :
  (forall name : text, name ∈ TemplateManager.scan_template_placeholders wb ->
     exists v, data_dict !! name = Some v /\ "["%char ∉ py_str v) ->
  (forall n ws rc, (n, ws) ∈ wb -> rc ∈ iter_rows ws ->
     ~ refused_at (fill_text data_dict) ws rc) ->
  exists total wb',
    TemplateManager.create_filled_template wb data_dict = (FillOk total, Some wb')
    /\ TemplateManager.scan_template_placeholders wb' = [].
Proof. apply TemplateManagerFacts.round_trip. Qed.

Lemma template_round_trip_square_brackets_witness :
  exists total wb',
    TemplateManager.create_filled_template
      (one_cell_workbook "No. [Invoice Number], [Total Cartons] cartons") data_ok
    = (FillOk total, Some wb')
    /\ TemplateManager.scan_template_placeholders wb' = [].
Proof.
  apply template_round_trip_square_brackets.
  - intros name Hin.
    assert (TemplateManager.scan_template_placeholders
              (one_cell_workbook "No. [Invoice Number], [Total Cartons] cartons")
            = ["Invoice Number"; "Total Cartons"]%t) as Hscan by (by vm_compute).
    rewrite Hscan in Hin.
    apply elem_of_cons in Hin as [->|Hin].
    + exists (VStr "A1234567"%t). split; [by vm_compute|].
      apply (bool_decide_unpack _). by vm_compute.
    + apply list_elem_of_singleton in Hin as ->.
      exists (VInt 12). split; [by vm_compute|].
      apply (bool_decide_unpack _). by vm_compute.
  - intros n ws rc [= -> ->]%list_elem_of_singleton Hrc.
    assert (iter_rows (new_sheet {[ (1, 1) := VStr "No. [Invoice Number], [Total Cartons] cartons"%t ]})
            = [(1, 1)]) as Hrows by (vm_compute; reflexivity).
    rewrite Hrows in Hrc. apply list_elem_of_singleton in Hrc as ->.
    apply (bool_decide_unpack _). vm_compute. reflexivity.
Defined.

(** * The Nike fill *)

Module NikeFacts.
Import NikeTemplateManager.

Lemma preserve_loop_unchanged data_dict coords ws n :
  exists e, preserve_loop data_dict coords ws n = (ws, n, e).
Proof.
  induction coords as [|[r c] coords IH]; simpl; [by eexists|].
  destruct (str_value _); [|done]. destruct (contains _ _); [|done]. by eexists.
Qed.

Lemma preserve_format_unchanged ws data_dict :
  replace_placeholders_in_sheet_preserve_format ws data_dict = (ws, 0).
Proof.
  unfold replace_placeholders_in_sheet_preserve_format.
  by destruct (preserve_loop_unchanged data_dict (iter_rows ws) ws 0) as [e ->].
Qed.

Lemma get_sheet_ok (wb : workbook) (name : text) :
  name ∈ sheetnames wb -> exists ws, get_sheet wb name = Ok ws.
Proof.
  induction wb as [|[n ws] wb IH]; simpl; [by intros ?%elem_of_nil|].
  intros [->|Hin]%elem_of_cons; destruct (decide _); eauto; done.
Qed.

Lemma set_sheet_same (wb : workbook) (name : text) ws :
  get_sheet wb name = Ok ws -> set_sheet wb name ws = wb.
Proof.
  induction wb as [|[n ws0] wb IH]; simpl; [done|].
  destruct (decide _); [by intros [= ->]|]. intros H. by rewrite IH.
Qed.

Lemma process_sheets_unchanged data_dict sheets (wb : workbook) total :
  (forall s : text, s ∈ sheets -> s ∈ sheetnames wb) ->
  process_sheets data_dict sheets wb total = Ok (wb, total).
Proof.
  revert total. induction sheets as [|sheet sheets IH]; intros total Hsub; simpl; [done|].
  destruct (get_sheet_ok wb sheet) as [ws Hws]; [apply Hsub; by left|].
  rewrite Hws. simpl. rewrite preserve_format_unchanged, (set_sheet_same _ _ _ Hws).
  rewrite IH; [by rewrite Nat.add_0_r|]. intros s Hs. apply Hsub. by right.
Qed.

Lemma names_sheet_elem (wb : workbook) sheet_name (s : text) :
  names_sheet wb sheet_name = Some s -> s ∈ sheetnames wb.
Proof.
  unfold names_sheet. destruct sheet_name as [[|x t]|]; try done.
  case_bool_decide; [|done]. by intros [= <-].
Qed.

Lemma names_sheet_unknown (wb : workbook) (sheet_name : text) :
  sheet_name ∉ sheetnames wb -> names_sheet wb (Some sheet_name) = None.
Proof.
  intros H. unfold names_sheet. destruct sheet_name as [|x t]; [done|].
  by rewrite bool_decide_eq_false_2.
Qed.

(** With the method lookup failing, the fill leaves every sheet as it was
    and reports success with no replacement. *)
Lemma create_filled_template_unchanged (wb : workbook) data_dict sheet_name :
  create_filled_template wb data_dict sheet_name = (FillOk 0, Some wb).
Proof.
  unfold create_filled_template. rewrite process_sheets_unchanged; [done|].
  intros s. unfold sheets_to_process.
  destruct (names_sheet wb sheet_name) as [s'|] eqn:E.
  - intros ->%list_elem_of_singleton. by eapply names_sheet_elem.
  - by intros [_ ?]%list_elem_of_filter.
Qed.

End NikeFacts.

(** C10 (unknown sheet name): with a sheet name that is not in the workbook,
    the Nike fill processes every sheet except "Data", exactly as with no
    sheet name, and reports success; the Nike scan reads every sheet,
    exactly as with no sheet name. *)
Theorem unknown_sheet_name_falls_back (wb : workbook) (data_dict : gmap text value)
    (sheet_name : text) :
  sheet_name ∉ sheetnames wb ->
  NikeTemplateManager.sheets_to_process wb (Some sheet_name)
    = filter (fun s => s <> "Data"%t) (sheetnames wb)
  /\ NikeTemplateManager.create_filled_template wb data_dict (Some sheet_name)
     = NikeTemplateManager.create_filled_template wb data_dict None
  /\ (exists total wb',
        NikeTemplateManager.create_filled_template wb data_dict (Some sheet_name)
        = (FillOk total, Some wb'))
  /\ NikeTemplateManager.sheets_to_scan wb (Some sheet_name) = sheetnames wb
  /\ NikeTemplateManager.scan_template_placeholders wb (Some sheet_name)
     = NikeTemplateManager.scan_template_placeholders wb None.
Proof.
  intros H.
  assert (NikeTemplateManager.sheets_to_process wb (Some sheet_name)
          = NikeTemplateManager.sheets_to_process wb None) as Hp.
  { unfold NikeTemplateManager.sheets_to_process.
    by rewrite NikeFacts.names_sheet_unknown. }
  assert (NikeTemplateManager.sheets_to_scan wb (Some sheet_name)
          = NikeTemplateManager.sheets_to_scan wb None) as Hs.
  { unfold NikeTemplateManager.sheets_to_scan.
    by rewrite NikeFacts.names_sheet_unknown. }
  split; [by rewrite Hp|]. split.
  { unfold NikeTemplateManager.create_filled_template. by rewrite Hp. }
  split.
  { rewrite NikeFacts.create_filled_template_unchanged. by eexists _, _. }
  split; [by rewrite Hs|].
  unfold NikeTemplateManager.scan_template_placeholders. by rewrite Hs.
Qed.

Lemma unknown_sheet_name_falls_back_witness :
  ("Summary"%t ∉ sheetnames form_and_data)
  /\ NikeTemplateManager.sheets_to_process form_and_data (Some "Summary"%t) = ["Form"%t]
  /\ NikeTemplateManager.scan_template_placeholders form_and_data (Some "Summary"%t)
     = ["Date"; "Invoice Number"]%t.
Proof.
  assert ("Summary"%t ∉ sheetnames form_and_data) as H.
  { apply (bool_decide_unpack _). by vm_compute. }
  destruct (unknown_sheet_name_falls_back form_and_data ∅ "Summary"%t H)
    as (Hp & _ & _ & _ & Hs).
  split; [exact H|]. split.
  - etransitivity; [exact Hp|reflexivity].
  - etransitivity; [exact Hs|reflexivity].
Defined.

(** * Substrings *)

Lemma starts_with_spec (p s : text) : starts_with p s = true <-> exists b, s = p ++ b.
Proof.
  revert s. induction p as [|a p IH]; intros s; simpl.
  - split; [by exists s|done].
  - destruct s as [|b s].
    + split; [done|]. by intros [? ?].
    + rewrite andb_true_iff, IH, Ascii.eqb_eq. split.
      * intros [-> [t ->]]. by exists t.
      * intros [t [= -> ->]]. eauto.
Qed.

Lemma contains_spec (p s : text) : contains p s = true <-> exists a b, s = a ++ p ++ b.
Proof.
  induction s as [|x s IH]; simpl.
  - rewrite orb_false_r, starts_with_spec. split.
    + intros [b Hb]. by exists [], b.
    + intros (a & b & H). destruct a; [by exists b|done].
  - rewrite orb_true_iff, starts_with_spec, IH. split.
    + intros [[b Hb]|(a & b & ->)]; [by exists [], b|by exists (x :: a), b].
    + intros ([|y a] & b & H); [left; by exists b|].
      injection H as -> ->. right. eauto.
Qed.

Lemma contains_trans (p q s : text) :
  contains q p = true -> contains p s = true -> contains q s = true.
Proof.
  rewrite !contains_spec. intros (a & b & ->) (a' & b' & ->).
  exists (a' ++ a), (b ++ b'). by rewrite <- !(assoc_L (++)).
Qed.

(** * Description canonicalization *)

(** C8, the code at the failing input: a description whose cleaned text is
    "SCULL CAP" is mapped to "CAP", not to "SKULL CAP". *)
Theorem clean_desc_scull_cap :
  clean_text "SCULL CAP"%t = "SCULL CAP"%t /\ _clean_desc "SCULL CAP"%t = "CAP"%t.
Proof. by vm_compute. Qed.

(** The key "CAP" comes before "SCULL CAP" and occurs in it, so the
    branch of "SCULL CAP" is never taken: a cleaned text that holds
    "SCULL CAP" is mapped to "SKULL CAP" only when it also holds that
    very text, and else to "HAT" or "CAP". *)
Lemma map_product_scull_cap (d : text) :
  contains "SCULL CAP"%t d = true ->
  map_product product_keys d =
    if contains "SKULL CAP"%t d then "SKULL CAP"%t
    else if contains "HAT"%t d then "HAT"%t else "CAP"%t.
Proof.
  intros H. assert (contains "CAP"%t d = true) as Hcap.
  { eapply contains_trans; [|exact H]. by vm_compute. }
  unfold product_keys. cbn [map_product].
  destruct (contains "SKULL CAP"%t d); [done|].
  destruct (contains "HAT"%t d); [done|]. by rewrite Hcap.
Qed.

Lemma clean_desc_scull_cap_general (d : text) :
  contains "SCULL CAP"%t (clean_text d) = true ->
  contains "SKULL CAP"%t (clean_text d) = false ->
  _clean_desc d <> "SKULL CAP"%t.
Proof.
  intros H1 H2. unfold _clean_desc. rewrite map_product_scull_cap, H2 by done.
  by destruct (contains "HAT"%t _).
Qed.

(** * Destination resolver *)

Lemma find_country_foldl (pre : text) (names : list text) : forall found : text,
  foldl (fun found name => if is_match (name_pat name) pre then name else found) found names
  = default found (last (filter (matches pre) names)).
Proof.
  induction names as [|n names IH]; intros found; simpl; [done|].
  rewrite IH. rewrite filter_cons. unfold matches at 2.
  destruct (decide _) as [E|E].
  - rewrite E. destruct (filter _ names) as [|y f] eqn:Ef; [reflexivity|].
    change (last (n :: y :: f)) with (last (y :: f)).
    assert (is_Some (last (y :: f))) as [z ->] by (by apply last_is_Some).
    reflexivity.
  - apply not_true_is_false in E. by rewrite E.
Qed.

Lemma last_filter_elem {A} (P : A -> Prop) `{!forall x, Decision (P x)} (l : list A) y :
  last (filter P l) = Some y -> exists k, l !! k = Some y /\ P y.
Proof.
  intros Hl. assert (y ∈ filter P l) as [HP Hin]%list_elem_of_filter.
  { apply last_Some in Hl as [l' ->]. apply elem_of_app. right. by left. }
  apply list_elem_of_lookup in Hin as [k Hk]. eauto.
Qed.

Lemma last_filter_after {A} (P : A -> Prop) `{!forall x, Decision (P x)} (l : list A) :
  forall j x, l !! j = Some x -> P x ->
  exists k y, j <= k /\ l !! k = Some y /\ last (filter P l) = Some y.
Proof.
  induction l as [|a l IH]; intros j x Hj HP; [done|].
  rewrite filter_cons. destruct j as [|j]; simpl in Hj.
  - injection Hj as ->. rewrite decide_True by done.
    destruct (last (filter P l)) as [y|] eqn:E.
    + pose proof E as [k [Hk _]]%last_filter_elem.
      exists (S k), y. split; [lia|]. split; [done|].
      rewrite last_cons. by rewrite E.
    + exists 0, x. split; [done|]. split; [done|]. rewrite last_cons. by rewrite E.
  - destruct (IH j x Hj HP) as (k & y & Hk & Hy & Hl).
    exists (S k), y. split; [lia|]. split; [done|].
    destruct (decide (P a)); [|done]. rewrite last_cons. by rewrite Hl.
Qed.

Lemma country_names_nonempty (name : text) : name ∈ COUNTRY_SIMPLE -> name <> [].
Proof.
  assert (Forall (fun n : text => n <> []) COUNTRY_SIMPLE) as H.
  { unfold COUNTRY_SIMPLE. repeat constructor; done. }
  rewrite Forall_forall in H. apply H.
Qed.

(** C5 (destination tie-break): on the marks before the label "Country Of
    Origin", the resolver returns, normalized, the last entry of the country
    list that matches; so when two entries of the list match, the result is
    the entry at the later position or one after it, wherever they stand in
    the text. *)
Theorem dest_from_marks_last_match (marks name : text) :
  marks <> [] ->
  last (filter (matches (marks_prefix marks)) COUNTRY_SIMPLE) = Some name ->
  dest_from_marks marks = clean_long_country_name name
  /\ (forall i j (n1 n2 : text), i < j ->
        COUNTRY_SIMPLE !! i = Some n1 -> COUNTRY_SIMPLE !! j = Some n2 ->
        matches (marks_prefix marks) n1 -> matches (marks_prefix marks) n2 ->
        exists k, j <= k /\ COUNTRY_SIMPLE !! k = Some name).
Proof.
  intros Hm Hlast. split.
  - unfold dest_from_marks. destruct marks as [|x marks]; [done|].
    unfold find_country. rewrite find_country_foldl, Hlast. simpl.
    apply last_filter_elem in Hlast as [k [Hk _]].
    assert (name <> []) as Hne.
    { apply country_names_nonempty. by eapply list_elem_of_lookup_2. }
    by destruct name.
  - intros i j n1 n2 Hij Hi Hj H1 H2.
    destruct (last_filter_after (matches (marks_prefix marks)) _ j n2 Hj H2)
      as (k & y & Hk & Hy & Hl).
    rewrite Hlast in Hl. injection Hl as ->. eauto.
Qed.

Lemma dest_from_marks_last_match_witness :
  marks_prefix marks_ex = "NIKE Vietnam 1234567 Canada "%t
  /\ COUNTRY_SIMPLE !! 0 = Some "Canada"%t
  /\ COUNTRY_SIMPLE !! 25 = Some "Vietnam"%t
  /\ dest_from_marks marks_ex = "Vietnam"%t.
Proof.
  split; [by vm_compute|]. split; [done|]. split; [done|].
  assert (marks_ex <> []) as H1 by done.
  assert (last (filter (matches (marks_prefix marks_ex)) COUNTRY_SIMPLE) = Some "Vietnam"%t)
    as H2 by (by vm_compute).
  destruct (dest_from_marks_last_match marks_ex "Vietnam"%t H1 H2) as [H _].
  etransitivity; [exact H|]. by vm_compute.
Defined.

(** * Cells *)

Lemma cell_spec ws r c ws' :
  cell ws r c = Ok ws' ->
  1 <= r /\ 1 <= c /\ forall r' c', cell_value ws' r' c' = cell_value ws r' c'.
Proof.
  unfold cell. destruct (r <? 1) eqn:Er; [done|]. destruct (c <? 1) eqn:Ec; [done|].
  apply Nat.ltb_ge in Er, Ec. simpl. intros [= <-]. split; [done|]. split; [done|].
  intros r' c'. destruct (cells ws !! (r, c)) eqn:E; [done|].
  unfold cell_value. simpl.
  destruct (decide ((r, c) = (r', c'))) as [<-|Hne].
  - by rewrite lookup_insert_eq, E.
  - by rewrite lookup_insert_ne.
Qed.

Lemma read_spec ws r c ws' v :
  read ws r c = Ok (ws', v) ->
  v = cell_value ws r c /\ forall r' c', cell_value ws' r' c' = cell_value ws r' c'.
Proof.
  unfold read. destruct (cell ws r c) as [ws1|] eqn:E; [|done].
  apply cell_spec in E as (_ & _ & E). simpl. intros [= <- <-]. by rewrite E.
Qed.

(** The cell holds the value as it was bound: a string cut at 32767
    characters. *)
Lemma write_spec ws r c v ws' :
  write ws r c v = Ok ws' ->
  bind_value v = Ok (cell_value ws' r c)
  /\ forall r' c', (r', c') <> (r, c) -> cell_value ws' r' c' = cell_value ws r' c'.
Proof.
  unfold write. destruct (cell ws r c) as [ws1|] eqn:E; [|done].
  apply cell_spec in E as (_ & _ & E). cbn [mbind result_bind].
  destruct (bind_value v) as [v'|] eqn:Ev; [|done]. cbn [mbind result_bind].
  intros [= <-]. unfold cell_value. cbn [cells].
  split; [by rewrite lookup_insert_eq|].
  intros r' c' Hne. rewrite lookup_insert_ne by done. apply E.
Qed.

Module HeaderFacts.
Import NikeTemplateManager.

(** * Header column mapper *)

Lemma header_loop_spec header_row (key : text) columns : forall ws header ws' header',
  header_loop header_row columns ws header = Ok (ws', header') ->
  header' !! key
  = match last (filter (header_cell ws header_row key) columns) with
    | Some c => Some c
    | None => header !! key
    end.
Proof.
  induction columns as [|c columns IH]; intros ws header ws' header'; simpl.
  - by intros [= <- <-].
  - destruct (read ws header_row c) as [[ws1 raw]|] eqn:E; [|done]. simpl.
    apply read_spec in E as [-> Hsame].
    assert (filter (header_cell ws1 header_row key) columns
            = filter (header_cell ws header_row key) columns) as Hf.
    { apply list_filter_iff. intros c'. unfold header_cell. by rewrite !Hsame. }
    rewrite filter_cons.
    destruct (bool_decide (cell_value ws header_row c <> VNone)
              && bool_decide (strip (py_str (cell_value ws header_row c)) <> [])) eqn:Eb.
    + apply andb_true_iff in Eb as [E1%bool_decide_eq_true E2%bool_decide_eq_true].
      intros ->%IH. rewrite Hf.
      destruct (decide (header_cell ws header_row key c)) as [Hc|Hc].
      * destruct Hc as (_ & _ & <-).
        destruct (filter (header_cell ws header_row _) columns) as [|y f] eqn:Ef.
        { rewrite lookup_insert_eq. reflexivity. }
        assert (is_Some (last (y :: f))) as [z Hz] by (by apply last_is_Some).
        change (last (c :: y :: f)) with (last (y :: f)). by rewrite Hz.
      * rewrite lookup_insert_ne; [done|]. intros Hk. apply Hc. by repeat split.
    + intros ->%IH. rewrite Hf. rewrite decide_False; [done|].
      intros (H1 & H2 & _). apply andb_false_iff in Eb as [Eb|Eb];
        apply bool_decide_eq_false in Eb; done.
Qed.

Lemma build_header_spec ws header_row ws' header (key : text) :
  build_header ws header_row = Ok (ws', header) ->
  header !! key = last (filter (header_cell ws header_row key) (seq 1 (max_column ws))).
Proof.
  unfold build_header. intros ->%(header_loop_spec _ key).
  rewrite lookup_empty. by destruct (last _).
Qed.

End HeaderFacts.

Import NikeTemplateManager HeaderFacts.

(** C7 (duplicate header keys), amended: the key→column map binds a key to
    the last (rightmost) column of the header row whose non-empty cell
    normalizes to it; when two columns do, the key is bound to the second
    of them or to a later one. *)
Theorem build_header_last_occurrence_wins (ws ws' : worksheet) (header_row : nat)
    (header : gmap text nat) (key : text) :
  build_header ws header_row = Ok (ws', header) ->
  header !! key = last (filter (header_cell ws header_row key) (seq 1 (max_column ws)))
  /\ (forall c1 c2, 1 <= c1 -> c1 < c2 -> c2 <= max_column ws ->
        header_cell ws header_row key c1 -> header_cell ws header_row key c2 ->
        exists c, c2 <= c /\ header !! key = Some c).
Proof.
  intros H. pose proof (build_header_spec _ _ _ _ key H) as Hk. split; [done|].
  intros c1 c2 H1 H12 H2 Hc1 Hc2.
  destruct (last_filter_after (header_cell ws header_row key) (seq 1 (max_column ws))
              (c2 - 1) c2) as (k & y & Hky & Hy & Hl); [|done|].
  - rewrite lookup_seq. split; [lia|lia].
  - apply lookup_seq in Hy as [-> _]. exists (1 + k). split; [lia|]. by rewrite Hk.
Qed.

Lemma build_header_last_occurrence_wins_witness :
  build_header data_sheet 7 = Ok (fst data_sheet_header, snd data_sheet_header)
  /\ header_cell data_sheet 7 "po" 2 /\ header_cell data_sheet 7 "po" 3
  /\ snd data_sheet_header !! "po" = Some 3.
Proof.
  assert (build_header data_sheet 7 = Ok (fst data_sheet_header, snd data_sheet_header))
    as E by (vm_compute; reflexivity).
  split; [exact E|].
  split; [apply (bool_decide_unpack _); vm_compute; exact I|].
  split; [apply (bool_decide_unpack _); vm_compute; exact I|].
  etransitivity; [exact (proj1 (build_header_last_occurrence_wins _ _ _ _ "po" E))|].
  vm_compute. reflexivity.
Defined.

(** C7 as stated fails: "PO" stands in column 2 and "po" in column 3; both
    normalize to "po", and the map binds "po" to column 3, not to the
    first occurrence. *)
Lemma build_header_counterexample :
  header_key (cell_value data_sheet 7 2) = "po"
  /\ header_key (cell_value data_sheet 7 3) = "po"
  /\ match build_header data_sheet 7 with
     | Ok (_, header) => header !! "po" = Some 3 /\ header !! "po" <> Some 2
     | Raise _ => False
     end.
Proof. vm_compute. repeat split; (reflexivity || discriminate). Qed.

Module RowFacts.
Import NikeTemplateManager.

(** * Row-append writer *)

Lemma find_row_spec inv_col inv_key rows : forall ws ws' res,
  find_row inv_col inv_key rows ws = Ok (ws', res) ->
  forall r c, cell_value ws' r c = cell_value ws r c.
Proof.
  induction rows as [|r0 rows IH]; intros ws ws' res; simpl.
  - by intros [= <- <-].
  - destruct (read ws r0 inv_col) as [[ws1 v]|] eqn:E; [|done]. simpl.
    apply read_spec in E as [_ Hsame].
    destruct (_ || _); [by intros [= <- <-]|].
    destruct (decide _); [by intros [= <- <-]|].
    intros H r c. rewrite (IH _ _ _ H). apply Hsame.
Qed.

Lemma find_or_append_row_spec ws inv_col start_row invoice ws' r :
  find_or_append_row ws inv_col start_row invoice = Ok (ws', r) ->
  forall r' c', (r', c') <> (r, inv_col) -> cell_value ws' r' c' = cell_value ws r' c'.
Proof.
  unfold find_or_append_row.
  destruct (find_row _ _ _ ws) as [[ws1 found]|] eqn:E; [|done]. simpl.
  pose proof (find_row_spec _ _ _ _ _ _ E) as Hsame.
  destruct found as [r0|first_empty].
  - intros [= <- <-] r' c' _. apply Hsame.
  - destruct (write ws1 _ inv_col invoice) as [ws2|] eqn:Ew; [|done]. simpl.
    intros [= <- <-] r' c' Hne.
    apply write_spec in Ew as [_ Hw]. rewrite Hw by done. apply Hsame.
Qed.

Lemma setc_spec cols r ws colkey val ws' :
  setc cols r ws colkey val = Ok ws' ->
  forall r' c', cell_value ws' r' c' <> cell_value ws r' c' ->
    r' = r /\ non_empty val = true /\ cols !! colkey = Some c'.
Proof.
  unfold setc. destruct (non_empty val) eqn:E; [|by intros [= <-]].
  unfold col. destruct (cols !! colkey) as [c|] eqn:Ec; [|done]. simpl.
  intros [_ Hw]%write_spec r' c' Hne.
  destruct (decide ((r', c') = (r, c))) as [[= -> ->]|Hd]; [done|].
  by rewrite Hw in Hne.
Qed.

Lemma setc_all_spec cols r calls : forall ws ws',
  setc_all cols r calls ws = Ok ws' ->
  forall r' c', cell_value ws' r' c' <> cell_value ws r' c' ->
    r' = r /\ exists colkey val, (colkey, val) ∈ calls /\ non_empty val = true
                                 /\ cols !! colkey = Some c'.
Proof.
  induction calls as [|[colkey val] calls IH]; intros ws ws'; simpl.
  - by intros [= <-].
  - destruct (setc cols r ws colkey val) as [ws1|] eqn:E; [|done]. simpl.
    intros H r' c' Hne.
    destruct (decide (cell_value ws' r' c' = cell_value ws1 r' c')) as [Heq|Hd].
    + rewrite Heq in Hne. destruct (setc_spec _ _ _ _ _ _ E _ _ Hne) as (-> & Hv & Hc).
      split; [done|]. exists colkey, val. split; [by left|done].
    + destruct (IH _ _ H _ _ Hd) as (-> & k & v & Hin & Hv & Hc).
      split; [done|]. exists k, v. split; [by right|done].
Qed.

Lemma non_empty_spec v : non_empty v = true <-> v <> VNone /\ v <> VStr [].
Proof. unfold non_empty. apply bool_decide_eq_true. Qed.

End RowFacts.

Import NikeTemplateManager RowFacts.

(** C9 (row-append frame), amended: a write of [fill_excel_row] changes a
    cell only in the target row, and only in the invoice column or in the
    column of a field whose value is neither None nor the empty string;
    so a column of the target row that is not the invoice column and to
    which no field with a non-empty value is mapped keeps its content. *)
Theorem fill_excel_row_frame (ws ws' : worksheet) (cols : gmap text nat) (start_row r : nat)
    (inv : value) (pl_row_dict : gmap text value) (asi_desc dest_override : value) :
  fill_excel_row ws cols start_row inv pl_row_dict asi_desc dest_override = Ok (ws', r) ->
  (forall r' c, cell_value ws' r' c <> cell_value ws r' c ->
     r' = r
     /\ (cols !! "inv"%t = Some c
         \/ exists colkey val,
              (colkey, val) ∈ setc_calls pl_row_dict asi_desc dest_override
              /\ val <> VNone /\ val <> VStr [] /\ cols !! colkey = Some c))
  /\ (forall c, cols !! "inv"%t <> Some c ->
        (forall colkey val, (colkey, val) ∈ setc_calls pl_row_dict asi_desc dest_override ->
           cols !! colkey = Some c -> val = VNone \/ val = VStr []) ->
        cell_value ws' r c = cell_value ws r c).
Proof.
  unfold fill_excel_row, col.
  destruct (cols !! "inv"%t) as [inv_col|] eqn:Einv; [|done].
  intros H. cbn [mbind result_bind] in H.
  destruct (find_or_append_row ws inv_col start_row inv) as [[ws1 r1]|] eqn:E1; [|done].
  cbn [mbind result_bind] in H.
  destruct (setc_all cols r1 _ ws1) as [ws2|] eqn:E2; [|done].
  cbn [mbind result_bind] in H.
  injection H as <- <-.
  assert (forall r' c, cell_value ws2 r' c <> cell_value ws r' c ->
     r' = r1
     /\ (Some inv_col = Some c
         \/ exists colkey val,
              (colkey, val) ∈ setc_calls pl_row_dict asi_desc dest_override
              /\ val <> VNone /\ val <> VStr [] /\ cols !! colkey = Some c)) as Hframe.
  { intros r' c Hne.
    destruct (decide (cell_value ws2 r' c = cell_value ws1 r' c)) as [Heq|Hd].
    - rewrite Heq in Hne.
      destruct (decide ((r', c) = (r1, inv_col))) as [[= -> ->]|Hd]; [by split; [|left]|].
      by rewrite (find_or_append_row_spec _ _ _ _ _ _ E1) in Hne.
    - destruct (setc_all_spec _ _ _ _ _ E2 _ _ Hd) as (-> & k & v & Hin & Hv & Hc).
      apply non_empty_spec in Hv as [Hv1 Hv2].
      split; [done|]. right. exists k, v. done. }
  split; [exact Hframe|].
  intros c Hinv Hempty.
  destruct (decide (cell_value ws2 r1 c = cell_value ws r1 c)) as [|Hne]; [done|].
  destruct (Hframe _ _ Hne) as [_ [Hc|(k & v & Hin & Hv1 & Hv2 & Hc)]]; [done|].
  by destruct (Hempty k v Hin Hc).
Qed.

Lemma fill_excel_row_frame_witness :
  fill_excel_row data_sheet cols_example 8 (VStr "A1234567") pl_example VNone VNone
    = Ok (fst data_sheet_filled, 8)
  /\ dict_get pl_example "Date" = VStr []
  /\ cell_value (fst data_sheet_filled) 8 2 = cell_value data_sheet 8 2.
Proof.
  assert (fill_excel_row data_sheet cols_example 8 (VStr "A1234567") pl_example VNone VNone
          = Ok (fst data_sheet_filled, 8)) as E by (vm_compute; reflexivity).
  split; [exact E|]. split; [vm_compute; reflexivity|].
  apply (proj2 (fill_excel_row_frame _ _ _ _ _ _ _ _ _ E)).
  - vm_compute. discriminate.
  - intros colkey val Hin. unfold setc_calls in Hin.
    assert (truthy (dict_get pl_example "DEST") = false) as Hd by (vm_compute; reflexivity).
    rewrite Hd in Hin. cbn [truthy fmap list_fmap pl_columns app] in Hin.
    repeat (apply elem_of_cons in Hin as [[= -> ->]|Hin];
            [vm_compute; (discriminate || auto)|]).
    by apply elem_of_nil in Hin.
Defined.

(** C9 as stated fails.  The header row of [po_sheet] names no date, so
    the date takes its default column 2, the column of the header "PO";
    the date of the record is empty, and the cell of its column in the
    target row is overwritten all the same, by the PO. *)
Lemma fill_excel_row_counterexample :
  dict_get pl_example "Date" = VStr []
  /\ match build_header_map_and_get_cols po_sheet 7 with
     | Ok (ws1, cols) =>
         cols !! "date" = Some 2
         /\ cell_value ws1 8 2 = VStr "01/01/2024"
         /\ match fill_excel_row ws1 cols 8 (VStr "A1234567") pl_example VNone VNone with
            | Ok (ws', r) => r = 8 /\ cell_value ws' 8 2 = VStr "7654321"
            | Raise _ => False
            end
     | Raise _ => False
     end.
Proof. vm_compute. repeat split; reflexivity. Qed.

(** * Searching *)

Lemma search_from_Some r : forall l s mo,
  search_from r s l = Some mo ->
  exists a b, l = a ++ b /\ is_Some (match_at r (steps a s) b).
Proof.
  induction l as [|c l IH]; intros s mo; simpl.
  - destruct (match_at r s []) as [[e l']|] eqn:E; [|done].
    intros _. exists [], []. split; [done|]. simpl. by rewrite E.
  - destruct (match_at r s (c :: l)) as [[e l']|] eqn:E.
    + intros _. exists [], (c :: l). split; [done|]. simpl. by rewrite E.
    + intros (a & b & -> & H)%IH. by exists (c :: a), b.
Qed.

Lemma search_from_found r a : forall s b,
  is_Some (match_at r (steps a s) b) -> is_Some (search_from r s (a ++ b)).
Proof.
  induction a as [|c a IH]; intros s b H; simpl in *.
  - destruct b; simpl; destruct (match_at r s _) as [[e l']|]; try done; by destruct H.
  - destruct (match_at r s (c :: a ++ b)) as [[e l']|]; [done|]. by apply IH.
Qed.

Lemma is_match_occurs r (t : text) :
  is_match r t = true <-> exists a b, t = a ++ b /\ is_Some (match_at r (steps a start) b).
Proof.
  unfold is_match, search. rewrite bool_decide_eq_true. split.
  - intros [mo H]. by eapply search_from_Some.
  - intros (a & b & -> & H). by apply search_from_found.
Qed.

(** A literal under IGNORECASE matches the texts with the same lower case. *)
Lemma m_stri_inv (w0 : text) : forall k s l x,
  m (stri w0) k s l = Some x ->
  exists w l', l = w ++ l' /\ lower w = lower w0 /\ k (steps w s) l' = Some x.
Proof.
  induction w0 as [|c w0 IH]; intros k s l x; cbn [stri cat fmap list_fmap foldr m].
  - intros H. by exists [], l.
  - destruct l as [|a l]; [done|]. unfold liti at 1. cbn [m].
    destruct (Ascii.eqb_spec (to_lower a) (to_lower c)) as [Ea|]; [|done].
    intros H. apply (IH k (step a s) l x) in H as (w & l' & -> & Hw & Hk).
    exists (a :: w), l'. split; [done|]. split; [|done].
    unfold lower in *. cbn [fmap list_fmap]. by rewrite Ea, Hw.
Qed.

Lemma m_stri_ok (w0 : text) : forall k s w l',
  lower w = lower w0 -> m (stri w0) k s (w ++ l') = k (steps w s) l'.
Proof.
  induction w0 as [|c w0 IH]; intros k s w l' Hw;
    cbn [stri cat fmap list_fmap foldr m].
  - destruct w; [done|discriminate].
  - destruct w as [|a w]; [discriminate|]. unfold lower in Hw. cbn [fmap list_fmap] in Hw.
    injection Hw as Ha Hw. unfold liti at 1. cbn [m app].
    rewrite Ha, Ascii.eqb_refl. exact (IH k (step a s) w l' Hw).
Qed.

(** * Occurrences in joined words *)

Lemma occurs_app_sep (w x y : text) (sep : ascii) :
  w <> [] -> sep ∉ w -> occurs w (x ++ sep :: y) -> occurs w x \/ occurs w y.
Proof.
  intros Hw Hsep (a & b & H).
  apply app_eq_app in H as [l [[-> H]|[-> H]]].
  - left. symmetry in H. apply app_eq_app in H as [l' [[-> H]|[-> H]]].
    + by exists a, l'.
    + destruct l' as [|z l']; simpl in H.
      * exists a, []. by rewrite !app_nil_r.
      * injection H as -> _. exfalso. apply Hsep.
        apply elem_of_app. right. by left.
  - right. destruct l as [|z l]; simpl in H.
    + destruct w as [|z w]; [done|]. injection H as -> _.
      exfalso. apply Hsep. by left.
    + injection H as -> ->. by exists l, b.
Qed.

Lemma occurs_join (w : text) (ts : list text) :
  w <> [] -> " "%char ∉ w -> occurs w (join " " ts) -> exists t, t ∈ ts /\ occurs w t.
Proof.
  intros Hw Hsp. induction ts as [|p ts IH].
  - intros (a & b & H). simpl in H. destruct a, w; done.
  - destruct ts as [|q ts].
    + intros H. exists p. split; [by left|done].
    + change (join " " (p :: q :: ts)) with (p ++ " "%char :: join " " (q :: ts)).
      intros [H|H]%occurs_app_sep; [| |done..].
      * exists p. split; [by left|done].
      * destruct (IH H) as (t & Hin & Ht). exists t. split; [by right|done].
Qed.

(** * The label "Country Of Origin" *)

Lemma lower_country_no_space (w : text) :
  lower w = lower "Country" -> w <> [] /\ " "%char ∉ w.
Proof.
  intros H. split; [by destruct w|].
  intros Hin. apply (list_elem_of_fmap_2 to_lower) in Hin.
  unfold lower in H. rewrite H in Hin.
  revert Hin. apply (bool_decide_unpack _). by vm_compute.
Qed.

Lemma match_coo_country s (b : text) :
  is_Some (match_at RE_COO s b) -> exists w l', b = w ++ l' /\ lower w = lower "Country".
Proof.
  intros [x H]. unfold match_at, RE_COO in H. cbn [cat foldr m] in H.
  destruct (at_boundary s b); [|done].
  apply m_stri_inv in H as (w & l' & -> & Hw & _). eauto.
Qed.

Lemma match_coo_word s (w l' : text) :
  lower w = lower "Country" -> is_Some (match_at RE_COO_WORD s (w ++ l')).
Proof.
  intros Hw. unfold match_at, RE_COO_WORD. cbn [alt foldl m].
  rewrite (m_stri_ok "Country") by done. by eexists.
Qed.

(** A line that holds the label has a word that holds one of its words, so
    the minimum taken by [extract_marks_by_words] is over a non-empty
    sequence. *)
Lemma coo_line_has_word (line : list word) :
  is_match RE_COO (linetxt line) = true ->
  exists wd, wd ∈ line /\ is_match RE_COO_WORD (w_text wd) = true.
Proof.
  intros (a & b & Hl & (w & l' & -> & Hw)%match_coo_country)%is_match_occurs.
  destruct (lower_country_no_space w Hw) as [Hne Hsp].
  destruct (occurs_join w (w_text <$> line) Hne Hsp) as (t & Hin & a' & b' & ->).
  { by exists a, l'. }
  apply list_elem_of_fmap in Hin as (wd & Hwd & Hin).
  exists wd. split; [done|]. rewrite <- Hwd.
  apply is_match_occurs. exists a', (w ++ b'). split; [done|]. by apply match_coo_word.
Qed.

Lemma find_x_left_ok (lines : list (list word)) : exists x, find_x_left lines = Ok x.
Proof.
  induction lines as [|line lines IH]; simpl; [by eexists|].
  destruct (is_match RE_COO (linetxt line)) eqn:E; [|done].
  apply coo_line_has_word in E as (wd & Hin & Hwd).
  destruct (filter _ line) as [|w0 ws] eqn:Ef.
  - exfalso. assert (wd ∈ filter (fun w => is_match RE_COO_WORD (w_text w)) line) as H.
    { apply list_elem_of_filter. split; [by rewrite Hwd|done]. }
    rewrite Ef in H. by apply elem_of_nil in H.
  - simpl. by eexists.
Qed.

(** [extract_marks] never raises. *)
Lemma extract_marks_ok (pg : page) : exists mk, extract_marks pg = Ok mk.
Proof.
  unfold extract_marks, extract_marks_by_words.
  destruct (default [] (extract_words pg)) as [|w ws]; [by eexists|].
  destruct (find_x_left_ok (group_lines (w :: ws) 2)) as [x ->].
  cbn [mbind result_bind].
  destruct (filter _ _) as [|? ?]; [by eexists|].
  destruct (search RE_MARKS_COO _); [by eexists|].
  destruct (search RE_MARKS_CODE _); by eexists.
Qed.

(** * PL parser *)

Lemma page_marks_step pg st :
  page_marks pg (page_text_fields pg st) = Ok (page_step st pg).
Proof.
  unfold page_marks, page_step, marks_text.
  destruct (extract_marks_ok pg) as [mk ->]. cbn [mbind result_bind]. by destruct mk.
Qed.

Lemma page_loop_fold pages : forall st,
  page_loop pages st = (foldl page_step st pages, None).
Proof.
  induction pages as [|pg pages IH]; intros st; simpl; [done|].
  by rewrite page_marks_step, IH.
Qed.

Lemma parse_pl_fold pages :
  parse_pl (Ok pages) = set_po_values (foldl page_step (PlState init_row [] []) pages).
Proof. unfold parse_pl. by rewrite page_loop_fold. Qed.

(** ** The guarded fields *)

Lemma guarded_fold_other (txt : text) (f : text) (fields : list (text * pat)) : forall r : gmap text text,
  f ∉ fields.*1 ->
  foldl (fun r '(k, pattern) => <[k := or_text (get r k) (grab txt pattern)]> r) r fields !! f
  = r !! f.
Proof.
  induction fields as [|[k p] fields IH]; intros r Hf; simpl; [done|].
  rewrite IH.
  - apply lookup_insert_ne. intros ->. apply Hf. by left.
  - intros Hin. apply Hf. by right.
Qed.


Lemma row_page_text_fields pg st :
  row (page_text_fields pg st) = page_fields pg (row st).
Proof. done. Qed.

Lemma refpo_page_text_fields pg st :
  refpo_hits (page_text_fields pg st) = refpo_hits st ++ findall RE_REFPO (page_txt pg).
Proof. done. Qed.

Lemma po_page_text_fields pg st :
  po_hits (page_text_fields pg st) = po_hits st ++ findall RE_PO_ANY (page_txt pg).
Proof. done. Qed.


(** A field that the text rules do not fill is left as it is. *)
Lemma page_fields_other (pg : page) (r : gmap text text) (f : text) :
  f <> "Invoice Number" -> f <> "Date" -> f ∉ guarded_fields.*1 ->
  page_fields pg r !! f = r !! f.
Proof.
  intros H1 H2 H3. unfold page_fields, page_text_fields. cbn [row].
  rewrite guarded_fold_other by done.
  destruct (match search RE_DATE_NUM _ with Some mo => Some mo | None => _ end);
    destruct (search RE_INVOICE _); rewrite ?lookup_insert_ne; done.
Qed.

Lemma row_page_step st pg :
  row (page_step st pg)
  = match marks_text pg with
    | [] => page_fields pg (row st)
    | mk => <["Marks" := norm mk]> (page_fields pg (row st))
    end.
Proof. unfold page_step. by destruct (marks_text pg). Qed.

Lemma findall_po_nil : findall RE_PO_ANY [] = [].
Proof. by vm_compute. Qed.

Lemma refpo_page_step st pg :
  refpo_hits (page_step st pg) = refpo_hits st ++ findall RE_REFPO (page_txt pg).
Proof. unfold page_step. by destruct (marks_text pg). Qed.

Lemma po_page_step st pg :
  po_hits (page_step st pg)
  = po_hits st ++ findall RE_PO_ANY (page_txt pg) ++ findall RE_PO_ANY (marks_text pg).
Proof.
  unfold page_step. destruct (marks_text pg) eqn:E.
  - by rewrite findall_po_nil, app_nil_r.
  - cbn [po_hits]. by rewrite po_page_text_fields, <- (assoc_L (++)).
Qed.

Lemma refpo_foldl pages : forall st,
  refpo_hits (foldl page_step st pages) = refpo_hits st ++ refpo_candidates pages.
Proof.
  induction pages as [|pg pages IH]; intros st; simpl; [by rewrite app_nil_r|].
  rewrite IH, refpo_page_step. unfold refpo_candidates.
  by rewrite <- (assoc_L (++)).
Qed.

Lemma po_foldl pages : forall st,
  po_hits (foldl page_step st pages) = po_hits st ++ po_candidates pages.
Proof.
  induction pages as [|pg pages IH]; intros st; simpl; [by rewrite app_nil_r|].
  rewrite IH, po_page_step. unfold po_candidates.
  by rewrite <- !(assoc_L (++)).
Qed.


Lemma page_step_other (st : pl_state) (pg : page) (f : text) :
  f <> "Invoice Number" -> f <> "Date" -> f <> "Marks" -> f ∉ guarded_fields.*1 ->
  row (page_step st pg) !! f = row st !! f.
Proof.
  intros H1 H2 H3 H4. rewrite row_page_step.
  pose proof (page_fields_other pg (row st) _ H1 H2 H4).
  destruct (marks_text pg); [done|]. by rewrite lookup_insert_ne.
Qed.


Lemma foldl_other (pages : list page) (f : text) : forall st,
  f <> "Invoice Number" -> f <> "Date" -> f <> "Marks" -> f ∉ guarded_fields.*1 ->
  row (foldl page_step st pages) !! f = row st !! f.
Proof.
  induction pages as [|pg pages IH]; intros st H1 H2 H3 H4; simpl; [done|].
  rewrite IH by done. by apply page_step_other.
Qed.

Lemma not_guarded_po :
  (("PO" : text) ∉ guarded_fields.*1) /\ (("Reference PO#" : text) ∉ guarded_fields.*1).
Proof. split; apply (bool_decide_unpack _); by vm_compute. Qed.

(** The two PO fields of the final record, from the candidates of all pages. *)
Lemma parse_pl_po_fields (pages : list page) :
  parse_pl (Ok pages) !! "Reference PO#"
  = Some (default (default [] (head (po_candidates pages)))
                  (head (refpo_candidates pages)))
  /\ parse_pl (Ok pages) !! "PO" = Some (default [] (head (po_candidates pages))).
Proof.
  rewrite parse_pl_fold. unfold set_po_values.
  rewrite refpo_foldl, po_foldl. cbn [refpo_hits po_hits app].
  destruct not_guarded_po as [Hpo Href].
  assert (row (foldl page_step (PlState init_row [] []) pages) !! "PO" = Some []) as Hp.
  { rewrite foldl_other by done. by vm_compute. }
  assert (row (foldl page_step (PlState init_row [] []) pages) !! "Reference PO#" = Some [])
    as Hr.
  { rewrite foldl_other by done. by vm_compute. }
  split.
  - destruct (refpo_candidates pages) as [|x xs], (po_candidates pages) as [|y ys]; simpl;
      repeat (rewrite lookup_insert_eq || rewrite lookup_insert_ne by done); done.
  - destruct (refpo_candidates pages) as [|x xs], (po_candidates pages) as [|y ys]; simpl;
      repeat (rewrite lookup_insert_eq || rewrite lookup_insert_ne by done); done.
Qed.

(** C2 (PO precedence): with the Reference-PO and the generic-PO matches
    of all pages in the order of discovery (the generic ones also taken
    from the marks of each page), "Reference PO#" is the first
    Reference-PO candidate when there is one, else the first generic-PO
    candidate, else empty; "PO" is the first generic-PO candidate, else
    empty. *)
Theorem po_precedence (pages : list page) :
  parse_pl (Ok pages) !! "Reference PO#"
  = Some (default (default [] (head (po_candidates pages)))
                  (head (refpo_candidates pages)))
  /\ parse_pl (Ok pages) !! "PO" = Some (default [] (head (po_candidates pages)))
  /\ parse_pl_pdf (Ok pages) = parse_pl (Ok pages).
Proof.
  destruct (parse_pl_po_fields pages) as [H1 H2]. done.
Qed.

Lemma set_po_values_other st (f : text) :
  f <> "PO" -> f <> "Reference PO#" -> set_po_values st !! f = row st !! f.
Proof.
  intros H1 H2. unfold set_po_values.
  destruct (refpo_hits st), (po_hits st);
    repeat (rewrite lookup_insert_ne by done); done.
Qed.



Lemma parse_pl_snoc pages pg :
  parse_pl (Ok (pages ++ [pg]))
  = set_po_values (page_step (foldl page_step (PlState init_row [] []) pages) pg).
Proof. by rewrite parse_pl_fold, foldl_app. Qed.

Lemma not_guarded_invoice_date :
  (("Invoice Number" : text) ∉ guarded_fields.*1) /\ (("Date" : text) ∉ guarded_fields.*1).
Proof. split; apply (bool_decide_unpack _); by vm_compute. Qed.

(** ** The fields assigned without a guard *)










(** * More on the matcher *)

Lemma steps_snoc w c s : steps (w ++ [c]) s = step c (steps w s).
Proof. by rewrite steps_app. Qed.

Lemma steps_cons c w s : steps (c :: w) s = steps w (step c s).
Proof. done. Qed.

(** What a repetition consumes: characters of the class, as many as its
    bounds allow. *)
Lemma rep_inv g p lo hi k s l x :
  rep g p lo hi k s l = Some x ->
  exists w l', l = w ++ l' /\ Forall (fun c => p c = true) w /\ lo <= length w
    /\ (forall h, hi = Some h -> length w <= h) /\ k (steps w s) l' = Some x.
Proof.
  revert lo hi s. induction l as [|c l IH]; intros lo hi s H.
  - exists [], []. simpl in H.
    assert (lo = 0 /\ k s [] = Some x) as [-> Hk].
    { destruct g, lo; simpl in H; try done. by destruct (k s []). }
    repeat split; [done|simpl; lia|intros; simpl; lia|done].
  - simpl in H.
    assert ((match lo with 0 => k s (c :: l) | S _ => None end = Some x) ->
            exists w l', c :: l = w ++ l' /\ Forall (fun c => p c = true) w /\ lo <= length w
              /\ (forall h, hi = Some h -> length w <= h) /\ k (steps w s) l' = Some x) as Hstop.
    { intros H'. exists [], (c :: l). destruct lo; [|done].
      repeat split; [done|simpl; lia|intros; simpl; lia|done]. }
    assert ((if p c && hi_open hi then rep g p (pred lo) (dec_hi hi) k (step c s) l else None)
            = Some x ->
            exists w l', c :: l = w ++ l' /\ Forall (fun c => p c = true) w /\ lo <= length w
              /\ (forall h, hi = Some h -> length w <= h) /\ k (steps w s) l' = Some x) as Hmore.
    { intros H'. destruct (p c) eqn:Hc; [|done]. destruct (hi_open hi) eqn:Hh; [|done].
      simpl in H'. apply IH in H' as (w & l' & -> & Hw & Hlo & Hhi & Hk).
      exists (c :: w), l'. split; [done|]. split; [by constructor|].
      split; [simpl; lia|]. split; [|done].
      intros h ->. destruct h as [|h]; [done|]. simpl. specialize (Hhi h eq_refl). lia. }
    destruct g.
    + destruct (if p c && hi_open hi then _ else _) eqn:E; [apply Hmore; congruence|by apply Hstop].
    + destruct (match lo with 0 => _ | S _ => _ end) eqn:E; [apply Hstop; congruence|by apply Hmore].
Qed.

(** A greedy repetition with nothing after it takes the whole run. *)
Lemma rep_greedy_accept p : forall l s lo,
  rep true p lo None accept s l =
  let '(w, r) := run p l in
  if lo <=? length w then Some (steps w s, r) else None.
Proof.
  induction l as [|c l IH]; intros s lo.
  - simpl. by destruct lo.
  - cbn [rep run]. destruct (p c) eqn:Hc; cbn [andb hi_open dec_hi fmap option_fmap option_map].
    + rewrite IH. destruct (run p l) as [w r]. cbn [length steps foldl].
      destruct lo as [|lo]; cbn [pred].
      * by destruct (0 <=? length w) eqn:E; [|apply Nat.leb_gt in E; lia].
      * change (S lo <=? S (length w)) with (lo <=? length w).
        by destruct (lo <=? length w).
    + by destruct lo.
Qed.

Lemma match_at_plus p s l :
  match_at (plus p) s l =
  let '(w, r) := run p l in
  if 1 <=? length w then Some (steps w s, r) else None.
Proof. apply rep_greedy_accept. Qed.

(** ** Squeezing runs *)

Lemma squeeze_go_run p w r :
  Forall (fun c => p c = true) w ->
  match r with [] => True | b :: _ => p b = false end ->
  squeeze_go p true (w ++ r) = squeeze_go p false r.
Proof.
  intros Hw Hr. induction Hw as [|c w Hc Hw IH]; simpl.
  - destruct r as [|b r]; [done|]. simpl. by rewrite Hr.
  - by rewrite Hc.
Qed.

Lemma sub_go_squeeze p n : forall l s, length l <= n ->
  sub_go (plus p) (fun _ => " ") 0 s l = squeeze_go p false l.
Proof.
  induction n as [|n IH]; intros l s Hl.
  - destruct l; [|simpl in Hl; lia]. done.
  - destruct l as [|c l]; [done|].
    pose proof (match_at_plus p s (c :: l)) as Hm.
    destruct (run p (c :: l)) as [w r] eqn:Hrun.
    pose proof (run_spec _ _ _ _ Hrun) as (Heq & Hw & Hr).
    cbn [run] in Hrun. destruct (p c) eqn:Hc.
    + destruct (run p l) as [w' r'] eqn:Hrun'. injection Hrun as <- <-.
      cbn [length] in Hm. change (1 <=? S (length w')) with true in Hm. cbv iota in Hm.
      rewrite Heq in Hm |- *.
      rewrite (sub_go_match _ _ _ (c :: w') r' _ ltac:(done) Hm).
      rewrite IH.
      * cbn [app squeeze_go]. rewrite Hc. f_equal. symmetry.
        apply squeeze_go_run; [by inversion Hw|done].
      * assert (length (c :: l) = length ((c :: w') ++ r')) as Hlen by (by rewrite Heq).
        rewrite length_app in Hlen. simpl in *. lia.
    + injection Hrun as <- <-. simpl in Hm.
      rewrite (sub_go_nomatch _ _ _ _ _ Hm). cbn [squeeze_go]. rewrite Hc. f_equal.
      apply IH. simpl in Hl. lia.
Qed.

(** [re.sub(r"[class]+", " ", l)] squeezes the runs of the class. *)
Lemma sub_plus_squeeze p l : sub (plus p) (fun _ => " ") l = squeeze p l.
Proof. rewrite sub_sub_go. by apply (sub_go_squeeze p (length l)). Qed.

Lemma squeeze_go_Forall p b l :
  Forall (fun c => p c = false \/ c = " "%char) (squeeze_go p b l).
Proof.
  revert b. induction l as [|c l IH]; intros b; simpl; [done|].
  destruct (p c) eqn:Hc.
  - destruct b; [apply IH|]. constructor; [by right|apply IH].
  - constructor; [by left|apply IH].
Qed.

Lemma squeeze_go_head p l c :
  head (squeeze_go p true l) = Some c -> p c = false.
Proof.
  induction l as [|x l IH]; simpl; [done|].
  destruct (p x) eqn:Hx; [done|]. simpl. by intros [= <-].
Qed.

Lemma squeeze_go_snoc p b l c :
  p c = false -> squeeze_go p b (l ++ [c]) = squeeze_go p b l ++ [c].
Proof.
  intros Hc. revert b. induction l as [|x l IH]; intros b; simpl.
  - by rewrite Hc.
  - destruct (p x); [destruct b|]; by rewrite IH.
Qed.

Lemma squeeze_go_idem p :
  p " "%char = true ->
  forall l, squeeze_go p true (squeeze_go p true l) = squeeze_go p true l
            /\ squeeze_go p false (squeeze_go p false l) = squeeze_go p false l.
Proof.
  intros Hsp. induction l as [|c l [IHt IHf]]; [done|]. simpl.
  destruct (p c) eqn:Hc.
  - split; [done|]. simpl. rewrite Hsp. by rewrite IHt.
  - simpl. rewrite Hc. by rewrite IHf.
Qed.

(** No two blanks in a row, when the blank is of the class. *)
Lemma squeeze_go_single p :
  p " "%char = true ->
  forall l b, contains "  " (squeeze_go p b l) = false.
Proof.
  intros Hsp. induction l as [|c l IH]; intros b; [done|]. simpl.
  destruct (p c) eqn:Hc.
  - destruct b; [apply IH|].
    cbn [contains starts_with]. rewrite IH, orb_false_r.
    destruct (squeeze_go p true l) as [|x t] eqn:E; [done|].
    cbn [starts_with]. rewrite andb_true_r.
    assert (p x = false) as Hx by (apply (squeeze_go_head p l); by rewrite E).
    destruct (Ascii.eqb_spec " " x) as [<-|]; [congruence|done].
  - cbn [contains starts_with]. rewrite IH, orb_false_r.
    destruct (Ascii.eqb_spec " " c) as [<-|]; [congruence|done].
Qed.

(** ** Stripping *)

Lemma lstrip_head s c : head (lstrip s) = Some c -> is_space c = false.
Proof.
  induction s as [|x s IH]; simpl; [done|].
  destruct (is_space x) eqn:Hx; [done|]. simpl. by intros [= <-].
Qed.

Lemma lstrip_id s : match s with [] => True | c :: _ => is_space c = false end -> lstrip s = s.
Proof. destruct s as [|c s]; [done|]. simpl. by intros ->. Qed.

Lemma lstrip_suffix s : exists w, s = w ++ lstrip s /\ Forall (fun c => is_space c = true) w.
Proof.
  induction s as [|x s (w & IH & Hw)]; [by exists []|]. simpl.
  destruct (is_space x) eqn:Hx.
  - exists (x :: w). split; [by rewrite IH at 1|by constructor].
  - by exists [].
Qed.

Lemma lstrip_last s c : last (lstrip s) = Some c -> last s = Some c.
Proof.
  destruct (lstrip_suffix s) as (w & Hs & _). intros H.
  rewrite Hs. rewrite last_app, H. done.
Qed.

Lemma rstrip_last s c : last (rstrip s) = Some c -> is_space c = false.
Proof.
  unfold rstrip. rewrite last_reverse. apply lstrip_head.
Qed.

Lemma rstrip_prefix s : exists w, s = rstrip s ++ w /\ Forall (fun c => is_space c = true) w.
Proof.
  unfold rstrip. destruct (lstrip_suffix (reverse s)) as (w & Hs & Hw).
  exists (reverse w). split.
  - apply (inj reverse). by rewrite reverse_app, !reverse_involutive.
  - by apply Forall_reverse.
Qed.

Lemma rstrip_id s : match last s with None => True | Some c => is_space c = false end -> rstrip s = s.
Proof.
  intros H. unfold rstrip. rewrite lstrip_id; [by rewrite reverse_involutive|].
  rewrite <- head_reverse in H. by destruct (reverse s).
Qed.

Lemma rstrip_head s c : head (rstrip s) = Some c -> head s = Some c.
Proof.
  destruct (rstrip_prefix s) as (w & Hs & _). intros H.
  rewrite Hs. destruct (rstrip s); [done|]. done.
Qed.

Lemma strip_head s c : head (strip s) = Some c -> is_space c = false.
Proof. intros H%rstrip_head. by apply lstrip_head in H. Qed.

Lemma strip_last s c : last (strip s) = Some c -> is_space c = false.
Proof. apply rstrip_last. Qed.

Lemma strip_id s :
  match s with [] => True | c :: _ => is_space c = false end ->
  match last s with None => True | Some c => is_space c = false end ->
  strip s = s.
Proof. intros H1 H2. unfold strip. rewrite lstrip_id by done. by apply rstrip_id. Qed.

Lemma strip_sub s : exists a b, s = a ++ strip s ++ b.
Proof.
  destruct (lstrip_suffix s) as (a & Ha & _).
  destruct (rstrip_prefix (lstrip s)) as (b & Hb & _).
  exists a, b. unfold strip. by rewrite <- Hb.
Qed.

Lemma strip_Forall (P : ascii -> Prop) s : Forall P s -> Forall P (strip s).
Proof.
  destruct (strip_sub s) as (a & b & Hs). intros H. rewrite Hs in H.
  by apply Forall_app in H as [_ [H _]%Forall_app].
Qed.

(** ** [norm] *)

Lemma norm_squeeze s : norm s = squeeze is_space (strip s).
Proof. apply sub_plus_squeeze. Qed.

Lemma squeeze_head p l c :
  match l with [] => True | x :: _ => p x = false end ->
  head (squeeze p l) = Some c -> p c = false.
Proof.
  destruct l as [|x l]; [done|]. intros Hx. unfold squeeze. simpl. rewrite Hx.
  simpl. by intros [= <-].
Qed.

Lemma squeeze_last p l c :
  match last l with None => True | Some x => p x = false end ->
  last (squeeze p l) = Some c -> p c = false.
Proof.
  destruct l as [|x l _] using rev_ind; [done|].
  rewrite last_snoc. intros Hx. unfold squeeze. rewrite squeeze_go_snoc by done.
  rewrite last_snoc. by intros [= <-].
Qed.

Lemma strip_norm s : strip (norm s) = norm s.
Proof.
  rewrite norm_squeeze. apply strip_id.
  - destruct (squeeze is_space (strip s)) as [|c t] eqn:E; [done|].
    apply (squeeze_head is_space (strip s)); [|by rewrite E].
    destruct (strip s) as [|x t'] eqn:E'; [done|]. apply (strip_head s). by rewrite E'.
  - destruct (last (squeeze is_space (strip s))) as [c|] eqn:E; [|done].
    apply (squeeze_last is_space (strip s)); [|done].
    destruct (last (strip s)) as [x|] eqn:E'; [|done]. by apply (strip_last s).
Qed.

Lemma norm_idem s : norm (norm s) = norm s.
Proof.
  rewrite (norm_squeeze (norm s)), strip_norm, norm_squeeze.
  apply (squeeze_go_idem is_space); done.
Qed.

(** X1 ([norm]): the result is in normal form.  Normalizing it again
    changes nothing, it has no blank at either end, its only white-space
    characters are blanks, and no two of them are adjacent. *)
Theorem norm_normal_form (s : text) :
  norm (norm s) = norm s
  /\ strip (norm s) = norm s
  /\ (forall c, c ∈ norm s -> is_space c = true -> c = " "%char)
  /\ contains "  " (norm s) = false.
Proof.
  split; [apply norm_idem|]. split; [apply strip_norm|]. split.
  - intros c Hc Hs. rewrite norm_squeeze in Hc.
    pose proof (squeeze_go_Forall is_space false (strip s)) as H.
    rewrite Forall_forall in H. destruct (H c Hc) as [H'|H']; [congruence|done].
  - rewrite norm_squeeze. by apply squeeze_go_single.
Qed.

Module HeaderMore.
Import NikeTemplateManager HeaderFacts.

(** * Header keys *)

Lemma header_key_chars (v : value) :
  Forall (fun ch => is_lower ch || is_digit ch || bool_decide (ch ∈ ["#"; " "]%char) = true)
         (header_key v).
Proof.
  unfold header_key. apply strip_Forall. rewrite sub_plus_squeeze.
  eapply Forall_impl; [apply squeeze_go_Forall|].
  intros ch [H| ->]; [|done]. simpl in H. apply negb_false_iff in H.
  apply orb_true_iff in H as [H|H]; [by rewrite H|].
  apply orb_true_iff. right. apply bool_decide_eq_true.
  apply Ascii.eqb_eq in H as ->. by left.
Qed.

Lemma header_key_strip (v : value) : strip (header_key v) = header_key v.
Proof.
  unfold header_key. set (t := sub _ _ _). apply strip_id.
  - destruct (strip t) as [|c t'] eqn:E; [done|]. apply (strip_head t). by rewrite E.
  - destruct (last (strip t)) as [c|] eqn:E; [|done]. by apply (strip_last t).
Qed.

Lemma build_header_key ws header_row ws' header (key : text) c :
  build_header ws header_row = Ok (ws', header) ->
  header !! key = Some c ->
  1 <= c <= max_column ws /\ header_cell ws header_row key c.
Proof.
  intros H Hk. rewrite (build_header_spec _ _ _ _ _ H) in Hk.
  apply last_Some in Hk as [l' Hk].
  assert (c ∈ filter (header_cell ws header_row key) (seq 1 (max_column ws))) as Hin.
  { rewrite Hk. apply elem_of_app. right. by left. }
  apply list_elem_of_filter in Hin as [Hc Hin]. apply elem_of_seq in Hin.
  split; [lia|done].
Qed.

(** * Columns *)

Lemma header_loop_ok header_row columns : forall ws header,
  1 <= header_row -> Forall (fun c => 1 <= c) columns ->
  exists ws' header', header_loop header_row columns ws header = Ok (ws', header')
    /\ forall r c, cell_value ws' r c = cell_value ws r c.
Proof.
  induction columns as [|c columns IH]; intros ws header Hr Hc; simpl; [by eauto|].
  apply Forall_cons in Hc as [Hc Hcs].
  unfold read, cell. destruct (header_row <? 1) eqn:E1; [apply Nat.ltb_lt in E1; lia|].
  destruct (c <? 1) eqn:E2; [apply Nat.ltb_lt in E2; lia|].
  cbn [orb mbind result_bind].
  set (ws1 := match cells ws !! (header_row, c) with Some _ => ws | None => _ end).
  assert (forall r' c', cell_value ws1 r' c' = cell_value ws r' c') as Hsame.
  { assert (cell ws header_row c = Ok ws1) as Hcell.
    { unfold cell. by rewrite E1, E2. }
    by apply cell_spec in Hcell as (_ & _ & ?). }
  destruct (_ && _).
  - destruct (IH ws1 (<[header_key (cell_value ws1 header_row c) := c]> header) Hr Hcs)
      as (ws' & header' & -> & Hs).
    exists ws', header'. split; [done|]. intros r' c'. by rewrite Hs.
  - destruct (IH ws1 header Hr Hcs) as (ws' & header' & -> & Hs).
    exists ws', header'. split; [done|]. intros r' c'. by rewrite Hs.
Qed.

Lemma col_of_pos header aliases d : 1 <= d -> 1 <= col_of header aliases d.
Proof.
  intros Hd. unfold col_of. destruct (pick header aliases) as [v|]; [|done].
  destruct (v <? 1) eqn:E; [done|]. by apply Nat.ltb_ge in E.
Qed.

Lemma col_fields_defaults : Forall (fun '(_, _, d) => 1 <= d) col_fields.
Proof. unfold col_fields. repeat constructor. Qed.

Lemma cols_lookup (header : gmap text nat) (k : text) c :
  (list_to_map ((fun '(name, aliases, d) => (name, col_of header aliases d)) <$> col_fields)
     : gmap text nat) !! k = Some c ->
  1 <= c /\ k ∈ col_fields.*1.*1.
Proof.
  intros H%elem_of_list_to_map_2.
  apply list_elem_of_fmap in H as ([[name aliases] d] & [= -> ->] & Hin).
  split.
  - apply col_of_pos. pose proof col_fields_defaults as Hd.
    rewrite Forall_forall in Hd. by apply (Hd _ Hin).
  - apply list_elem_of_fmap. exists (name, aliases). split; [done|].
    apply list_elem_of_fmap. by exists (name, aliases, d).
Qed.

Lemma cols_is_Some (header : gmap text nat) (k : text) :
  k ∈ col_fields.*1.*1 ->
  is_Some ((list_to_map ((fun '(name, aliases, d) => (name, col_of header aliases d))
                           <$> col_fields) : gmap text nat) !! k).
Proof.
  intros Hk. apply elem_of_dom. rewrite dom_list_to_map_L. apply elem_of_list_to_set.
  rewrite <- list_fmap_compose.
  apply list_elem_of_fmap in Hk as ([name aliases] & -> & Hk).
  apply list_elem_of_fmap in Hk as ([[name' aliases'] d] & [= <- <-] & Hk).
  apply list_elem_of_fmap. by exists (name, aliases, d).
Qed.

Lemma max_column_seq_pos ws : Forall (fun c => 1 <= c) (seq 1 (max_column ws)).
Proof. apply Forall_forall. intros c Hc%elem_of_seq. lia. Qed.

Lemma build_cols_ok ws header_row :
  1 <= header_row ->
  exists ws' cols, build_header_map_and_get_cols ws header_row = Ok (ws', cols)
    /\ (forall r c, cell_value ws' r c = cell_value ws r c)
    /\ (forall k : text, is_Some (cols !! k) <-> k ∈ col_fields.*1.*1)
    /\ (forall (k : text) c, cols !! k = Some c -> 1 <= c).
Proof.
  intros Hr. unfold build_header_map_and_get_cols, build_header.
  destruct (header_loop_ok header_row (seq 1 (max_column ws)) ws ∅ Hr (max_column_seq_pos ws))
    as (ws' & header & -> & Hs).
  cbn [mbind result_bind]. eexists _, _. split; [done|]. split; [done|]. split.
  - intros k. split; [|apply cols_is_Some]. intros [c Hc]. by apply cols_lookup in Hc as [_ ?].
  - intros k c Hc. by apply cols_lookup in Hc as [? _].
Qed.

Lemma build_cols_row0 ws :
  1 <= max_column ws -> build_header_map_and_get_cols ws 0 = Raise ValueError.
Proof.
  intros Hm. unfold build_header_map_and_get_cols, build_header.
  destruct (max_column ws) as [|n]; [lia|]. done.
Qed.

End HeaderMore.

Module RowMore.
Import NikeTemplateManager RowFacts.

(** * Cells that exist *)

Lemma max_list_elem (l : list nat) n : n ∈ l -> n <= max_list l.
Proof.
  induction l as [|x l IH]; [by intros ?%elem_of_nil|].
  intros [->|H]%elem_of_cons; simpl; [lia|]. specialize (IH H). lia.
Qed.

Lemma max_row_ge ws r c : (r, c) ∈ dom (cells ws) -> r <= max_row ws.
Proof.
  intros H. unfold max_row. apply elem_of_elements in H.
  destruct (elements (dom (cells ws))) as [|x l] eqn:E; [by apply elem_of_nil in H|].
  apply max_list_elem. apply list_elem_of_fmap. by exists (r, c).
Qed.

Lemma cell_dom ws r c ws' :
  cell ws r c = Ok ws' -> (r, c) ∈ dom (cells ws') /\ dom (cells ws) ⊆ dom (cells ws').
Proof.
  unfold cell. destruct (_ || _); [done|]. intros [= <-].
  destruct (cells ws !! (r, c)) eqn:E.
  - split; [by apply elem_of_dom|done].
  - simpl. rewrite dom_insert. set_solver.
Qed.

Lemma read_dom ws r c ws' v :
  read ws r c = Ok (ws', v) -> (r, c) ∈ dom (cells ws') /\ dom (cells ws) ⊆ dom (cells ws').
Proof.
  unfold read. destruct (cell ws r c) as [ws1|] eqn:E; [|done]. simpl.
  intros [= <- _]. by apply cell_dom.
Qed.

Lemma bind_value_accepted v :
  bind_value v = if decide (accepted v) then Ok (stored v) else Raise IllegalCharacterError.
Proof.
  destruct v as [|t| |]; try done. rewrite bind_value_str. unfold accepted, stored.
  by destruct (decide (writable t)).
Qed.

Lemma bind_value_Ok v v' : bind_value v = Ok v' <-> accepted v /\ v' = stored v.
Proof.
  rewrite bind_value_accepted. destruct (decide (accepted v)) as [H|H].
  - split; [by intros [= <-]|by intros [_ ->]].
  - split; [done|by intros [? _]].
Qed.

Lemma write_dom ws r c v ws' :
  write ws r c v = Ok ws' -> (r, c) ∈ dom (cells ws') /\ dom (cells ws) ⊆ dom (cells ws').
Proof.
  unfold write. destruct (cell ws r c) as [ws1|] eqn:E; [|done]. cbn [mbind result_bind].
  destruct (bind_value v) as [v'|]; [|done]. cbn [mbind result_bind].
  intros [= <-]. apply cell_dom in E as [E1 E2]. cbn [cells]. rewrite dom_insert. set_solver.
Qed.

Lemma write_accepted ws r c v ws' : write ws r c v = Ok ws' -> accepted v.
Proof.
  unfold write. destruct (cell ws r c) as [ws1|]; [|done]. cbn [mbind result_bind].
  destruct (bind_value v) as [v'|] eqn:E; [|done]. intros _.
  by apply bind_value_Ok in E as [? _].
Qed.

Lemma write_stored ws r c v ws' :
  write ws r c v = Ok ws' ->
  cell_value ws' r c = stored v
  /\ forall r' c', (r', c') <> (r, c) -> cell_value ws' r' c' = cell_value ws r' c'.
Proof.
  intros [Hv Ho]%write_spec. split; [|done]. by apply bind_value_Ok in Hv as [_ <-].
Qed.

Lemma read_ok ws r c :
  1 <= r -> 1 <= c -> exists ws', read ws r c = Ok (ws', cell_value ws r c).
Proof.
  intros Hr Hc. unfold read, cell.
  destruct (r <? 1) eqn:E1; [apply Nat.ltb_lt in E1; lia|].
  destruct (c <? 1) eqn:E2; [apply Nat.ltb_lt in E2; lia|].
  cbn [orb mbind result_bind]. eexists. f_equal. f_equal.
  destruct (cells ws !! (r, c)) eqn:E; [done|].
  unfold cell_value. simpl. by rewrite lookup_insert_eq, E.
Qed.

Lemma write_ok ws r c v :
  1 <= r -> 1 <= c -> accepted v -> exists ws', write ws r c v = Ok ws'.
Proof.
  intros Hr Hc Hv. unfold write, cell.
  destruct (r <? 1) eqn:E1; [apply Nat.ltb_lt in E1; lia|].
  destruct (c <? 1) eqn:E2; [apply Nat.ltb_lt in E2; lia|].
  cbn [orb mbind result_bind]. rewrite bind_value_accepted, decide_True by done.
  cbn [mbind result_bind]. by eexists.
Qed.

Lemma read_pos ws r c ws' v : read ws r c = Ok (ws', v) -> 1 <= r /\ 1 <= c.
Proof.
  unfold read. destruct (cell ws r c) as [ws1|] eqn:E; [|done].
  by apply cell_spec in E as (? & ? & _).
Qed.

Lemma write_pos ws r c v ws' : write ws r c v = Ok ws' -> 1 <= r /\ 1 <= c.
Proof.
  unfold write. destruct (cell ws r c) as [ws1|] eqn:E; [|done].
  by apply cell_spec in E as (? & ? & _).
Qed.

(** * The search for the row *)

Lemma find_row_dom inv_col inv_key rows : forall ws ws' res,
  find_row inv_col inv_key rows ws = Ok (ws', res) ->
  dom (cells ws) ⊆ dom (cells ws')
  /\ match res with
     | inl r | inr (Some r) => (r, inv_col) ∈ dom (cells ws')
     | inr None => True
     end.
Proof.
  induction rows as [|r0 rows IH]; intros ws ws' res; simpl.
  - by intros [= <- <-].
  - destruct (read ws r0 inv_col) as [[ws1 v]|] eqn:E; [|done]. simpl.
    apply read_dom in E as [E1 E2].
    destruct (_ || _); [by intros [= <- <-]|].
    destruct (decide _); [by intros [= <- <-]|].
    intros [H1 H2]%IH. split; [by etransitivity|done].
Qed.

Lemma blank_spec v :
  bool_decide (v = VNone) || bool_decide (strip (py_str v) = []) = true <-> blank v.
Proof.
  unfold blank. rewrite orb_true_iff, !bool_decide_eq_true. done.
Qed.

(** What the loop has seen when it ends. *)
Lemma find_row_inv inv_col inv_key rows : forall ws ws' res,
  find_row inv_col inv_key rows ws = Ok (ws', res) ->
  match res with
  | inl r =>
      exists pre post, rows = pre ++ r :: post
        /\ Forall (other_invoice ws inv_col inv_key) pre
        /\ ~ blank (cell_value ws r inv_col)
        /\ inv_norm (cell_value ws r inv_col) = inv_key
  | inr (Some r) =>
      exists pre post, rows = pre ++ r :: post
        /\ Forall (other_invoice ws inv_col inv_key) pre
        /\ blank (cell_value ws r inv_col)
  | inr None => Forall (other_invoice ws inv_col inv_key) rows
  end.
Proof.
  induction rows as [|r0 rows IH]; intros ws ws' res; simpl.
  - by intros [= <- <-].
  - destruct (read ws r0 inv_col) as [[ws1 v]|] eqn:E; [|done]. simpl.
    apply read_spec in E as [-> Hsame].
    destruct (_ || _) eqn:Eb.
    { intros [= <- <-]. apply blank_spec in Eb. by exists [], rows. }
    assert (~ blank (cell_value ws r0 inv_col)) as Hnb.
    { intros Hb%blank_spec. congruence. }
    destruct (decide _) as [Hk|Hk].
    { intros [= <- <-]. by exists [], rows. }
    intros H%IH.
    assert (forall r, other_invoice ws1 inv_col inv_key r -> other_invoice ws inv_col inv_key r)
      as Ho.
    { intros r. unfold other_invoice. by rewrite Hsame. }
    assert (other_invoice ws inv_col inv_key r0) as Ho0 by done.
    destruct res as [r|[r|]].
    + destruct H as (pre & post & -> & Hpre & H1 & H2). rewrite Hsame in H1, H2.
      exists (r0 :: pre), post. split; [done|]. split; [|done].
      constructor; [done|]. by eapply Forall_impl.
    + destruct H as (pre & post & -> & Hpre & H1). rewrite Hsame in H1.
      exists (r0 :: pre), post. split; [done|]. split; [|done].
      constructor; [done|]. by eapply Forall_impl.
    + constructor; [done|]. by eapply Forall_impl.
Qed.

(** The loop on a sheet with the same invoice column. *)
Lemma find_row_run inv_col inv_key : forall pre ws,
  1 <= inv_col -> Forall (fun r => 1 <= r) pre ->
  Forall (other_invoice ws inv_col inv_key) pre ->
  forall r post,
  exists ws1, (forall r' c', cell_value ws1 r' c' = cell_value ws r' c')
    /\ find_row inv_col inv_key (pre ++ r :: post) ws
       = find_row inv_col inv_key (r :: post) ws1.
Proof.
  induction pre as [|r0 pre IH]; intros ws Hc Hpos Hpre r post; [by exists ws|].
  apply Forall_cons in Hpos as [Hr0 Hpos]. apply Forall_cons in Hpre as [[Hnb Hk] Hpre].
  destruct (read_ok ws r0 inv_col Hr0 Hc) as [ws0 E].
  pose proof (read_spec _ _ _ _ _ E) as [_ Hsame].
  cbn [app find_row]. rewrite E. cbn [mbind result_bind].
  destruct (_ || _) eqn:Eb; [by apply blank_spec in Eb|].
  rewrite decide_False by done.
  destruct (IH ws0 Hc Hpos) with (r := r) (post := post) as (ws1 & Hs & ->).
  { eapply Forall_impl; [exact Hpre|]. intros x. unfold other_invoice. by rewrite !Hsame. }
  exists ws1. split; [|done]. intros r' c'. by rewrite Hs.
Qed.

Lemma find_row_ok inv_col inv_key rows : forall ws,
  1 <= inv_col -> Forall (fun r => 1 <= r) rows ->
  exists ws' res, find_row inv_col inv_key rows ws = Ok (ws', res).
Proof.
  induction rows as [|r0 rows IH]; intros ws Hc Hpos; simpl; [by eauto|].
  apply Forall_cons in Hpos as [Hr0 Hpos].
  destruct (read_ok ws r0 inv_col Hr0 Hc) as [ws0 ->]. cbn [mbind result_bind].
  destruct (_ || _); [by eauto|]. destruct (decide _); [by eauto|]. by apply IH.
Qed.

Lemma find_row_pos inv_col inv_key r0 rows ws ws' res :
  find_row inv_col inv_key (r0 :: rows) ws = Ok (ws', res) -> 1 <= r0 /\ 1 <= inv_col.
Proof.
  simpl. destruct (read ws r0 inv_col) as [[ws1 v]|] eqn:E; [|done].
  by apply read_pos in E.
Qed.

(** * The last row *)

Lemma max_list_le (l : list nat) n : Forall (fun x => x <= n) l -> max_list l <= n.
Proof. induction 1; simpl; lia. Qed.

Lemma max_row_char ws n :
  1 <= n -> (max_row ws <= n <-> forall r c, (r, c) ∈ dom (cells ws) -> r <= n).
Proof.
  intros Hn. split.
  - intros H r c Hin%max_row_ge. lia.
  - intros H. unfold max_row.
    destruct (elements (dom (cells ws))) as [|x l] eqn:E; [done|].
    apply max_list_le. apply Forall_forall. intros r ([r' c] & -> & Hin)%list_elem_of_fmap.
    apply (H r' c). apply elem_of_elements. by rewrite E.
Qed.

Lemma max_row_same ws ws' r0 c0 :
  1 <= max_row ws -> 1 <= r0 -> (r0, c0) ∈ dom (cells ws') ->
  dom (cells ws) ⊆ dom (cells ws') ->
  (forall r c, (r, c) ∈ dom (cells ws') -> r <= max_row ws) ->
  max_row ws' = max_row ws.
Proof.
  intros H1 Hr0 Hin0 Hsub Hle. apply Nat.le_antisymm.
  - by apply max_row_char.
  - apply max_row_ge in Hin0.
    apply max_row_char; [lia|]. intros r c Hin. apply (max_row_ge ws' r c). by apply Hsub.
Qed.

Lemma find_row_first inv_col inv_key r0 rows ws ws' res :
  find_row inv_col inv_key (r0 :: rows) ws = Ok (ws', res) -> (r0, inv_col) ∈ dom (cells ws').
Proof.
  simpl. destruct (read ws r0 inv_col) as [[ws1 v]|] eqn:E; [|done]. simpl.
  apply read_dom in E as [E1 E2].
  destruct (_ || _); [by intros [= <- <-]|].
  destruct (decide _); [by intros [= <- <-]|].
  intros [H _]%find_row_dom. by apply H.
Qed.

Lemma find_row_cells inv_col inv_key rows : forall ws ws' res,
  find_row inv_col inv_key rows ws = Ok (ws', res) ->
  forall k, k ∈ dom (cells ws') -> k ∈ dom (cells ws) \/ exists r, r ∈ rows /\ k = (r, inv_col).
Proof.
  induction rows as [|r0 rows IH]; intros ws ws' res; simpl.
  - intros [= <- <-]. by left.
  - destruct (read ws r0 inv_col) as [[ws1 v]|] eqn:E; [|done]. simpl.
    assert (forall k, k ∈ dom (cells ws1) -> k ∈ dom (cells ws) \/ k = (r0, inv_col)) as H1.
    { unfold read in E. destruct (cell ws r0 inv_col) as [ws0|] eqn:Ec; [|done].
      simpl in E. injection E as <- _. unfold cell in Ec.
      destruct (_ || _); [done|]. injection Ec as <-.
      destruct (cells ws !! (r0, inv_col)); [by left|]. simpl. intros k.
      rewrite dom_insert, elem_of_union, elem_of_singleton. tauto. }
    assert (forall k, k ∈ dom (cells ws1) ->
              k ∈ dom (cells ws) \/ exists r, r ∈ r0 :: rows /\ k = (r, inv_col)) as H1'.
    { intros k [?| ->]%H1; [by left|]. right. exists r0. split; [by left|done]. }
    destruct (_ || _); [by intros [= <- <-]|].
    destruct (decide _); [by intros [= <- <-]|].
    intros H k Hk. destruct (IH _ _ _ H k Hk) as [Hk'|(r & Hr & ->)].
    + by apply H1'.
    + right. exists r. split; [by right|done].
Qed.

Lemma seq_split a n pre x post :
  seq a n = pre ++ x :: post -> pre = seq a (x - a) /\ a <= x /\ x < a + n.
Proof.
  intros H.
  assert (seq a n !! length pre = Some x) as Hx.
  { rewrite H. by rewrite list_lookup_middle. }
  apply lookup_seq in Hx as [-> Hlt].
  replace (a + length pre - a) with (length pre) by lia.
  split; [|lia].
  assert (pre = take (length pre) (seq a n)) as Hp.
  { rewrite H. by rewrite take_app_length. }
  rewrite Hp at 1. rewrite take_seq. f_equal. lia.
Qed.

Lemma find_row_start inv_col inv_key a n ws ws' res :
  find_row inv_col inv_key (seq a n) ws = Ok (ws', res) -> n <> 0 -> 1 <= a /\ 1 <= inv_col.
Proof. destruct n as [|n]; [done|]. simpl seq. by intros ?%find_row_pos. Qed.

Lemma find_or_append_row_inv ws inv_col start_row invoice ws' r :
  find_or_append_row ws inv_col start_row invoice = Ok (ws', r) ->
  1 <= start_row /\ 1 <= inv_col /\ start_row <= r
  /\ Forall (other_invoice ws inv_col (inv_norm invoice)) (seq start_row (r - start_row))
  /\ (r, inv_col) ∈ dom (cells ws')
  /\ dom (cells ws) ⊆ dom (cells ws')
  /\ ((~ blank (cell_value ws r inv_col)
       /\ inv_norm (cell_value ws r inv_col) = inv_norm invoice
       /\ forall r' c', cell_value ws' r' c' = cell_value ws r' c')
      \/ (blank (cell_value ws r inv_col) /\ accepted invoice
          /\ cell_value ws' r inv_col = stored invoice
          /\ forall r' c', (r', c') <> (r, inv_col) ->
                cell_value ws' r' c' = cell_value ws r' c')).
Proof.
  unfold find_or_append_row.
  set (rows := seq start_row (S (max_row ws) - start_row)).
  destruct (find_row inv_col (inv_norm invoice) rows ws) as [[ws1 found]|] eqn:E; [|done].
  cbn [mbind result_bind].
  pose proof (find_row_spec _ _ _ _ _ _ E) as Hsame.
  pose proof (find_row_inv _ _ _ _ _ _ E) as Hinv.
  pose proof (find_row_dom _ _ _ _ _ _ E) as [Hsub Hdom].
  destruct found as [r0|[r0|]].
  - intros [= <- <-]. destruct Hinv as (pre & post & Hrows & Hpre & Hnb & Hk).
    pose proof (seq_split _ _ _ _ _ Hrows) as (-> & Hle & Hlt).
    assert (1 <= start_row /\ 1 <= inv_col) as [H1 H2].
    { apply (find_row_start _ _ _ _ _ _ _ E). lia. }
    repeat split; try done. left. done.
  - destruct Hinv as (pre & post & Hrows & Hpre & Hb).
    pose proof (seq_split _ _ _ _ _ Hrows) as (-> & Hle & Hlt).
    assert (1 <= start_row /\ 1 <= inv_col) as [H1 H2].
    { apply (find_row_start _ _ _ _ _ _ _ E). lia. }
    destruct r0 as [|r0]; [lia|].
    destruct (write ws1 (S r0) inv_col invoice) as [ws2|] eqn:Ew; [|done].
    cbn [mbind result_bind]. intros [= <- <-].
    pose proof (write_stored _ _ _ _ _ Ew) as [Hv Hw].
    pose proof (write_dom _ _ _ _ _ Ew) as [Hd1 Hd2].
    pose proof (write_accepted _ _ _ _ _ Ew) as Hacc.
    repeat split; try done; [by etransitivity|].
    right. split; [done|]. split; [done|]. split; [done|].
    intros r' c' Hne. by rewrite Hw, Hsame.
  - assert (1 <= start_row) as H1.
    { destruct (decide (S (max_row ws) - start_row = 0)) as [El|El]; [lia|].
      by apply (find_row_start _ _ _ _ _ _ _ E). }
    assert (max_row ws1 = max_row ws) as HM.
    { destruct rows as [|x rows'] eqn:Er.
      - simpl in E. by injection E as <-.
      - pose proof E as [Hx _]%find_row_pos.
        apply (max_row_same ws ws1 x inv_col); [|done|by apply find_row_first in E|done|].
        + subst rows. destruct (S (max_row ws) - start_row) eqn:El; [done|]. lia.
        + intros r' c Hin. destruct (find_row_cells _ _ _ _ _ _ E _ Hin) as [Hin'|(x' & Hx' & [= -> ->])].
          * by apply max_row_ge in Hin'.
          * rewrite <- Er in Hx'. subst rows. apply elem_of_seq in Hx'. lia. }
    rewrite HM.
    set (target := if start_row <=? max_row ws then max_row ws + 1 else start_row).
    change (match (None : option nat) with Some (S r) => S r | _ => target end) with target.
    destruct (write ws1 target inv_col invoice) as [ws2|] eqn:Ew; [|done].
    cbn [mbind result_bind]. intros [= <- <-].
    pose proof (write_stored _ _ _ _ _ Ew) as [Hv Hw].
    pose proof (write_dom _ _ _ _ _ Ew) as [Hd1 Hd2].
    pose proof (write_pos _ _ _ _ _ Ew) as [_ H2].
    pose proof (write_accepted _ _ _ _ _ Ew) as Hacc.
    assert (start_row <= target /\ max_row ws < target
            /\ seq start_row (target - start_row) = rows) as (Ht1 & Ht2 & Ht3).
    { subst target rows. destruct (start_row <=? max_row ws) eqn:El.
      - apply Nat.leb_le in El. repeat split; [lia|lia|]. f_equal. lia.
      - apply Nat.leb_gt in El. repeat split; [lia|lia|].
        replace (start_row - start_row) with 0 by lia.
        by replace (S (max_row ws) - start_row) with 0 by lia. }
    assert (cell_value ws target inv_col = VNone) as Hnone.
    { unfold cell_value. destruct (cells ws !! (target, inv_col)) eqn:Ec; [|done].
      assert ((target, inv_col) ∈ dom (cells ws)) as Hin by (by apply elem_of_dom).
      apply max_row_ge in Hin. lia. }
    repeat split; try done; [by rewrite Ht3|by etransitivity|].
    right. split; [by left|]. split; [done|]. split; [done|].
    intros r' c' Hne. by rewrite Hw, Hsame.
Qed.

(** * The writes *)

Lemma setc_char cols r ws colkey val ws' :
  setc cols r ws colkey val = Ok ws' ->
  (forall r' c', cell_value ws' r' c' =
     if bool_decide (r' = r) && (non_empty val && bool_decide (cols !! colkey = Some c'))
     then stored val else cell_value ws r' c')
  /\ dom (cells ws) ⊆ dom (cells ws').
Proof.
  unfold setc. destruct (non_empty val) eqn:E.
  - unfold col. destruct (cols !! colkey) as [c|] eqn:Ec; [|done]. cbn [mbind result_bind].
    intros Hw. pose proof (write_stored _ _ _ _ _ Hw) as [Hv Ho].
    pose proof (write_dom _ _ _ _ _ Hw) as [_ Hd]. split; [|done].
    intros r' c'. cbn [andb].
    destruct (bool_decide_reflect (r' = r)) as [->|Hr]; cbn [andb].
    + destruct (bool_decide_reflect (Some c = Some c')) as [[= <-]|Hc]; [done|].
      apply Ho. congruence.
    + apply Ho. congruence.
  - intros [= <-]. split; [|done]. intros r' c'. by rewrite andb_false_r.
Qed.

Lemma written_cons cols colkey val calls c (old : value) :
  default old (written cols ((colkey, val) :: calls) c)
  = default (if non_empty val && bool_decide (cols !! colkey = Some c)
             then stored val else old)
            (written cols calls c).
Proof.
  unfold written. cbn [omap list_omap].
  destruct (non_empty val && bool_decide (cols !! colkey = Some c)); [|done].
  destruct (omap _ calls) as [|x l] eqn:E; [done|].
  change (last (stored val :: x :: l)) with (last (x :: l)).
  by destruct (last (x :: l)) eqn:El; [|apply last_None in El].
Qed.

Lemma setc_all_char cols r calls : forall ws ws',
  setc_all cols r calls ws = Ok ws' ->
  (forall r' c', cell_value ws' r' c' =
     if bool_decide (r' = r) then default (cell_value ws r' c') (written cols calls c')
     else cell_value ws r' c')
  /\ dom (cells ws) ⊆ dom (cells ws').
Proof.
  induction calls as [|[colkey val] calls IH]; intros ws ws'; simpl.
  - intros [= <-]. split; [|done]. intros r' c'. by destruct (bool_decide _).
  - destruct (setc cols r ws colkey val) as [ws1|] eqn:E; [|done]. cbn [mbind result_bind].
    apply setc_char in E as [E Hd1]. intros [H Hd2]%IH. split; [|by etransitivity].
    intros r' c'. rewrite H, written_cons, !E.
    destruct (bool_decide_reflect (r' = r)) as [->|Hr]; [|done].
    done.
Qed.

Lemma setc_all_ok cols r calls : forall ws ws' ws0,
  setc_all cols r calls ws = Ok ws' -> exists ws0', setc_all cols r calls ws0 = Ok ws0'.
Proof.
  induction calls as [|[colkey val] calls IH]; intros ws ws' ws0; simpl; [by eauto|].
  destruct (setc cols r ws colkey val) as [ws1|] eqn:E; [|done]. cbn [mbind result_bind].
  intros H. assert (exists ws01, setc cols r ws0 colkey val = Ok ws01) as [ws01 ->].
  { unfold setc in E |- *. destruct (non_empty val); [|by eauto].
    unfold col in E |- *. destruct (cols !! colkey) as [c|]; [|done].
    cbn [mbind result_bind] in E |- *. pose proof (write_accepted _ _ _ _ _ E).
    apply write_pos in E as [? ?]. by apply write_ok. }
  cbn [mbind result_bind]. by eapply IH.
Qed.

Lemma written_None cols calls c :
  (forall colkey val, (colkey, val) ∈ calls -> non_empty val = true -> cols !! colkey <> Some c) ->
  written cols calls c = None.
Proof.
  intros H. unfold written. replace (omap _ calls) with ([] : list value); [done|].
  symmetry. induction calls as [|[colkey val] calls IH]; [done|]. cbn [omap list_omap].
  destruct (non_empty val) eqn:Ev; cbn [andb].
  - rewrite bool_decide_false; [|apply (H colkey val); [by left|done]].
    apply IH. intros k v Hin. apply H. by right.
  - apply IH. intros k v Hin. apply H. by right.
Qed.

Lemma written_Some cols calls c v :
  written cols calls c = Some v ->
  exists colkey val, (colkey, val) ∈ calls /\ v = stored val /\ non_empty val = true
                     /\ cols !! colkey = Some c.
Proof.
  unfold written. intros H. apply last_Some in H as [l H].
  assert (v ∈ omap (fun '(colkey, val) =>
                      if non_empty val && bool_decide (cols !! colkey = Some c)
                      then Some (stored val) else None) calls) as Hin.
  { rewrite H. apply elem_of_app. right. by left. }
  apply list_elem_of_omap in Hin as ([colkey val] & Hin & Hv).
  destruct (non_empty val) eqn:Ev; [|done]. cbn [andb] in Hv.
  destruct (bool_decide_reflect (cols !! colkey = Some c)) as [Hc|]; [|done].
  injection Hv as <-. by exists colkey, val.
Qed.

(** * Filling a row *)

Lemma fill_excel_row_inv ws cols start_row inv pl_row_dict asi_desc dest_override ws' r :
  fill_excel_row ws cols start_row inv pl_row_dict asi_desc dest_override = Ok (ws', r) ->
  exists inv_col ws1,
    cols !! "inv" = Some inv_col
    /\ find_or_append_row ws inv_col start_row inv = Ok (ws1, r)
    /\ setc_all cols r (setc_calls pl_row_dict asi_desc dest_override) ws1 = Ok ws'.
Proof.
  unfold fill_excel_row, col. destruct (cols !! "inv") as [inv_col|]; [|done].
  cbn [mbind result_bind].
  destruct (find_or_append_row ws inv_col start_row inv) as [[ws1 r1]|] eqn:E1; [|done].
  cbn [mbind result_bind].
  destruct (setc_all cols r1 _ ws1) as [ws2|] eqn:E; [|done]. cbn [mbind result_bind].
  intros [= <- <-]. by exists inv_col, ws1.
Qed.

Lemma find_or_append_row_again ws inv_col start_row invoice (wsA ws1 : worksheet) r :
  find_or_append_row ws inv_col start_row invoice = Ok (wsA, r) ->
  stored invoice = invoice ->
  dom (cells wsA) ⊆ dom (cells ws1) ->
  (forall r', cell_value ws1 r' inv_col = cell_value wsA r' inv_col) ->
  exists wsB, find_or_append_row ws1 inv_col start_row invoice = Ok (wsB, r)
    /\ forall r' c', cell_value wsB r' c' = cell_value ws1 r' c'.
Proof.
  intros (Hs & Hc & Hle & Hpre & Hin & Hsub & Hcase)%find_or_append_row_inv Hst Hd Hcol.
  assert (r <= max_row ws1) as HM by (apply (max_row_ge ws1 r inv_col); by apply Hd).
  unfold find_or_append_row.
  assert (seq start_row (S (max_row ws1) - start_row)
          = seq start_row (r - start_row) ++ r :: seq (S r) (max_row ws1 - r)) as ->.
  { replace (S (max_row ws1) - start_row) with ((r - start_row) + S (max_row ws1 - r)) by lia.
    rewrite seq_app. cbn [seq].
    by replace (start_row + (r - start_row)) with r by lia. }
  assert (forall r', r' <> r -> cell_value ws1 r' inv_col = cell_value ws r' inv_col) as Hold.
  { intros r' Hne. rewrite Hcol. destruct Hcase as [(_ & _ & H)|(_ & _ & _ & H)]; [done|].
    apply H. congruence. }
  destruct (find_row_run inv_col (inv_norm invoice) (seq start_row (r - start_row)) ws1)
    with (r := r) (post := seq (S r) (max_row ws1 - r)) as (wsP & HP & ->); [done| | |].
  { apply Forall_forall. intros x Hx%elem_of_seq. lia. }
  { rewrite Forall_forall in Hpre |- *. intros x Hx. specialize (Hpre x Hx).
    apply elem_of_seq in Hx. unfold other_invoice in *. rewrite Hold by lia. done. }
  cbn [find_row]. destruct (read_ok wsP r inv_col) as [wsQ EQ]; [lia|done|].
  pose proof (read_spec _ _ _ _ _ EQ) as [_ HQ].
  rewrite EQ. cbn [mbind result_bind]. rewrite HP, Hcol.
  destruct Hcase as [(Hnb & Hk & Hv)|(Hb & Hacc & Hv & _)].
  - rewrite Hv. destruct (_ || _) eqn:Eb; [by apply blank_spec in Eb|].
    rewrite decide_True by done. cbn [mbind result_bind].
    exists wsQ. split; [done|]. intros r' c'. by rewrite HQ, HP.
  - rewrite Hv, Hst. destruct (_ || _) eqn:Eb.
    + cbn [mbind result_bind]. destruct r as [|r]; [lia|].
      destruct (write_ok wsQ (S r) inv_col invoice) as [wsR ER]; [lia|done|done|].
      rewrite ER. cbn [mbind result_bind]. exists wsR. split; [done|].
      apply write_stored in ER as [E1 E2]. intros r' c'.
      destruct (decide ((r', c') = (S r, inv_col))) as [[= -> ->]|Hne].
      * by rewrite E1, Hcol, Hv.
      * by rewrite E2, HQ, HP.
    + rewrite decide_True by done. cbn [mbind result_bind].
      exists wsQ. split; [done|]. intros r' c'. by rewrite HQ, HP.
Qed.

Lemma fill_excel_row_again ws cols start_row inv pl_row_dict asi_desc dest_override ws1 r :
  fill_excel_row ws cols start_row inv pl_row_dict asi_desc dest_override = Ok (ws1, r) ->
  stored inv = inv ->
  (forall colkey val, (colkey, val) ∈ setc_calls pl_row_dict asi_desc dest_override ->
     non_empty val = true -> cols !! colkey <> cols !! "inv") ->
  exists ws2,
    fill_excel_row ws1 cols start_row inv pl_row_dict asi_desc dest_override = Ok (ws2, r)
    /\ forall r' c', cell_value ws2 r' c' = cell_value ws1 r' c'.
Proof.
  intros (inv_col & wsA & Hinv & E1 & E2)%fill_excel_row_inv Hst Hcols.
  pose proof (setc_all_char _ _ _ _ _ E2) as [Hch Hd].
  assert (written cols (setc_calls pl_row_dict asi_desc dest_override) inv_col = None) as Hw.
  { apply written_None. intros k v Hin Hv. rewrite <- Hinv. by apply (Hcols k v). }
  destruct (find_or_append_row_again _ _ _ _ _ ws1 _ E1 Hst Hd) as (wsB & EB & HB).
  { intros r'. rewrite Hch, Hw. by destruct (bool_decide _). }
  destruct (setc_all_ok _ _ _ _ _ wsB E2) as [ws2 E3].
  exists ws2. split.
  - unfold fill_excel_row, col. rewrite Hinv. cbn [mbind result_bind].
    rewrite EB. cbn [mbind result_bind]. rewrite E3. done.
  - apply setc_all_char in E3 as [E3 _]. intros r' c'. rewrite E3, !HB, !Hch.
    destruct (bool_decide (r' = r)); [|done].
    by destruct (written cols _ c').
Qed.

(** * Rows that can be written *)

Lemma find_or_append_row_ok ws inv_col start_row invoice :
  1 <= start_row -> 1 <= inv_col -> accepted invoice ->
  exists ws' r, find_or_append_row ws inv_col start_row invoice = Ok (ws', r).
Proof.
  intros Hs Hc Hacc. unfold find_or_append_row.
  set (rows := seq start_row (S (max_row ws) - start_row)).
  destruct (find_row_ok inv_col (inv_norm invoice) rows ws Hc) as (ws1 & res & E).
  { apply Forall_forall. intros x Hx%elem_of_seq. lia. }
  rewrite E. cbn [mbind result_bind].
  pose proof (find_row_inv _ _ _ _ _ _ E) as Hinv.
  destruct res as [r0|[r0|]]; [by eauto| |].
  - destruct Hinv as (pre & post & Hrows & _).
    apply seq_split in Hrows as (_ & Hle & _).
    destruct r0 as [|r0]; [lia|].
    destruct (write_ok ws1 (S r0) inv_col invoice) as [ws2 ->]; [lia|done|done|]. by eauto.
  - destruct (write_ok ws1 (if start_row <=? max_row ws1 then max_row ws1 + 1 else start_row)
                       inv_col invoice) as [ws2 ->]; [|done|done|by eauto].
    destruct (_ <=? _); lia.
Qed.

Lemma setc_all_total cols r calls : forall ws,
  1 <= r ->
  (forall colkey val, (colkey, val) ∈ calls ->
     accepted val /\ exists c, cols !! colkey = Some c /\ 1 <= c) ->
  exists ws', setc_all cols r calls ws = Ok ws'.
Proof.
  induction calls as [|[colkey val] calls IH]; intros ws Hr H; simpl; [by eauto|].
  assert (exists ws1, setc cols r ws colkey val = Ok ws1) as [ws1 ->].
  { unfold setc. destruct (non_empty val); [|by eauto].
    destruct (H colkey val) as (Hacc & c & Hc & Hpos); [by left|].
    unfold col. rewrite Hc. cbn [mbind result_bind]. by apply write_ok. }
  cbn [mbind result_bind]. apply IH; [done|]. intros k v Hin. apply (H k v). by right.
Qed.

Lemma setc_calls_keys pl_row_dict asi_desc dest_override (colkey : text) val :
  (colkey, val) ∈ setc_calls pl_row_dict asi_desc dest_override ->
  colkey ∈ col_fields.*1.*1.
Proof.
  unfold setc_calls. rewrite !elem_of_app. intros [H|[H|H]].
  - apply list_elem_of_fmap in H as ([k f] & [= -> _] & Hin).
    assert (Forall (fun kf : text * text => kf.1 ∈ col_fields.*1.*1) pl_columns) as HF.
    { unfold pl_columns. repeat constructor; apply (bool_decide_unpack _); by vm_compute. }
    rewrite Forall_forall in HF. apply (HF _ Hin).
  - assert (colkey = "dest") as ->.
    { destruct (truthy dest_override); [by apply list_elem_of_singleton in H as [= -> _]|].
      destruct (truthy _); [by apply list_elem_of_singleton in H as [= -> _]|].
      by apply elem_of_nil in H. }
    apply (bool_decide_unpack _). by vm_compute.
  - assert (colkey = "description") as ->.
    { destruct (truthy asi_desc); [by apply list_elem_of_singleton in H as [= -> _]|].
      by apply elem_of_nil in H. }
    apply (bool_decide_unpack _). by vm_compute.
Qed.

Lemma dict_get_accepted (d : gmap text value) (k : text) :
  (forall k v, d !! k = Some v -> accepted v) -> accepted (dict_get d k).
Proof. intros H. unfold dict_get. destruct (d !! k) eqn:E; [by eapply H|done]. Qed.

Lemma setc_calls_accepted pl_row_dict asi_desc dest_override (colkey : text) val :
  (forall k v, pl_row_dict !! k = Some v -> accepted v) ->
  accepted asi_desc -> accepted dest_override ->
  (colkey, val) ∈ setc_calls pl_row_dict asi_desc dest_override -> accepted val.
Proof.
  intros Hpl Hd Ho. unfold setc_calls. rewrite !elem_of_app. intros [H|[H|H]].
  - apply list_elem_of_fmap in H as ([k f] & [= _ ->] & _). by apply dict_get_accepted.
  - destruct (truthy dest_override); [by apply list_elem_of_singleton in H as [= _ ->]|].
    destruct (truthy _); [|by apply elem_of_nil in H].
    apply list_elem_of_singleton in H as [= _ ->]. by apply dict_get_accepted.
  - destruct (truthy asi_desc); [|by apply elem_of_nil in H].
    by apply list_elem_of_singleton in H as [= _ ->].
Qed.

Lemma fill_excel_row_ok ws cols start_row inv pl_row_dict asi_desc dest_override :
  1 <= start_row ->
  (forall k : text, k ∈ col_fields.*1.*1 -> exists c, cols !! k = Some c /\ 1 <= c) ->
  accepted inv ->
  (forall colkey val, (colkey, val) ∈ setc_calls pl_row_dict asi_desc dest_override ->
     accepted val) ->
  exists ws' r,
    fill_excel_row ws cols start_row inv pl_row_dict asi_desc dest_override = Ok (ws', r)
    /\ start_row <= r.
Proof.
  intros Hs Hcols Hinv Hvals. unfold fill_excel_row, col.
  destruct (Hcols "inv") as (inv_col & -> & Hc); [apply (bool_decide_unpack _); by vm_compute|].
  cbn [mbind result_bind].
  destruct (find_or_append_row_ok ws inv_col start_row inv Hs Hc Hinv) as (ws1 & r & E).
  rewrite E. cbn [mbind result_bind].
  apply find_or_append_row_inv in E as (_ & _ & Hle & _).
  destruct (setc_all_total cols r (setc_calls pl_row_dict asi_desc dest_override) ws1)
    as [ws2 ->]; [lia| |cbn [mbind result_bind]; by eauto].
  intros k v Hin. split; [by eapply Hvals|]. apply Hcols. by eapply setc_calls_keys.
Qed.

End RowMore.

Module NikeFillFacts.
Import NikeTemplateManager NikeFill HeaderMore RowMore.

Lemma get_sheet_elem (wb : workbook) (name : text) ws :
  get_sheet wb name = Ok ws -> name ∈ sheetnames wb.
Proof.
  induction wb as [|[n w] wb IH]; simpl; [done|].
  destruct (decide (n = name)) as [->|Hne]; [intros _; by left|].
  intros H. right. by apply IH.
Qed.

Lemma get_sheet_Some (wb : workbook) (name : text) :
  name ∈ sheetnames wb -> exists ws, get_sheet wb name = Ok ws.
Proof.
  induction wb as [|[n w] wb IH]; simpl; [by intros ?%elem_of_nil|].
  destruct (decide (n = name)) as [->|Hne]; [by eauto|].
  intros [?|H]%elem_of_cons; [done|]. by apply IH.
Qed.

Lemma process_nike_data_missing wb data (sheet_name : text) start_row :
  sheet_name ∉ sheetnames wb ->
  process_nike_data wb data sheet_name start_row = (DataError ValueError, None).
Proof. intros H. unfold process_nike_data. by rewrite bool_decide_true. Qed.

Lemma process_nike_data_ok wb data (sheet_name : text) start_row :
  sheet_name ∈ sheetnames wb -> 2 <= start_row ->
  accepted (default (VStr []) (invoice_number data)) ->
  (forall k v, default ∅ (pl_data data) !! k = Some v -> accepted v) ->
  accepted (default (VStr []) (default ∅ (booking_data data) !! "DESCRIPTION")) ->
  exists r ws',
    process_nike_data wb data sheet_name start_row
    = (DataFilled r, Some (set_sheet wb sheet_name ws'))
    /\ start_row <= r.
Proof.
  intros Hin Hs Hnum Hpl Hdesc. unfold process_nike_data.
  rewrite bool_decide_false by (by intros ?).
  destruct (get_sheet_Some wb sheet_name Hin) as [ws ->]. cbn [mbind result_bind].
  destruct (build_cols_ok ws (start_row - 1)) as (ws1 & cols & -> & _ & Hk & Hpos); [lia|].
  cbn [mbind result_bind].
  edestruct (fill_excel_row_ok ws1 cols start_row) as (ws2 & r & -> & Hle);
    [lia| |exact Hnum| |].
  { intros k [c Hc]%Hk. exists c. split; [done|]. by eapply Hpos. }
  { intros colkey val Hc.
    by apply (setc_calls_accepted _ _ VNone colkey val Hpl Hdesc I Hc). }
  cbn [mbind result_bind]. by eauto.
Qed.

Lemma process_nike_data_first_rows wb data (sheet_name : text) start_row ws :
  get_sheet wb sheet_name = Ok ws -> 1 <= max_column ws -> start_row <= 1 ->
  process_nike_data wb data sheet_name start_row = (DataError ValueError, None).
Proof.
  intros Hg Hm Hs. unfold process_nike_data.
  rewrite bool_decide_false by (intros H; apply H; by eapply get_sheet_elem).
  rewrite Hg. cbn [mbind result_bind].
  replace (start_row - 1) with 0 by lia. by rewrite build_cols_row0.
Qed.

End NikeFillFacts.

Section NikeRows.
Import NikeTemplateManager NikeFill HeaderFacts HeaderMore RowFacts RowMore NikeFillFacts.

(** X2 (header keys): every key of the header dict is in normal form: it
    holds only lower-case letters, digits, "#" and blanks, has no blank at
    either end, and its column lies in the header row.  So the alias
    "item seq." of the field "itemseq" is never found: a header cell that
    reads "Item Seq." is filed under "item seq". *)
Theorem header_keys_normal_form (ws ws' : worksheet) (header_row : nat)
    (header : gmap text nat) :
  build_header ws header_row = Ok (ws', header) ->
  (forall (key : text) c, header !! key = Some c ->
     Forall (fun ch => is_lower ch || is_digit ch || bool_decide (ch ∈ ["#"; " "]%char) = true)
            key
     /\ strip key = key /\ 1 <= c <= max_column ws)
  /\ header !! "item seq." = None
  /\ pick header ["item seq"; "item seq."; "item"; "seq"]
     = pick header ["item seq"; "item"; "seq"].
Proof.
  intros H.
  assert (forall (key : text) c, header !! key = Some c ->
     Forall (fun ch => is_lower ch || is_digit ch || bool_decide (ch ∈ ["#"; " "]%char) = true)
            key
     /\ strip key = key /\ 1 <= c <= max_column ws) as Hkeys.
  { intros key c Hk. destruct (build_header_key _ _ _ _ _ _ H Hk) as [Hc (_ & _ & <-)].
    split; [apply header_key_chars|]. split; [apply header_key_strip|done]. }
  assert (header !! "item seq." = None) as Hdot.
  { destruct (header !! "item seq.") as [c|] eqn:E; [|done].
    destruct (Hkeys _ _ E) as [HF _]. rewrite Forall_forall in HF.
    specialize (HF "."%char). by discriminate HF; [apply (bool_decide_unpack _); vm_compute]. }
  split; [done|]. split; [done|].
  cbn [pick]. by rewrite Hdot.
Qed.

Lemma header_keys_normal_form_witness :
  build_header data_sheet 7 = Ok (fst data_sheet_header, snd data_sheet_header)
  /\ snd data_sheet_header !! "item seq." = None.
Proof.
  assert (build_header data_sheet 7 = Ok (fst data_sheet_header, snd data_sheet_header))
    as E by (vm_compute; reflexivity).
  split; [exact E|].
  exact (proj1 (proj2 (header_keys_normal_form _ _ _ _ E))).
Defined.

(** X3 (column map): for a header row of 1 or more,
    [build_header_map_and_get_cols] returns; it changes no cell value; the
    map has the fifteen fields and each column is 1 or more: the column
    under which the header dict files the first alias that it holds, and
    the default column of the field when it holds none. *)
Theorem build_header_map_and_get_cols_total (ws : worksheet) (header_row : nat) :
  1 <= header_row ->
  exists ws' header cols,
    build_header ws header_row = Ok (ws', header)
    /\ build_header_map_and_get_cols ws header_row = Ok (ws', cols)
    /\ (forall r c, cell_value ws' r c = cell_value ws r c)
    /\ (forall k : text, is_Some (cols !! k) <-> k ∈ col_fields.*1.*1)
    /\ (forall (k : text) c, cols !! k = Some c -> 1 <= c)
    /\ (forall (name : text) aliases d, (name, aliases, d) ∈ col_fields ->
          cols !! name = Some (default d (pick header aliases))).
Proof.
  intros Hr.
  destruct (header_loop_ok header_row (seq 1 (max_column ws)) ws ∅ Hr (max_column_seq_pos ws))
    as (ws' & header & E & Hs).
  destruct (build_cols_ok ws header_row Hr) as (ws'' & cols & Ec & _ & Hk & Hpos).
  exists ws', header, cols. split; [exact E|].
  assert (ws'' = ws' /\ cols = list_to_map ((fun '(name, aliases, d) =>
            (name, col_of header aliases d)) <$> col_fields)) as [-> Hcols].
  { unfold build_header_map_and_get_cols in Ec. unfold build_header in Ec, E.
    rewrite E in Ec. cbn [mbind result_bind] in Ec. by injection Ec as <- <-. }
  split; [done|]. split; [done|]. split; [done|]. split; [done|].
  intros name aliases d Hin. rewrite Hcols.
  assert (col_of header aliases d = default d (pick header aliases)) as <-.
  { unfold col_of. destruct (pick header aliases) as [v|] eqn:Ep; [|done].
    assert (1 <= v) as Hv.
    { clear -Ep E Hr. induction aliases as [|a aliases IH]; [done|]. simpl in Ep.
      destruct (header !! a) as [c|] eqn:Ea; [|by apply IH].
      injection Ep as <-. by apply (build_header_key _ _ _ _ _ _ E) in Ea as [[? _] _]. }
    destruct (v <? 1) eqn:Ev; [apply Nat.ltb_lt in Ev; lia|done]. }
  apply elem_of_list_to_map_1.
  - rewrite <- list_fmap_compose.
    assert (NoDup (col_fields.*1.*1)) as Hnd by (apply (bool_decide_unpack _); by vm_compute).
    rewrite <- list_fmap_compose in Hnd.
    erewrite list_fmap_ext; [exact Hnd|]. by intros i [[? ?] ?] _.
  - apply list_elem_of_fmap. by exists (name, aliases, d).
Qed.

Lemma build_header_map_and_get_cols_total_witness :
  exists ws' header cols,
    build_header data_sheet 7 = Ok (ws', header)
    /\ build_header_map_and_get_cols data_sheet 7 = Ok (ws', cols)
    /\ (forall r c, cell_value ws' r c = cell_value data_sheet r c)
    /\ (forall k : text, is_Some (cols !! k) <-> k ∈ col_fields.*1.*1)
    /\ (forall (k : text) c, cols !! k = Some c -> 1 <= c)
    /\ (forall (name : text) aliases d, (name, aliases, d) ∈ col_fields ->
          cols !! name = Some (default d (pick header aliases))).
Proof. apply (build_header_map_and_get_cols_total data_sheet 7). lia. Defined.

(** X4 (the row of an invoice): when [find_or_append_row] returns, it
    returns the first row, from the start row on, whose cell in the invoice
    column is blank ([None] or white space; a row below the last one
    counts) or holds the same invoice up to white space and case.  The
    rows passed over hold other invoices.  A row with the same invoice is
    reused and nothing is written; else the invoice is a value that a cell
    takes, the blank cell holds it as a cell stores it (a string cut at
    32767 characters), and no other cell changes. *)
Theorem find_or_append_row_target (ws ws' : worksheet) (inv_col start_row r : nat)
    (invoice : value) :
  find_or_append_row ws inv_col start_row invoice = Ok (ws', r) ->
  start_row <= r
  /\ (forall r', start_row <= r' < r -> other_invoice ws inv_col (inv_norm invoice) r')
  /\ ((~ blank (cell_value ws r inv_col)
       /\ inv_norm (cell_value ws r inv_col) = inv_norm invoice
       /\ forall r' c', cell_value ws' r' c' = cell_value ws r' c')
      \/ (blank (cell_value ws r inv_col) /\ accepted invoice
          /\ cell_value ws' r inv_col = stored invoice
          /\ forall r' c', (r', c') <> (r, inv_col) ->
                cell_value ws' r' c' = cell_value ws r' c')).
Proof.
  intros (_ & _ & Hle & Hpre & _ & _ & Hcase)%find_or_append_row_inv.
  split; [done|]. split; [|done].
  intros r' Hr'. rewrite Forall_forall in Hpre. apply Hpre. apply elem_of_seq. lia.
Qed.

Lemma find_or_append_row_target_witness :
  find_or_append_row data_sheet 1 8 (VStr "B7654321")
    = Ok (fst data_sheet_appended, snd data_sheet_appended)
  /\ 8 <= snd data_sheet_appended
  /\ snd data_sheet_appended = 9.
Proof.
  assert (find_or_append_row data_sheet 1 8 (VStr "B7654321")
          = Ok (fst data_sheet_appended, snd data_sheet_appended)) as E
    by (vm_compute; reflexivity).
  split; [exact E|]. split; [|vm_compute; reflexivity].
  exact (proj1 (find_or_append_row_target _ _ _ _ _ _ E)).
Defined.

(** X5 (filling twice): when [fill_excel_row] has written a record, the
    invoice is stored as it is (it is not a string of more than 32767
    characters), and no field with a non-empty value shares the column of
    the invoice, writing the same record again finds the same row and
    leaves every cell as it is: no second row is made for the invoice. *)
Theorem fill_excel_row_twice (ws ws1 : worksheet) (cols : gmap text nat) (start_row r : nat)
    (inv : value) (pl_row_dict : gmap text value) (asi_desc dest_override : value) :
  fill_excel_row ws cols start_row inv pl_row_dict asi_desc dest_override = Ok (ws1, r) ->
  stored inv = inv ->
  (forall colkey val, (colkey, val) ∈ setc_calls pl_row_dict asi_desc dest_override ->
     non_empty val = true -> cols !! colkey <> cols !! "inv") ->
  exists ws2,
    fill_excel_row ws1 cols start_row inv pl_row_dict asi_desc dest_override = Ok (ws2, r)
    /\ forall r' c', cell_value ws2 r' c' = cell_value ws1 r' c'.
Proof. apply fill_excel_row_again. Qed.

Lemma fill_excel_row_twice_witness :
  exists ws2,
    fill_excel_row (fst data_sheet_filled) cols_example 8 (VStr "A1234567") pl_example
      VNone VNone = Ok (ws2, 8)
    /\ forall r' c', cell_value ws2 r' c' = cell_value (fst data_sheet_filled) r' c'.
Proof.
  assert (fill_excel_row data_sheet cols_example 8 (VStr "A1234567") pl_example VNone VNone
          = Ok (fst data_sheet_filled, 8)) as E by (vm_compute; reflexivity).
  apply (fill_excel_row_twice _ _ _ _ _ _ _ _ _ E); [vm_compute; reflexivity|].
  intros colkey val Hin _. unfold setc_calls in Hin.
  assert (truthy (dict_get pl_example "DEST") = false) as Hd by (vm_compute; reflexivity).
  rewrite Hd in Hin. cbn [truthy fmap list_fmap pl_columns app] in Hin.
  repeat (apply elem_of_cons in Hin as [[= -> ->]|Hin]; [vm_compute; discriminate|]).
  by apply elem_of_nil in Hin.
Defined.

(** X6 ([process_nike_data]): the outcome is a failure, and nothing is
    saved, when the sheet is not in the workbook, and when the start row
    is 1 or less (the header row above it does not exist); with a sheet of
    the workbook, a start row of 2 or more, and an invoice number, record
    values and a description that a cell takes (no string with a control
    character among its first 32767 characters), it is a success, the row
    reported is the start row or a later one, and only that sheet is
    replaced. *)
Theorem process_nike_data_outcome (wb : workbook) (data : invoice_data) (sheet_name : text)
    (start_row : nat) :
  (sheet_name ∉ sheetnames wb ->
   process_nike_data wb data sheet_name start_row = (DataError ValueError, None))
  /\ (forall ws, get_sheet wb sheet_name = Ok ws -> 1 <= max_column ws -> start_row <= 1 ->
      process_nike_data wb data sheet_name start_row = (DataError ValueError, None))
  /\ (sheet_name ∈ sheetnames wb -> 2 <= start_row ->
      accepted (default (VStr []) (invoice_number data)) ->
      (forall k v, default ∅ (pl_data data) !! k = Some v -> accepted v) ->
      accepted (default (VStr []) (default ∅ (booking_data data) !! "DESCRIPTION")) ->
      exists r ws',
        process_nike_data wb data sheet_name start_row
        = (DataFilled r, Some (set_sheet wb sheet_name ws'))
        /\ start_row <= r).
Proof.
  split; [apply process_nike_data_missing|].
  split; [apply process_nike_data_first_rows|apply process_nike_data_ok].
Qed.

Lemma process_nike_data_outcome_witness :
  (exists r ws',
     process_nike_data form_and_data invoice_example "Data" 8
     = (DataFilled r, Some (set_sheet form_and_data "Data" ws')) /\ 8 <= r)
  /\ process_nike_data form_and_data invoice_example "Sheet9" 8 = (DataError ValueError, None)
  /\ process_nike_data form_and_data invoice_example "Data" 1 = (DataError ValueError, None).
Proof.
  pose proof (process_nike_data_outcome form_and_data invoice_example "Data" 8) as (_ & _ & H3).
  pose proof (process_nike_data_outcome form_and_data invoice_example "Sheet9" 8) as (H1 & _).
  pose proof (process_nike_data_outcome form_and_data invoice_example "Data" 1) as (_ & H2 & _).
  split; [|split].
  - apply H3; [apply (bool_decide_unpack _); by vm_compute|lia|vm_compute; reflexivity|
               |vm_compute; reflexivity].
    change (map_Forall (fun (_ : text) v => accepted v) (default ∅ (pl_data invoice_example))).
    apply (bool_decide_unpack _). vm_compute. reflexivity.
  - apply H1. apply (bool_decide_unpack _). by vm_compute.
  - eapply H2; [by vm_compute|vm_compute; lia|lia].
Defined.

End NikeRows.

(** * The keys of the record *)

Lemma init_row_dom (k : text) : k ∈ dom init_row <-> k ∈ pl_keys.
Proof.
  unfold init_row. rewrite dom_list_to_map_L, elem_of_list_to_set.
  rewrite <- list_fmap_compose. by rewrite list_fmap_id.
Qed.

Lemma dom_insert_key (r : gmap text text) (k v : text) :
  dom r = dom init_row -> k ∈ pl_keys -> dom (<[k := v]> r) = dom init_row.
Proof.
  intros Hr Hk%init_row_dom. rewrite dom_insert_L, Hr.
  apply subseteq_union_1_L. by apply singleton_subseteq_l.
Qed.

Lemma guarded_fold_dom (txt : text) (fields : list (text * pat)) : forall r : gmap text text,
  Forall (fun kp => kp.1 ∈ pl_keys) fields ->
  dom r = dom init_row ->
  dom (foldl (fun r '(k, pattern) => <[k := or_text (get r k) (grab txt pattern)]> r)
             r fields) = dom init_row.
Proof.
  induction fields as [|[k p] fields IH]; intros r Hf Hr; simpl; [done|].
  apply Forall_cons in Hf as [Hk Hf]. apply IH; [done|]. by apply dom_insert_key.
Qed.

Lemma page_fields_dom (pg : page) (r : gmap text text) :
  dom r = dom init_row -> dom (page_fields pg r) = dom init_row.
Proof.
  intros Hr. unfold page_fields, page_text_fields. cbn [row].
  apply guarded_fold_dom.
  { unfold guarded_fields. repeat constructor; pl_key. }
  destruct (match search RE_DATE_NUM _ with Some mo => Some mo | None => _ end).
  - apply dom_insert_key; [|pl_key].
    destruct (search RE_INVOICE _); [apply dom_insert_key; [done|pl_key]|done].
  - destruct (search RE_INVOICE _); [apply dom_insert_key; [done|pl_key]|done].
Qed.

Lemma page_step_dom (st : pl_state) (pg : page) :
  dom (row st) = dom init_row -> dom (row (page_step st pg)) = dom init_row.
Proof.
  intros Hr. rewrite row_page_step. pose proof (page_fields_dom pg _ Hr) as H.
  destruct (marks_text pg); [done|]. apply dom_insert_key; [done|pl_key].
Qed.

Lemma foldl_page_step_dom (pages : list page) : forall st : pl_state,
  dom (row st) = dom init_row -> dom (row (foldl page_step st pages)) = dom init_row.
Proof.
  induction pages as [|pg pages IH]; intros st Hr; simpl; [done|].
  apply IH. by apply page_step_dom.
Qed.

Lemma set_po_values_dom (st : pl_state) :
  dom (row st) = dom init_row -> dom (set_po_values st) = dom init_row.
Proof.
  intros Hr. unfold set_po_values.
  destruct (refpo_hits st), (po_hits st);
    repeat (apply dom_insert_key; [|pl_key]); done.
Qed.

Lemma parse_pl_dom (pdf : result (list page)) : dom (parse_pl pdf) = dom init_row.
Proof.
  destruct pdf as [pages|e]; [|done]. rewrite parse_pl_fold.
  apply set_po_values_dom. by apply foldl_page_step_dom.
Qed.

Lemma parse_pl_keys (pdf : result (list page)) (k : text) : is_Some (parse_pl pdf !! k) <-> k ∈ pl_keys.
Proof. by rewrite <- elem_of_dom, parse_pl_dom, init_row_dom. Qed.

(** X7 (the record of a packing list): [parse_pl] returns a record with
    the same thirteen keys for every PDF, readable or not;
    [process_packing_list] returns that record and adds the key "DEST"
    exactly when the marks are not empty and [dest_from_marks] finds a
    destination in them. *)
Theorem process_packing_list_keys (pdf : result (list page)) :
  (forall k : text, is_Some (parse_pl pdf !! k) <-> k ∈ pl_keys)
  /\ (forall k : text, k <> "DEST" -> process_packing_list pdf !! k = parse_pl pdf !! k)
  /\ (forall dest : text,
        process_packing_list pdf !! "DEST" = Some dest <->
        dest <> [] /\ exists marks : text,
          parse_pl pdf !! "Marks" = Some marks /\ marks <> []
          /\ dest_from_marks marks = dest).
Proof.
  split; [apply parse_pl_keys|].
  assert (parse_pl pdf !! "DEST" = None) as Hnone.
  { destruct (parse_pl pdf !! "DEST") eqn:E; [|done].
    assert (("DEST" : text) ∈ pl_keys) as H by (apply (parse_pl_keys pdf); by eexists).
    exfalso. revert H. apply (bool_decide_unpack _). by vm_compute. }
  assert (is_Some (parse_pl pdf !! "Marks")) as [mk Hmk].
  { apply (parse_pl_keys pdf). pl_key. }
  unfold process_packing_list. rewrite Hmk. cbn [from_option id].
  destruct mk as [|x mk].
  { split; [done|]. intros dest. rewrite Hnone. split; [done|].
    intros (_ & marks & [= <-] & Hne & _). done. }
  destruct (dest_from_marks (x :: mk)) as [|y d] eqn:Ed.
  { split; [done|]. intros dest. rewrite Hnone. split; [done|].
    intros (Hd & marks & [= <-] & _ & Hdm). congruence. }
  split.
  - intros k Hk. by rewrite lookup_insert_ne.
  - intros dest. rewrite lookup_insert_eq. split.
    + intros [= <-]. split; [done|]. by exists (x :: mk).
    + intros (_ & marks & [= <-] & _ & Hdm). congruence.
Qed.

(** * The PO numbers *)

Lemma scan_elem r mo : forall l skip s,
  mo ∈ scan r skip s l ->
  exists s' l1 e l2, match_at r s' l1 = Some (e, l2) /\ mo = mk_mobj s' l1 e.
Proof.
  induction l as [|c l IH]; intros skip s H.
  - destruct skip; simpl in H; [|by apply elem_of_nil in H].
    destruct (match_at r s []) as [[e l2]|] eqn:E; [|by apply elem_of_nil in H].
    apply list_elem_of_singleton in H as ->. by exists s, [], e, l2.
  - destruct skip as [|n]; simpl in H; [|by eapply IH].
    destruct (match_at r s (c :: l)) as [[e l2]|] eqn:E; [|by eapply IH].
    apply elem_of_cons in H as [->|H]; [by exists s, (c :: l), e, l2|by eapply IH].
Qed.

Lemma m_cat_cons r rs k s l x :
  m (cat (r :: rs)) k s l = Some x ->
  exists s' w l', l = w ++ l' /\ pos s' = pos s + length w /\ m (cat rs) k s' l' = Some x.
Proof. intros H. by apply (m_consumes r) in H. Qed.

(** The text taken by a group that is a repetition. *)
Lemma m_grp1_rep p lo k s l x :
  (forall s' l' y, k s' l' = Some y -> grp (fst y) = grp s') ->
  m (Grp 1 (Rep true p lo None)) k s l = Some x ->
  exists w, Forall (fun c => p c = true) w /\ lo <= length w
            /\ grp (fst x) = (1, w) :: grp s.
Proof.
  intros Hk H. cbn [m] in H.
  apply rep_inv in H as (w & l' & -> & Hw & Hlo & _ & H).
  exists w. split; [done|]. split; [done|].
  apply Hk in H. rewrite H. unfold set_grp. cbn [grp]. rewrite grp_steps, pos_steps.
  replace (pos s + length w - pos s) with (length w) by lia.
  by rewrite take_app_length.
Qed.

Lemma g1_mk_mobj s l e (w : text) gs : grp e = (1, w) :: gs -> g1 (mk_mobj s l e) = w.
Proof. intros H. unfold g1, group, mk_mobj. cbn [groups]. by rewrite H. Qed.

Lemma match_po_any s l e l' :
  match_at RE_PO_ANY s l = Some (e, l') -> digits_at_least 7 (g1 (mk_mobj s l e)).
Proof.
  unfold match_at, RE_PO_ANY. intros H.
  do 7 (apply m_cat_cons in H as (? & ? & ? & -> & _ & H)).
  change (cat [Grp 1 (at_least 7 is_digit)]) with (Seq (Grp 1 (Rep true is_digit 7 None)) Eps) in H.
  cbn [m] in H. change (rep true is_digit 7 None ?k ?s ?l)
    with (m (Grp 1 (Rep true is_digit 7 None)) accept s l) in H.
  apply rep_inv in H as (w & l1 & -> & Hw & Hlo & _ & H).
  injection H as <- <-. erewrite g1_mk_mobj; [by split|].
  unfold set_grp. cbn [grp]. rewrite pos_steps.
  match goal with |- (1, take (?a + ?b - ?a) _) :: _ = _ =>
    replace (a + b - a) with b by lia end.
  by rewrite take_app_length.
Qed.

Lemma match_refpo s l e l' :
  match_at RE_REFPO s l = Some (e, l') -> digits_at_least 7 (g1 (mk_mobj s l e)).
Proof.
  unfold match_at, RE_REFPO. intros H.
  do 6 (apply m_cat_cons in H as (? & ? & ? & -> & _ & H)).
  match type of H with m (cat [Grp 1 (at_least 7 is_digit); ?a]) _ _ _ = _ =>
    change (cat [Grp 1 (at_least 7 is_digit); a])
      with (Seq (Grp 1 (Rep true is_digit 7 None)) (Seq a Eps)) in H end.
  cbn [m] in H.
  apply rep_inv in H as (w & l1 & -> & Hw & Hlo & _ & H).
  match type of H with match ?t with Some _ => _ | None => _ end = _ =>
    destruct t; [|done] end.
  injection H as <- <-. erewrite g1_mk_mobj; [by split|].
  unfold set_grp. cbn [grp]. rewrite pos_steps.
  match goal with |- (1, take (?a + ?b - ?a) _) :: _ = _ =>
    replace (a + b - a) with b by lia end.
  by rewrite take_app_length.
Qed.

Lemma findall_po_any (txt v : text) : v ∈ findall RE_PO_ANY txt -> digits_at_least 7 v.
Proof.
  unfold findall, finditer. intros (mo & -> & Hmo)%list_elem_of_fmap.
  apply scan_elem in Hmo as (s & l & e & l' & H & ->). by eapply match_po_any.
Qed.

Lemma findall_refpo (txt v : text) : v ∈ findall RE_REFPO txt -> digits_at_least 7 v.
Proof.
  unfold findall, finditer. intros (mo & -> & Hmo)%list_elem_of_fmap.
  apply scan_elem in Hmo as (s & l & e & l' & H & ->). by eapply match_refpo.
Qed.

Lemma po_candidates_digits pages (v : text) : v ∈ po_candidates pages -> digits_at_least 7 v.
Proof.
  unfold po_candidates. intros (pg & Hv & _)%list_elem_of_bind.
  apply elem_of_app in Hv as [Hv|Hv]; by eapply findall_po_any.
Qed.

Lemma refpo_candidates_digits pages (v : text) :
  v ∈ refpo_candidates pages -> digits_at_least 7 v.
Proof.
  unfold refpo_candidates. intros (pg & Hv & _)%list_elem_of_bind. by eapply findall_refpo.
Qed.

(** X8 (PO numbers): in the record of every document, "PO" and
    "Reference PO#" are empty or hold a number of seven digits or more;
    nothing but digits gets into them. *)
Theorem po_values_are_numbers (pages : list page) (f v : text) :
  f = "PO" \/ f = "Reference PO#" ->
  parse_pl (Ok pages) !! f = Some v ->
  v = [] \/ digits_at_least 7 v.
Proof.
  destruct (parse_pl_po_fields pages) as [Hr Hp].
  intros [-> | ->] H.
  - rewrite Hp in H. injection H as <-.
    destruct (po_candidates pages) as [|x l] eqn:E; [by left|]. right.
    apply (po_candidates_digits pages). rewrite E. by left.
  - rewrite Hr in H. injection H as <-.
    destruct (refpo_candidates pages) as [|y l'] eqn:E'.
    + destruct (po_candidates pages) as [|x l] eqn:E; [by left|]. right.
      apply (po_candidates_digits pages). rewrite E. by left.
    + right. apply (refpo_candidates_digits pages). rewrite E'. by left.
Qed.

Lemma po_values_are_numbers_witness :
  parse_pl (Ok [text_page "PO: 7654321"]) !! "PO" = Some "7654321"
  /\ digits_at_least 7 "7654321".
Proof.
  assert (parse_pl (Ok [text_page "PO: 7654321"]) !! "PO" = Some "7654321") as H
    by (by vm_compute).
  split; [exact H|].
  by destruct (po_values_are_numbers [text_page "PO: 7654321"] "PO" "7654321"
                 (or_introl eq_refl) H).
Defined.

(** * The destination *)

Lemma starts_with_app (p a b : text) :
  starts_with p a = true -> starts_with p (a ++ b) = true.
Proof.
  intros [c ->]%starts_with_spec. apply starts_with_spec. exists (c ++ b).
  by rewrite (assoc_L (++)).
Qed.

Lemma before_first_prefix (p s : text) : exists b, s = before_first p s ++ b.
Proof.
  induction s as [|c s [b IH]]; simpl.
  - exists []. by destruct (starts_with p []).
  - destruct (starts_with p (c :: s)); [by exists (c :: s)|].
    exists b. simpl. by rewrite <- IH.
Qed.

Lemma before_first_free (p s : text) : p <> [] -> contains p (before_first p s) = false.
Proof.
  intros Hp. induction s as [|c s IH]; cbn [before_first].
  - destruct p; [done|]. done.
  - destruct (starts_with p (c :: s)) eqn:E.
    + destruct p; [done|]. done.
    + cbn [contains]. rewrite IH, orb_false_r.
      destruct (starts_with p (c :: before_first p s)) eqn:E'; [|done].
      destruct (before_first_prefix p s) as [b Hb].
      apply (starts_with_app _ _ b) in E'. simpl in E'. rewrite <- Hb in E'. congruence.
Qed.

(** X9 (destination and label): when the marks hold the label "Country
    Of Origin", the destination is read from the text before its first
    occurrence alone; what follows the label, the country of origin
    itself, never becomes the destination. *)
Theorem dest_from_marks_before_label (marks : text) :
  contains "Country Of Origin" marks = true ->
  dest_from_marks marks = dest_from_marks (before_first "Country Of Origin" marks).
Proof.
  intros Hc. destruct marks as [|x marks]; [done|].
  unfold dest_from_marks at 1. unfold marks_prefix. rewrite Hc.
  pose proof (before_first_free "Country Of Origin" (x :: marks) ltac:(done)) as Hfree.
  destruct (before_first "Country Of Origin" (x :: marks)) as [|y pre] eqn:E.
  - by vm_compute.
  - unfold dest_from_marks, marks_prefix. by rewrite Hfree.
Qed.

Lemma dest_from_marks_before_label_witness :
  dest_from_marks marks_ex = dest_from_marks "NIKE Vietnam 1234567 Canada ".
Proof.
  etransitivity; [apply dest_from_marks_before_label; by vm_compute|].
  f_equal.
Defined.

(** * The marks *)

(** X10 (marks never raise): [extract_marks_by_words] returns for every
    page: a line that holds the label "Country Of Origin" has a word that
    holds "Country", "Of" or "Origin", so [min] is never taken over an
    empty sequence.  So the page loop of [parse_pl] is never left by an
    exception, and the PO values are set for every readable document. *)
Theorem extract_marks_never_raises :
  (forall pg : page, exists mk, extract_marks_by_words pg = Ok mk /\ extract_marks pg = Ok mk)
  /\ (forall (pages : list page) (st : pl_state), snd (page_loop pages st) = None)
  /\ (forall pages : list page,
        parse_pl (Ok pages) = set_po_values (fst (page_loop pages (PlState init_row [] [])))).
Proof.
  split; [|split].
  - intros pg. destruct (extract_marks_ok pg) as [mk H]. by exists mk.
  - intros pages st. by rewrite page_loop_fold.
  - intros pages. unfold parse_pl. by rewrite page_loop_fold.
Qed.

(** * The description of a booking *)

Lemma desc_key_cases (s : text) :
  (s = "SKULL CAP" /\ desc_key s = 0) \/ (s = "HAT" /\ desc_key s = 1)
  \/ (s = "CAP" /\ desc_key s = 2)
  \/ (s <> "SKULL CAP" /\ s <> "HAT" /\ s <> "CAP" /\ desc_key s = 99).
Proof.
  unfold desc_key, priority. cbn [index_of].
  destruct (decide ("SKULL CAP" = s)) as [<-|H1]; [by left|].
  destruct (decide ("HAT" = s)) as [<-|H2]; [by right; left|].
  destruct (decide ("CAP" = s)) as [<-|H3]; [by right; right; left|].
  right; right; right. by repeat split.
Qed.

Lemma sorted_head_le {A} (le : A -> A -> bool) (l : list A) h t :
  (forall a b, le a b = false -> le b a = true) ->
  (forall a b c, le a b = true -> le b c = true -> le a c = true) ->
  sorted le l = h :: t -> h ∈ l /\ forall y, y ∈ l -> le h y = true.
Proof.
  intros Htot Htr E.
  pose proof (sorted_sorted le Htot Htr l) as Hs. pose proof (sorted_perm le l) as Hp.
  rewrite E in Hs, Hp. split; [rewrite <- Hp; by left|].
  intros y Hy. rewrite <- Hp in Hy. apply elem_of_cons in Hy as [->|Hy].
  - destruct (le h h) eqn:Eh; [done|]. pose proof (Htot _ _ Eh). congruence.
  - apply StronglySorted_inv in Hs as [_ Hs]. rewrite Forall_forall in Hs. by apply Hs.
Qed.

Lemma select_desc_spec (l : list text) :
  l <> [] ->
  select_desc l ∈ l /\ forall y : text, y ∈ l -> desc_key (select_desc l) <= desc_key y.
Proof.
  intros Hl. unfold select_desc.
  destruct (sorted (fun a b => desc_key a <=? desc_key b) l) as [|h t] eqn:E.
  - pose proof (sorted_perm (fun a b => desc_key a <=? desc_key b) l) as Hp.
    rewrite E in Hp. by apply Permutation_nil_l in Hp.
  - apply sorted_head_le in E as [Hh Hle].
    + split; [done|]. intros y Hy. apply Nat.leb_le. by apply Hle.
    + intros a b H%Nat.leb_gt. apply Nat.leb_le. lia.
    + intros a b c H1%Nat.leb_le H2%Nat.leb_le. apply Nat.leb_le. lia.
Qed.

Section Booking.
Context (set_iter : gset text -> list text).
Hypothesis set_iter_perm : forall X : gset text, set_iter X ≡ₚ elements X.

Lemma asi_desc_spec (pdf_path : text) (pages : list page) :
  let descs := (asi_scan pages).2 in
  let desc := (extract_asi_desc_from_pdf set_iter pdf_path (Ok pages)).2 in
  (descs = ∅ -> desc = [])
  /\ (descs <> ∅ -> desc ∈ descs /\ forall y : text, y ∈ descs -> desc_key desc <= desc_key y).
Proof.
  unfold extract_asi_desc_from_pdf. destruct (asi_scan pages) as [invs descs]. cbn [snd].
  destruct (decide (descs = ∅)) as [->|Hne]; [done|]. split; [done|]. intros _.
  destruct (select_desc_spec (set_iter descs)) as [Hin Hle].
  { intros E. apply Hne. apply set_eq. intros x. rewrite elem_of_empty.
    rewrite <- elem_of_elements, <- set_iter_perm, E. apply elem_of_nil. }
  split.
  - apply elem_of_elements. by rewrite <- set_iter_perm.
  - intros y Hy. apply Hle. rewrite set_iter_perm. by apply elem_of_elements.
Qed.

End Booking.

(** X11 (description of a booking): whatever the order in which the set
    of descriptions is iterated, [extract_asi_desc_from_pdf] returns one
    of the descriptions found; it returns "SKULL CAP" when that is among
    them, else "HAT" when that is, else "CAP" when that is; and it returns
    the empty string when no description was found. *)
Theorem extract_asi_desc_priority (set_iter : gset text -> list text) (pdf_path : text)
    (pages : list page) :
  (forall X : gset text, set_iter X ≡ₚ elements X) ->
  let descs := (asi_scan pages).2 in
  let desc := (extract_asi_desc_from_pdf set_iter pdf_path (Ok pages)).2 in
  (descs = ∅ -> desc = [])
  /\ (descs <> ∅ -> desc ∈ descs)
  /\ ("SKULL CAP" ∈ descs -> desc = "SKULL CAP")
  /\ ("SKULL CAP" ∉ descs -> "HAT" ∈ descs -> desc = "HAT")
  /\ ("SKULL CAP" ∉ descs -> "HAT" ∉ descs -> "CAP" ∈ descs -> desc = "CAP").
Proof.
  intros Hperm descs desc.
  destruct (asi_desc_spec set_iter Hperm pdf_path pages) as [H0 H1].
  fold descs desc in H0, H1.
  assert (forall x : text, x ∈ descs -> desc ∈ descs /\ desc_key desc <= desc_key x) as H.
  { intros x Hx. destruct H1 as [Hin Hle]; [intros E; rewrite E in Hx; by apply elem_of_empty in Hx|].
    split; [done|]. by apply Hle. }
  split; [done|]. split; [intros Hne; by apply H1|].
  assert (desc_key "SKULL CAP" = 0 /\ desc_key "HAT" = 1 /\ desc_key "CAP" = 2)
    as (K0 & K1 & K2) by done.
  split; [|split].
  - intros Hx. apply H in Hx as [_ Hle]. rewrite K0 in Hle.
    destruct (desc_key_cases desc) as [[? ?]|[[? E]|[[? E]|(_ & _ & _ & E)]]];
      [done|rewrite E in Hle; lia..].
  - intros Hs Hx. apply H in Hx as [Hin Hle]. rewrite K1 in Hle.
    destruct (desc_key_cases desc) as [[E ?]|[[? E]|[[? E]|(_ & _ & _ & E)]]];
      [by rewrite E in Hin|done|rewrite E in Hle; lia..].
  - intros Hs Hh Hx. apply H in Hx as [Hin Hle]. rewrite K2 in Hle.
    destruct (desc_key_cases desc) as [[E ?]|[[E ?]|[[? E]|(_ & _ & _ & E)]]];
      [by rewrite E in Hin|by rewrite E in Hin|done|rewrite E in Hle; lia].
Qed.

Lemma extract_asi_desc_priority_witness :
  (extract_asi_desc_from_pdf elements "A7654321B.pdf" (Ok [booking_page])).2 = "SKULL CAP".
Proof.
  apply (extract_asi_desc_priority elements "A7654321B.pdf" [booking_page]); [done|].
  apply (bool_decide_unpack _). by vm_compute.
Defined.

(** * The product types *)

Lemma contains_refl (s : text) : contains s s = true.
Proof. apply contains_spec. exists [], []. by rewrite app_nil_r. Qed.

(** X12 ("SKULL CAP" and its misspelling): [_clean_desc] returns "SKULL
    CAP" exactly for the descriptions whose cleaned text holds "SKULL CAP"
    itself.  A cleaned text that holds "SCULL CAP" is never mapped through
    the entry of that key: it holds "CAP", which is tried before, and the
    result is "SKULL CAP", "HAT" or "CAP" by what else it holds. *)
Theorem skull_cap_only_when_spelled (d : text) :
  (_clean_desc d = "SKULL CAP" <-> contains "SKULL CAP" (clean_text d) = true)
  /\ (contains "SCULL CAP" (clean_text d) = true ->
      _clean_desc d = if contains "SKULL CAP" (clean_text d) then "SKULL CAP"
                      else if contains "HAT" (clean_text d) then "HAT" else "CAP").
Proof.
  split; [|unfold _clean_desc; apply map_product_scull_cap].
  unfold _clean_desc, product_keys. cbn [map_product].
  destruct (contains "SKULL CAP" (clean_text d)) eqn:E1; [done|].
  destruct (contains "HAT" (clean_text d)) eqn:E2; [done|].
  destruct (contains "CAP" (clean_text d)) eqn:E3; [done|].
  destruct (contains "BEANIE" (clean_text d)) eqn:E4; [done|].
  destruct (contains "SCULL CAP" (clean_text d)) eqn:E5.
  - assert (contains "CAP" (clean_text d) = true) as H; [|congruence].
    by apply (contains_trans "SCULL CAP").
  - split; [|done]. intros H. rewrite H in E1. by rewrite contains_refl in E1.
Qed.

(** * The invoice processor *)

Lemma parse_pl_one (pg : page) :
  parse_pl (Ok [pg]) = set_po_values (page_step (PlState init_row [] []) pg).
Proof. apply (parse_pl_snoc [] pg). Qed.

Lemma parse_pl_one_invoice (pg : page) mo :
  search RE_INVOICE (page_txt pg) = Some mo ->
  parse_pl (Ok [pg]) !! "Invoice Number" = Some (norm (g1 mo)).
Proof.
  intros Hmo. rewrite parse_pl_one, set_po_values_other by done. rewrite row_page_step.
  assert (page_fields pg (row (PlState init_row [] [])) !! "Invoice Number"
          = Some (norm (g1 mo))) as H.
  { unfold page_fields, page_text_fields. cbn [row].
    rewrite guarded_fold_other by apply not_guarded_invoice_date.
    fold (page_txt pg). rewrite Hmo.
    destruct (match search RE_DATE_NUM _ with Some mo => Some mo | None => _ end);
      rewrite ?lookup_insert_ne by done; by rewrite lookup_insert_eq. }
  destruct (marks_text pg); [done|]. by rewrite lookup_insert_ne.
Qed.

Lemma parse_pl_one_date (pg : page) mo :
  match search RE_DATE_NUM (page_txt pg) with
  | Some mo => Some mo
  | None => search RE_DATE_TEXT (page_txt pg)
  end = Some mo ->
  parse_pl (Ok [pg]) !! "Date" = Some (to_dmy (g1 mo)).
Proof.
  intros Hmo. rewrite parse_pl_one, set_po_values_other by done. rewrite row_page_step.
  assert (page_fields pg (row (PlState init_row [] [])) !! "Date" = Some (to_dmy (g1 mo))) as H.
  { unfold page_fields, page_text_fields. cbn [row].
    rewrite guarded_fold_other by apply not_guarded_invoice_date.
    fold (page_txt pg). rewrite Hmo. by rewrite lookup_insert_eq. }
  destruct (marks_text pg); [done|]. by rewrite lookup_insert_ne.
Qed.

(** X13 (invoice processor): [process_invoice] returns at most the keys
    "Invoice Number" and "Date"; on a document of one page each value it
    returns is the value that [parse_pl] gives to the same key. *)
Theorem process_invoice_agrees_with_parse_pl (pdf : result (list page)) (pg : page) :
  (forall k : text, is_Some (process_invoice pdf !! k) -> k = "Invoice Number" \/ k = "Date")
  /\ (forall k v : text, process_invoice (Ok [pg]) !! k = Some v ->
        parse_pl (Ok [pg]) !! k = Some v).
Proof.
  split.
  - intros k. unfold process_invoice. destruct pdf as [pages|e].
    + cbv zeta. intros [v H].
      destruct (match search RE_DATE_NUM _ with Some mo => Some mo | None => _ end);
        destruct (search RE_INVOICE _);
        repeat (apply lookup_insert_Some in H as [[<- _]|[_ H]]; [by auto|]);
        by rewrite lookup_empty in H.
    + intros [v H]. by rewrite lookup_empty in H.
  - intros k v. unfold process_invoice. cbv zeta. cbn [fmap list_fmap concat].
    rewrite app_nil_r. fold (page_txt pg).
    destruct (match search RE_DATE_NUM _ with Some mo => Some mo | None => _ end)
      as [md|] eqn:Ed;
      destruct (search RE_INVOICE _) as [mi|] eqn:Ei; intros H;
      repeat (apply lookup_insert_Some in H as [[<- <-]|[_ H]];
              [by (apply parse_pl_one_date || apply parse_pl_one_invoice)|]);
      by rewrite lookup_empty in H.
Qed.

(** * The dispatch *)

Lemma detect_type_cases (file_path : text) :
  detect_type file_path = "pl" \/ detect_type file_path = "booking"
  \/ detect_type file_path = "invoice".
Proof.
  unfold detect_type. destruct (_ || _); [by left|]. destruct (_ || _); [by right; left|].
  by right; right.
Qed.

(** X14 (file types): [process_pdf_file] raises [ValueError] exactly for
    a file type other than "auto", "pl", "booking" and "invoice"; with
    "auto" the type is read off the file name, and a name that holds "pl"
    anywhere, in any case, is parsed as a packing list, also when it
    holds "booking" or "asi". *)
Theorem process_pdf_file_types (set_iter : gset text -> list text) (file_path file_type : text)
    (pdf : result (list page)) :
  (file_type ∈ ["auto"; "pl"; "booking"; "invoice"] <->
     exists data, process_pdf_file set_iter file_path file_type pdf = Ok data)
  /\ (file_type ∉ ["auto"; "pl"; "booking"; "invoice"] ->
      process_pdf_file set_iter file_path file_type pdf = Raise ValueError)
  /\ (contains "pl" (lower (basename file_path)) = true ->
      process_pdf_file set_iter file_path "auto" pdf
      = Ok (PackingList (process_packing_list pdf))).
Proof.
  assert (file_type ∉ ["auto"; "pl"; "booking"; "invoice"] ->
          process_pdf_file set_iter file_path file_type pdf = Raise ValueError) as Hno.
  { intros H. unfold process_pdf_file.
    destruct (decide (file_type = "auto")) as [->|_]; [exfalso; apply H; by left|].
    cbv zeta.
    destruct (decide (file_type = "pl")) as [->|_]; [exfalso; apply H; by right; left|].
    destruct (decide (file_type = "booking")) as [->|_];
      [exfalso; apply H; by right; right; left|].
    destruct (decide (file_type = "invoice")) as [->|_]; [|done].
    exfalso; apply H. by right; right; right; left. }
  split; [|split; [done|]].
  - split.
    + intros H. unfold process_pdf_file.
      destruct (decide (file_type = "auto")) as [->|Ha]; cbv zeta.
      * destruct (detect_type_cases file_path) as [-> | [-> | ->]]; by eauto.
      * repeat (apply elem_of_cons in H as [->|H]; [by eauto|]). by apply elem_of_nil in H.
    + intros [data H].
      destruct (decide (file_type ∈ ["auto"; "pl"; "booking"; "invoice"])) as [|Hn]; [done|].
      rewrite (Hno Hn) in H. done.
  - intros H. unfold process_pdf_file, detect_type. cbv zeta. by rewrite H.
Qed.

Lemma process_pdf_file_types_witness :
  process_pdf_file elements "uploads/Sample_Booking.pdf" "auto" (Ok [booking_page])
  = Ok (PackingList (process_packing_list (Ok [booking_page])))
  /\ process_pdf_file elements "uploads/Sample_Booking.pdf" "xlsx" (Ok [booking_page])
     = Raise ValueError.
Proof.
  pose proof (process_pdf_file_types elements "uploads/Sample_Booking.pdf" "xlsx"
                (Ok [booking_page])) as (_ & H2 & H3).
  split; [apply H3; by vm_compute|].
  apply H2. apply (bool_decide_unpack _). by vm_compute.
Defined.

(** * Lines are tight and apart *)

Lemma anchor_perm tol la la' a : la ≡ₚ la' -> anchor tol la a -> anchor tol la' a.
Proof.
  intros Hp [Ha Hb]. split; [by rewrite <- Hp|]. intros b Hin. apply Hb. by rewrite Hp.
Qed.

Lemma below_perm tol la la' b : la ≡ₚ la' -> below tol la b -> below tol la' b.
Proof. intros Hp (a & Ha & Hlt). exists a. split; [by eapply anchor_perm|done]. Qed.

Lemma group_loop_inv tol ws : forall lines cur cy lines' cur',
  (0 <= tol)%Z ->
  group_loop tol ws lines cur cy = (lines', cur') ->
  StronglySorted (fun a b => (rnd a <= rnd b)%Z) ws ->
  loop_inv tol ws lines cur cy ->
  exists cy', loop_inv tol [] lines' cur' cy'.
Proof.
  induction ws as [|w ws IH]; intros lines cur cy lines' cur' Htol H Hs Hinv.
  - simpl in H. injection H as <- <-. by exists cy.
  - apply StronglySorted_inv in Hs as [Hs Hw]. rewrite Forall_forall in Hw.
    destruct Hinv as (Hcur & Hlines & Hsep).
    assert (anchor tol [w] w) as Hself.
    { split; [by left|]. intros b ->%list_elem_of_singleton. lia. }
    cbn [group_loop] in H. fold (rnd w) in H.
    destruct cy as [c|].
    + destruct Hcur as [(a & [Ha Hab] & Hc) Hlow].
      destruct (Z.abs (rnd w - c) <=? tol)%Z eqn:E.
      * apply Z.leb_le in E. eapply IH; [done|exact H|done|].
        split; [|split; [|done]].
        -- split.
           ++ exists a. split; [|done]. split; [apply elem_of_app; by left|].
              intros b [Hb| ->%list_elem_of_singleton]%elem_of_app; [by apply Hab|].
              specialize (Hlow w ltac:(by left)). lia.
           ++ intros b Hb. apply Hlow. by right.
        -- eapply Forall_impl; [exact Hlines|]. intros la [Hla Hbel]. split; [done|].
           intros b Hb. apply Hbel. rewrite <- (assoc_L (++)) in Hb. done.
      * apply Z.leb_gt in E. specialize (Hlow w ltac:(by left)) as Hwc.
        eapply IH; [done|exact H|done|].
        assert (forall b, b ∈ [w] ++ ws -> below tol cur b) as Hbelow.
        { intros b Hb. exists a. split; [done|].
          assert (rnd w <= rnd b)%Z.
          { apply elem_of_cons in Hb as [->|Hb]; [lia|by apply Hw]. }
          lia. }
        split; [|split].
        -- split; [by exists w|]. intros b Hb. by apply Hw.
        -- apply Forall_app. split.
           ++ eapply Forall_impl; [exact Hlines|]. intros la [Hla Hbel]. split; [done|].
              intros b Hb. apply Hbel. apply elem_of_app. by right.
           ++ constructor; [|done]. split.
              ** exists a. eapply anchor_perm; [symmetry; apply sorted_perm|done].
              ** intros b Hb. eapply below_perm; [symmetry; apply sorted_perm|].
                 by apply Hbelow.
        -- apply StronglySorted_app. split; [|split; [done|repeat constructor]].
           intros la lb Hla ->%list_elem_of_singleton b Hb.
           rewrite sorted_perm in Hb. rewrite Forall_forall in Hlines.
           destruct (Hlines la Hla) as [_ Hbel]. apply Hbel. apply elem_of_app. by left.
    + subst cur. eapply IH; [done|exact H|done|].
      split; [|split; [|done]].
      * split; [by exists w|]. intros b Hb. by apply Hw.
      * eapply Forall_impl; [exact Hlines|]. intros la [Hla Hbel]. split; [done|].
        intros b Hb. apply Hbel. done.
Qed.

Lemma group_lines_inv (words : list word) (tol : Z) :
  (0 <= tol)%Z ->
  Forall (fun la => exists a, anchor tol la a) (group_lines words tol)
  /\ StronglySorted (fun la lb => forall b, b ∈ lb -> below tol la b) (group_lines words tol).
Proof.
  intros Htol. unfold group_lines. destruct words as [|w words]; [by repeat constructor|].
  destruct (group_loop _ _ _ _ _) as [lines cur] eqn:E.
  apply group_loop_inv in E as [cy (Hcur & Hlines & Hsep)]; [|done| |].
  - destruct cur as [|x cur].
    + split; [|done]. eapply Forall_impl; [exact Hlines|]. by intros la [? _].
    + destruct cy as [c|]; [|done]. destruct Hcur as [(a & Ha & _) _]. split.
      * apply Forall_app. split; [eapply Forall_impl; [exact Hlines|]; by intros la [? _]|].
        constructor; [|done]. exists a.
        eapply anchor_perm; [symmetry; apply sorted_perm|done].
      * apply StronglySorted_app. split; [|split; [done|repeat constructor]].
        intros la lb Hla ->%list_elem_of_singleton b Hb.
        rewrite sorted_perm in Hb. rewrite Forall_forall in Hlines.
        destruct (Hlines la Hla) as [_ Hbel]. apply Hbel. by rewrite app_nil_r.
  - pose proof (sorted_sorted key_le key_le_total key_le_trans (w :: words)) as Hs.
    clear -Hs. induction Hs; constructor; [done|].
    eapply Forall_impl; [done|]. intros b Hb. by apply key_le_round.
  - split; [done|]. split; constructor.
Qed.

(** X15 (lines are tight and apart): for a tolerance of 0 or more, no
    line of [group_lines] is empty; two tokens of one line have rounded
    tops that differ by the tolerance at most; and every token of a later
    line lies more than the tolerance below the topmost token of an
    earlier line. *)
Theorem group_lines_tight_and_apart (words : list word) (tol : Z) :
  (0 <= tol)%Z ->
  let lines := group_lines words tol in
  (forall line, line ∈ lines ->
     line <> []
     /\ forall a b, a ∈ line -> b ∈ line ->
          (Z.abs (py_round (top a) - py_round (top b)) <= tol)%Z)
  /\ (forall i j la lb b, i < j -> lines !! i = Some la -> lines !! j = Some lb -> b ∈ lb ->
        exists a, a ∈ la
          /\ (forall a', a' ∈ la -> (py_round (top a) <= py_round (top a'))%Z)
          /\ (py_round (top a) + tol < py_round (top b))%Z).
Proof.
  intros Htol lines. destruct (group_lines_inv words tol Htol) as [Hanch Hsep].
  fold lines in Hanch, Hsep. split.
  - intros line Hline. rewrite Forall_forall in Hanch.
    destruct (Hanch line Hline) as (a0 & Ha0 & Hb0). split.
    + intros ->. by apply elem_of_nil in Ha0.
    + intros a b Ha Hb. apply Hb0 in Ha, Hb. unfold rnd in *. lia.
  - intros i j la lb b Hij Hi Hj Hb.
    destruct (StronglySorted_lookup _ _ i j la lb Hsep Hij Hi Hj b Hb) as (a & [Ha Hab] & Hlt).
    exists a. split; [done|]. split; [|done]. intros a' Ha'. by apply Hab.
Qed.

Lemma group_lines_tight_and_apart_witness :
  length (group_lines words_example 2) = 2
  /\ forall line, line ∈ group_lines words_example 2 -> line <> [].
Proof.
  split; [by vm_compute|]. intros line Hline.
  destruct (group_lines_tight_and_apart words_example 2 ltac:(lia)) as [H _].
  by apply H.
Defined.

(** * The order of the scan *)

Lemma code_inj (x y : ascii) : code x = code y -> x = y.
Proof.
  unfold code. intros H. rewrite <- (ascii_nat_embedding x), <- (ascii_nat_embedding y).
  by rewrite H.
Qed.

Lemma text_le_total (a b : text) : text_le a b = false -> text_le b a = true.
Proof.
  revert b. induction a as [|x a IH]; intros [|y b]; simpl; try done.
  intros H. apply orb_false_iff in H as [H1 H2]. apply Nat.ltb_ge in H1.
  apply orb_true_iff. destruct (decide (code y < code x)) as [Hlt|Hge].
  - left. by apply Nat.ltb_lt.
  - right. assert (code x = code y) as Heq by lia.
    rewrite Heq, Nat.eqb_refl in H2 |- *. simpl in *. by apply IH.
Qed.

Lemma text_le_trans (a b c : text) :
  text_le a b = true -> text_le b c = true -> text_le a c = true.
Proof.
  revert b c. induction a as [|x a IH]; intros [|y b] [|z c]; simpl; try done.
  intros H1 H2. apply orb_true_iff in H1, H2. apply orb_true_iff.
  destruct H1 as [H1%Nat.ltb_lt|[H1%Nat.eqb_eq H1']%andb_true_iff];
    destruct H2 as [H2%Nat.ltb_lt|[H2%Nat.eqb_eq H2']%andb_true_iff].
  - left. apply Nat.ltb_lt. lia.
  - left. apply Nat.ltb_lt. lia.
  - left. apply Nat.ltb_lt. lia.
  - right. apply andb_true_iff. split; [apply Nat.eqb_eq; lia|by eapply IH].
Qed.

Lemma text_le_antisym (a b : text) : text_le a b = true -> text_le b a = true -> a = b.
Proof.
  revert b. induction a as [|x a IH]; intros [|y b]; simpl; try done.
  intros H1 H2. apply orb_true_iff in H1, H2.
  destruct H1 as [H1%Nat.ltb_lt|[H1%Nat.eqb_eq H1']%andb_true_iff];
    destruct H2 as [H2%Nat.ltb_lt|[H2%Nat.eqb_eq H2']%andb_true_iff]; try lia.
  f_equal; [by apply code_inj|by apply IH].
Qed.

Lemma sorted_set_strict (s : gset text) : StronglySorted text_lt (sorted_set s).
Proof.
  unfold sorted_set.
  pose proof (sorted_sorted text_le text_le_total text_le_trans (elements s)) as Hs.
  assert (NoDup (sorted text_le (elements s))) as Hnd.
  { rewrite sorted_perm. apply NoDup_elements. }
  induction Hs as [|a l Hs IH Ha]; [constructor|].
  apply NoDup_cons in Hnd as [Hnot Hnd]. constructor; [by apply IH|].
  rewrite Forall_forall in Ha |- *. intros b Hb. split; [by apply Ha|].
  intros ->. done.
Qed.

(** X16 (the scan): both scans return the placeholder names in strictly
    increasing order of their character codes, each name once; the plain
    scan returns the names found in the non-empty string cells of the
    bounding box and in the shape texts of every sheet. *)
Theorem scan_sorted_without_repeats (wb : workbook) (sheet_name : option text) :
  StronglySorted text_lt (TemplateManager.scan_template_placeholders wb)
  /\ StronglySorted text_lt (NikeTemplateManager.scan_template_placeholders wb sheet_name)
  /\ (forall name : text,
        name ∈ TemplateManager.scan_template_placeholders wb <->
        exists n ws s,
          (n, ws) ∈ wb /\ name ∈ findall TemplateManager.placeholders_pattern s
          /\ ((exists r c, (r, c) ∈ iter_rows ws /\ str_value (cell_value ws r c) = Some s)
              \/ s ∈ TemplateManager.shape_texts ws)).
Proof.
  split; [apply sorted_set_strict|]. split; [apply sorted_set_strict|].
  intros name. unfold TemplateManager.scan_template_placeholders.
  rewrite elem_of_sorted_set, TemplateManagerFacts.scan_wb_elem. split.
  - intros [?%elem_of_empty|(n & ws & Hin & Hn)]; [done|].
    apply TemplateManagerFacts.scan_sheet_elem in Hn
      as [?%elem_of_empty|[(r & c & s & Hrc & Hs & Hn)|(s & Hs & Hn)]]; [done| |].
    + exists n, ws, s. split; [done|]. split; [done|]. left. eauto.
    + exists n, ws, s. split; [done|]. split; [done|]. by right.
  - intros (n & ws & s & Hin & Hn & [(r & c & Hrc & Hs)|Hs]).
    + right. exists n, ws. split; [done|].
      apply TemplateManagerFacts.scan_sheet_elem. right. left. eauto 10.
    + right. exists n, ws. split; [done|].
      apply TemplateManagerFacts.scan_sheet_elem. right. right. eauto.
Qed.

(** * The plain fill *)

Module PlainFill.
Import TemplateManager TemplateManagerFacts.





End PlainFill.




(** * The Nike fill of one sheet *)

Module NikeFillMore.
Import NikeTemplateManager NikeFill.

Lemma sheetnames_set_sheet (wb : workbook) (name : text) ws' :
  sheetnames (set_sheet wb name ws') = sheetnames wb.
Proof.
  unfold sheetnames. induction wb as [|[n ws] wb IH]; cbn [set_sheet fmap list_fmap]; [done|].
  destruct (decide (n = name)); cbn [fmap list_fmap fst]; [done|].
  f_equal. apply IH.
Qed.

Lemma get_set_same (wb : workbook) (name : text) ws' :
  name ∈ sheetnames wb -> get_sheet (set_sheet wb name ws') name = Ok ws'.
Proof.
  induction wb as [|[n ws] wb IH]; cbn [set_sheet sheetnames fmap list_fmap fst].
  - by intros ?%elem_of_nil.
  - intros Hin. destruct (decide (n = name)) as [->|Hne]; cbn [get_sheet].
    + by rewrite decide_True.
    + rewrite decide_False by done. apply IH.
      apply elem_of_cons in Hin as [->|Hin]; done.
Qed.

Lemma get_set_other (wb : workbook) (name other : text) ws' :
  other <> name -> get_sheet (set_sheet wb name ws') other = get_sheet wb other.
Proof.
  intros Hne. induction wb as [|[n ws] wb IH]; cbn [set_sheet]; [done|].
  destruct (decide (n = name)) as [->|Hn]; cbn [get_sheet].
  - by rewrite !decide_False by done.
  - destruct (decide (n = other)); [done|apply IH].
Qed.

Lemma nike_replace_cells_eq d coords : forall ws n,
  replace_cells d coords ws n = fill_cells_with (nike_fill_text d) coords ws n.
Proof.
  induction coords as [|[r c] coords IH]; intros ws n; cbn [replace_cells fill_cells_with];
    [done|].
  destruct (str_value (cell_value ws r c)) as [s|]; [|apply IH].
  fold (nike_fill_text d s). cbv zeta.
  destruct (decide (nike_fill_text d s ≠ s)); [|apply IH].
  destruct (bind_value _); [apply IH|done].
Qed.

Lemma nike_sheet_spec ws d ws' n :
  replace_placeholders_in_sheet ws d = (ws', n) ->
  dom (cells ws') = dom (cells ws) /\ shapes ws' = shapes ws
  /\ page_setup ws' = page_setup ws /\ page_margins ws' = page_margins ws
  /\ exists filled rest,
       iter_rows ws = filled ++ rest
       /\ (forall r c, cell_value ws' r c =
             if bool_decide ((r, c) ∈ filled)
             then fill_value_with (nike_fill_text d) (cell_value ws r c)
             else cell_value ws r c)
       /\ (forall rc, rc ∈ filled -> ~ refused_at (nike_fill_text d) ws rc)
       /\ (rest = []
           \/ exists rc rest', rest = rc :: rest' /\ refused_at (nike_fill_text d) ws rc).
Proof.
  unfold replace_placeholders_in_sheet. rewrite nike_replace_cells_eq.
  destruct (fill_cells_with _ (iter_rows ws) ws 0) as [[ws1 n1] e] eqn:E1.
  cbn [fst]. intros [= <- <-].
  apply fill_cells_with_spec in E1
    as (Hd & Hs & Hp & Hm & filled & rest & Hsplit & Hv & Hok & He);
    [|apply iter_rows_NoDup].
  do 4 (split; [done|]). exists filled, rest. do 3 (split; [done|]).
  destruct e as [e'|]; [right; by destruct He as [_ He]|by left].
Qed.

Lemma nike_scan_sheet_elem (ws : worksheet) : forall (acc : gset text) (name : text),
  name ∈ scan_sheet ws acc
  <-> name ∈ acc
      \/ exists r c s, (r, c) ∈ iter_rows ws /\ str_value (cell_value ws r c) = Some s
                       /\ name ∈ findall placeholders_pattern s.
Proof.
  unfold scan_sheet. induction (iter_rows ws) as [|[r0 c0] coords IH]; intros acc name; simpl.
  - split; [by left|]. intros [H|(r & c & s & ?%elem_of_nil & _)]; done.
  - rewrite IH. split.
    + intros [H|(r & c & s & Hin & Hs & Hn)].
      * destruct (str_value (cell_value ws r0 c0)) as [s|] eqn:E; [|by left].
        apply elem_of_union in H as [H|H%elem_of_list_to_set]; [by left|].
        right. exists r0, c0, s. split; [by left|done].
      * right. exists r, c, s. split; [by right|done].
    + intros [H|(r & c & s & [[= -> ->]|Hin]%elem_of_cons & Hs & Hn)].
      * left. destruct (str_value _); [|done]. apply elem_of_union. by left.
      * left. rewrite Hs. apply elem_of_union. right. by apply elem_of_list_to_set.
      * right. eauto 10.
Qed.

Lemma scan_one_sheet (wb : workbook) (sheet_name : text) ws :
  sheet_name <> [] -> sheet_name ∈ sheetnames wb -> get_sheet wb sheet_name = Ok ws ->
  forall name : text,
    name ∈ scan_template_placeholders wb (Some sheet_name) <-> name ∈ scan_sheet ws ∅.
Proof.
  intros Hne Hin Hws name. unfold scan_template_placeholders, sheets_to_scan, names_sheet.
  destruct sheet_name as [|x t]; [done|].
  rewrite bool_decide_eq_true_2 by done. cbn [scan_sheets]. rewrite Hws.
  apply elem_of_sorted_set.
Qed.

Lemma nike_fill_clean (d : gmap text value) (s : text) :
  (forall name : text, name ∈ findall placeholders_pattern s ->
     exists v, d !! name = Some v /\ "{"%char ∉ py_str v) ->
  no_ph "{" "}" (nike_fill_text d s).
Proof.
  intros H. unfold nike_fill_text, _replace_placeholders_in_text. rewrite sub_sub_go.
  by apply (sub_no_ph "{" "}" ltac:(done) d (length s)).
Qed.

Lemma nike_clean_findall (s : text) : no_ph "{" "}" s -> findall placeholders_pattern s = [].
Proof. intros H. unfold findall, finditer. by rewrite (no_ph_scan "{" "}"). Qed.

(** A covered text is without placeholder once filled and stored. *)
Lemma nike_fill_value_clean (d : gmap text value) (v : value) (s' : text) :
  (forall s (name : text), str_value v = Some s -> name ∈ findall placeholders_pattern s ->
     exists w, d !! name = Some w /\ "{"%char ∉ py_str w) ->
  str_value (fill_value_with (nike_fill_text d) v) = Some s' ->
  no_ph "{" "}" s'.
Proof.
  intros Hc Hs'. unfold fill_value_with in Hs'.
  destruct (str_value v) as [s|] eqn:Es; [|congruence].
  assert (no_ph "{" "}" (nike_fill_text d s)) as Hclean.
  { apply nike_fill_clean. intros name Hn. by apply (Hc s). }
  destruct (decide (nike_fill_text d s = s)) as [Heq|Hne].
  - rewrite Es in Hs'. injection Hs' as <-. by rewrite <- Heq.
  - apply str_value_Some in Hs' as [[= <-] _].
    destruct (slice_to_prefix 32767 (nike_fill_text d s)) as [b Hb].
    rewrite Hb in Hclean. by apply no_ph_prefix in Hclean.
Qed.

End NikeFillMore.

(** X19 (the Nike fill of one sheet): [fill_template] raises when the
    workbook has no sheet of the name given.  Otherwise it returns a
    workbook with the same sheet names in which every other sheet is as it
    was.  In the sheet named, the cells of the bounding box are visited
    row by row: a cell that holds a non-empty string which the fill
    changes holds the filled text, cut at 32767 characters; every other
    cell keeps its value; the first cell that refuses its filled text
    ends the loop, and the cells from there on stay as they were.  The
    shapes, the page setup and the margins are untouched. *)
Theorem fill_template_one_sheet (wb : workbook) (sheet_name : text)
    (data_dict : gmap text value) :
  (sheet_name ∉ sheetnames wb ->
     NikeFill.fill_template wb sheet_name data_dict = Raise ValueError)
  /\ (sheet_name ∈ sheetnames wb ->
      exists wb' ws ws' filled rest,
        NikeFill.fill_template wb sheet_name data_dict = Ok wb'
        /\ sheetnames wb' = sheetnames wb
        /\ (forall other : text, other <> sheet_name ->
              get_sheet wb' other = get_sheet wb other)
        /\ get_sheet wb sheet_name = Ok ws
        /\ get_sheet wb' sheet_name = Ok ws'
        /\ iter_rows ws = filled ++ rest
        /\ (forall r c, cell_value ws' r c =
              if bool_decide ((r, c) ∈ filled)
              then fill_value_with (nike_fill_text data_dict) (cell_value ws r c)
              else cell_value ws r c)
        /\ (forall rc, rc ∈ filled -> ~ refused_at (nike_fill_text data_dict) ws rc)
        /\ (rest = []
            \/ exists rc rest', rest = rc :: rest'
                 /\ refused_at (nike_fill_text data_dict) ws rc)
        /\ shapes ws' = shapes ws
        /\ page_setup ws' = page_setup ws /\ page_margins ws' = page_margins ws).
Proof.
  unfold NikeFill.fill_template. split; intros Hin.
  - by rewrite bool_decide_eq_true_2.
  - rewrite bool_decide_eq_false_2 by (by intros ?).
    destruct (NikeFacts.get_sheet_ok wb sheet_name Hin) as [ws Hws]. rewrite Hws.
    cbn [mbind result_bind].
    destruct (NikeFill.replace_placeholders_in_sheet ws data_dict) as [ws' n] eqn:E.
    apply NikeFillMore.nike_sheet_spec in E
      as (_ & Hs & Hp & Hm & filled & rest & Hsplit & Hv & Hok & Hend).
    exists (set_sheet wb sheet_name ws'), ws, ws', filled, rest.
    split; [done|]. split; [apply NikeFillMore.sheetnames_set_sheet|].
    split; [intros other Hne; by apply NikeFillMore.get_set_other|].
    split; [done|]. split; [by apply NikeFillMore.get_set_same|]. done.
Qed.

(** X20 (round trip of the Nike fill): when the sheet exists, its name is
    not empty, the data give every placeholder that the scan of the sheet
    finds a value whose string form has no opening brace, and no cell of
    the sheet refuses its filled text, the workbook that [fill_template]
    returns has no placeholder left in that sheet. *)
Theorem fill_template_round_trip (wb : workbook) (sheet_name : text)
    (data_dict : gmap text value) :
  sheet_name <> [] ->
  sheet_name ∈ sheetnames wb ->
  (forall name : text,
     name ∈ NikeTemplateManager.scan_template_placeholders wb (Some sheet_name) ->
     exists v, data_dict !! name = Some v /\ "{"%char ∉ py_str v) ->
  (forall ws rc, get_sheet wb sheet_name = Ok ws -> rc ∈ iter_rows ws ->
     ~ refused_at (nike_fill_text data_dict) ws rc) ->
  exists wb',
    NikeFill.fill_template wb sheet_name data_dict = Ok wb'
    /\ NikeTemplateManager.scan_template_placeholders wb' (Some sheet_name) = [].
Proof.
  intros Hne Hin Hcov Hok. unfold NikeFill.fill_template.
  rewrite bool_decide_eq_false_2 by (by intros ?).
  destruct (NikeFacts.get_sheet_ok wb sheet_name Hin) as [ws Hws]. rewrite Hws.
  cbn [mbind result_bind].
  destruct (NikeFill.replace_placeholders_in_sheet ws data_dict) as [ws' n] eqn:E.
  apply NikeFillMore.nike_sheet_spec in E
    as (Hd & _ & _ & _ & filled & rest & Hsplit & Hv & _ & Hend).
  assert (rest = []) as ->.
  { destruct Hend as [->|(rc & rest' & -> & Hr)]; [done|].
    destruct (Hok ws rc Hws); [|done]. rewrite Hsplit. apply elem_of_app. right. by left. }
  rewrite app_nil_r in Hsplit. subst filled.
  eexists. split; [done|].
  apply sorted_set_empty. intros name Hname.
  assert (name ∈ NikeTemplateManager.scan_template_placeholders
                   (set_sheet wb sheet_name ws') (Some sheet_name)) as Hs
    by (by apply elem_of_sorted_set).
  apply (NikeFillMore.scan_one_sheet _ _ ws') in Hs;
    [|done|by rewrite NikeFillMore.sheetnames_set_sheet|by apply NikeFillMore.get_set_same].
  apply NikeFillMore.nike_scan_sheet_elem in Hs as [?%elem_of_empty|(r & c & s' & Hrc & Hs' & Hn)];
    [done|].
  rewrite (iter_rows_dom _ _ Hd) in Hrc.
  rewrite Hv, bool_decide_eq_true_2 in Hs' by done.
  apply NikeFillMore.nike_fill_value_clean in Hs'.
  - rewrite NikeFillMore.nike_clean_findall in Hn; [by apply elem_of_nil in Hn|done].
  - intros s nm Hs Hnm. apply Hcov.
    apply (NikeFillMore.scan_one_sheet wb sheet_name ws); [done..|].
    apply NikeFillMore.nike_scan_sheet_elem. right. eauto 10.
Qed.

Lemma fill_template_round_trip_witness :
  exists wb',
    NikeFill.fill_template form_workbook "Form" data_ok = Ok wb'
    /\ NikeTemplateManager.scan_template_placeholders wb' (Some "Form"%t) = [].
Proof.
  apply fill_template_round_trip.
  - done.
  - apply (bool_decide_unpack _). vm_compute. reflexivity.
  - intros name Hin.
    assert (NikeTemplateManager.scan_template_placeholders form_workbook (Some "Form"%t)
            = ["Invoice Number"; "Total Cartons"]) as Hscan by (vm_compute; reflexivity).
    rewrite Hscan in Hin.
    apply elem_of_cons in Hin as [->|Hin].
    { exists (VStr "A1234567"). split; [vm_compute; reflexivity|].
      apply (bool_decide_unpack _). vm_compute. reflexivity. }
    apply elem_of_cons in Hin as [->|Hin].
    { exists (VInt 12). split; [vm_compute; reflexivity|].
      apply (bool_decide_unpack _). vm_compute. reflexivity. }
    inversion Hin.
  - intros ws rc Hws Hrc.
    assert (get_sheet form_workbook "Form" = Ok form_sheet) as Hf by (vm_compute; reflexivity).
    rewrite Hf in Hws. injection Hws as <-.
    assert (iter_rows form_sheet = [(1, 1); (1, 2); (2, 1); (2, 2)]) as Hrows
      by (vm_compute; reflexivity).
    rewrite Hrows in Hrc.
    repeat (apply elem_of_cons in Hrc as [->|Hrc];
            [apply (bool_decide_unpack _); vm_compute; reflexivity|]).
    inversion Hrc.
Defined.

(** X21 (the Nike fill of a whole template): whatever the workbook, the
    data and the sheet name, [create_filled_template] reports success with
    0 replacements and saves the workbook as it was loaded: the first cell
    that holds a brace ends the loop of its sheet, since the method that
    the loop calls does not exist. *)
Theorem nike_create_filled_template_replaces_nothing (wb : workbook)
    (data_dict : gmap text value) (sheet_name : option text) :
  NikeTemplateManager.create_filled_template wb data_dict sheet_name = (FillOk 0, Some wb)
  /\ forall ws, NikeTemplateManager.replace_placeholders_in_sheet_preserve_format ws data_dict
                = (ws, 0).
Proof.
  split.
  - apply NikeFacts.create_filled_template_unchanged.
  - intros ws. apply NikeFacts.preserve_format_unchanged.
Qed.

(** * Control characters *)

Lemma legal_text_concat (ls : list text) : legal_text (concat ls) <-> Forall legal_text ls.
Proof.
  induction ls as [|l ls IH]; simpl.
  - split; intros _; constructor.
  - rewrite legal_text_app, IH. split.
    + intros [? ?]. by constructor.
    + by intros [? ?]%Forall_cons.
Qed.

Lemma sub_go_legal (o c : ascii) (d : gmap text value) s0 (l : text) :
  legal_text l ->
  (forall name v, d !! name = Some v -> legal_text (py_str v)) ->
  legal_text (sub_go (ph_pattern o c) (replace_func d) 0 s0 l).
Proof.
  intros Hl Hd.
  destruct (ph_segments o c d (length l) l s0 ltac:(done)) as (segs & Hs & Hf & _).
  rewrite Hf. rewrite Hs in Hl. apply legal_text_concat. apply legal_text_concat in Hl.
  rewrite Forall_fmap in Hl |- *. eapply Forall_impl; [exact Hl|].
  intros [t|name]; simpl; [done|]. intros Hsrc.
  destruct (d !! name) as [v|] eqn:E; [by eapply Hd|done].
Qed.

(** X23 (the fill adds no control character): when a text holds no
    control character and the string form of no value of the data holds
    one, the text filled by either manager holds none, so that the cell
    takes it. *)
Theorem fill_adds_no_control_character (data_dict : gmap text value) (s : text) :
  legal_text s ->
  (forall name v, data_dict !! name = Some v -> legal_text (py_str v)) ->
  legal_text (fill_text data_dict s) /\ writable (fill_text data_dict s)
  /\ legal_text (nike_fill_text data_dict s) /\ writable (nike_fill_text data_dict s).
Proof.
  intros Hs Hd.
  assert (legal_text (fill_text data_dict s)) as H1.
  { unfold fill_text, TemplateManager._replace_placeholders_in_text. rewrite sub_sub_go.
    by apply (sub_go_legal "[" "]"). }
  assert (legal_text (nike_fill_text data_dict s)) as H2.
  { unfold nike_fill_text, NikeTemplateManager._replace_placeholders_in_text.
    rewrite sub_sub_go. by apply (sub_go_legal "{" "}"). }
  split; [done|]. split; [by apply legal_text_writable|].
  split; [done|by apply legal_text_writable].
Qed.

Lemma fill_adds_no_control_character_witness :
  legal_text (fill_text data_ok "No: [Invoice Number]")
  /\ writable (fill_text data_ok "No: [Invoice Number]")
  /\ legal_text (nike_fill_text data_ok "No: [Invoice Number]")
  /\ writable (nike_fill_text data_ok "No: [Invoice Number]").
Proof.
  apply fill_adds_no_control_character.
  - apply (bool_decide_unpack _). vm_compute. reflexivity.
  - change (map_Forall (fun _ v => legal_text (py_str v)) data_ok).
    apply (bool_decide_unpack _). vm_compute. reflexivity.
Defined.

(** * Dates *)

(** Every match of the matcher is a match of the pattern. *)
Lemma m_matched r : forall k s l x,
  m r k s l = Some x ->
  exists w l' s', l = w ++ l' /\ matched r s w s' /\ pos s' = pos s + length w
                  /\ k s' l' = Some x.
Proof.
  induction r as [|p|r1 IH1 r2 IH2|r1 IH1 r2 IH2|g p lo hi|n r IH|r IH| | | |];
    intros k s l x H; simpl in H.
  - exists [], l, s. repeat split; [simpl; lia|done].
  - destruct l as [|c l]; [done|]. destruct (p c) eqn:Hc; [|done].
    exists [c], l, (step c s). split; [done|]. split; [by exists c|]. split; [simpl; lia|done].
  - apply IH1 in H as (w1 & l1 & s1 & -> & Hm1 & Hp1 & H).
    apply IH2 in H as (w2 & l2 & s2 & -> & Hm2 & Hp2 & H).
    exists (w1 ++ w2), l2, s2. split; [by rewrite <- (assoc_L (++))|].
    split; [by exists w1, w2, s1|]. split; [rewrite length_app; lia|done].
  - destruct (m r1 k s l) eqn:E.
    + injection H as ->. apply IH1 in E as (w & l' & s' & -> & Hm & Hp & Hk).
      exists w, l', s'. split; [done|]. split; [by left|done].
    + apply IH2 in H as (w & l' & s' & -> & Hm & Hp & Hk).
      exists w, l', s'. split; [done|]. split; [by right|done].
  - apply rep_inv in H as (w & l' & -> & Hw & Hlo & Hhi & Hk).
    exists w, l', (steps w s). split; [done|]. split; [done|].
    split; [apply pos_steps|done].
  - apply IH in H as (w & l' & s1 & -> & Hm & Hp & Hk).
    replace (pos s1 - pos s) with (length w) in Hk by lia.
    rewrite take_app_length in Hk.
    exists w, l', (set_grp n w s1). split; [done|]. split; [by exists s1|done].
  - destruct (m r _ s l); [|done]. exists [], l, s. repeat split; [simpl; lia|done].
  - destruct (at_boundary s l); [|done]. exists [], l, s. repeat split; [simpl; lia|done].
  - destruct (prev s); [done|]. exists [], l, s. repeat split; [simpl; lia|done].
  - exists [], l, s. repeat split; [simpl; lia|].
    destruct l as [|c [|? ?]]; [done| |done]. by destruct (Ascii.eqb c LF).
  - destruct l; [|done]. exists [], [], s. repeat split; [simpl; lia|done].
Qed.

(** A match that ends where the subject ends has read all of it. *)
Lemma match_whole r (s : text) found :
  match_ r s = Some found -> (length s =? m_end found) = true ->
  exists e, matched r start s e /\ groups found = grp e.
Proof.
  unfold match_, match_at. destruct (m r accept start s) as [[e l']|] eqn:E; [|done].
  intros [= <-] Hlen%Nat.eqb_eq. simpl in Hlen.
  apply m_matched in E as (w & l'' & s' & -> & Hm & Hp & [= -> ->]).
  rewrite length_app, Hp in Hlen. simpl in Hlen.
  destruct l' as [|? ?]; [|simpl in Hlen; lia]. rewrite app_nil_r. by exists e.
Qed.

Lemma matched_stri (name : text) : forall s w s',
  matched (stri name) s w s' -> lower w = lower name /\ grp s' = grp s.
Proof.
  unfold stri. induction name as [|c name IH]; intros s w s'; simpl.
  - by intros [-> ->].
  - intros (w1 & w2 & s1 & -> & (x & -> & Hx & ->) & H).
    apply IH in H as [Hl Hg]. apply Ascii.eqb_eq in Hx.
    simpl. by rewrite Hx, Hl.
Qed.

Lemma matched_foldl_alt (rs : list pat) : forall r s w s',
  matched (foldl Alt r rs) s w s' -> exists r', r' ∈ r :: rs /\ matched r' s w s'.
Proof.
  induction rs as [|r0 rs IH]; intros r s w s'; simpl.
  - intros H. exists r. split; [by left|done].
  - intros (r' & [->|Hin]%elem_of_cons & H)%IH.
    + destruct H as [H|H]; [exists r|exists r0]; (split; [|done]).
      * by left.
      * right. by left.
    + exists r'. split; [|done]. right. by right.
Qed.

Lemma month_index_range (names : list text) (x : text) : forall i,
  x ∈ names -> i <= month_index names x i < i + length names.
Proof.
  induction names as [|n names IH]; intros i; [by intros ?%elem_of_nil|].
  simpl. destruct (decide (n = x)); [lia|].
  intros [->|Hin]%elem_of_cons; [done|]. specialize (IH (S i) Hin). lia.
Qed.

(** A month name read without regard to case has its place in the list. *)
Lemma matched_month (names sorted_names : list text) s w s' :
  sorted_names <> [] -> Forall (fun x => x ∈ names) sorted_names ->
  lower <$> names = names ->
  matched (alt (stri <$> sorted_names)) s w s' ->
  1 <= month_index names (lower w) 1 <= length names /\ grp s' = grp s.
Proof.
  intros Hne Hp Hlow H. rewrite Forall_forall in Hp.
  assert (exists name, name ∈ names /\ matched (stri name) s w s') as (name & Hin & Hm).
  { destruct sorted_names as [|n0 ns].
    - done.
    - unfold alt in H. rewrite fmap_cons in H.
      apply matched_foldl_alt in H as (r' & Hr & H). rewrite <- fmap_cons in Hr.
      apply list_elem_of_fmap in Hr as (name & -> & Hin).
      exists name. split; [by apply Hp|done]. }
  apply matched_stri in Hm as [Hl Hg]. split; [|done].
  assert (lower name = name) as Hn.
  { apply list_elem_of_lookup in Hin as [i Hi].
    assert ((lower <$> names) !! i = Some (lower name)) as Hi'
      by (by rewrite list_lookup_fmap, Hi).
    rewrite Hlow, Hi in Hi'. by injection Hi'. }
  rewrite Hl, Hn. pose proof (month_index_range names name 1 Hin). lia.
Qed.

Lemma int_of_digits_bound (w : text) :
  Forall (fun c => is_digit c = true) w -> int_of_digits w < 10 ^ length w.
Proof.
  unfold int_of_digits. intros Hw.
  enough (forall acc, foldl (fun acc c => 10 * acc + (code c - 48)) acc w
                      < (acc + 1) * 10 ^ length w) as H.
  { specialize (H 0). rewrite Nat.add_0_l, Nat.mul_1_l in H. exact H. }
  induction Hw as [|c w Hc Hw IH]; intros acc; cbn [foldl length]; [simpl; lia|].
  specialize (IH (10 * acc + (code c - 48))).
  unfold is_digit, in_range in Hc. apply andb_true_iff in Hc as [_ Hc%Nat.leb_le].
  change (code "9"%char) with 57 in Hc. rewrite Nat.pow_succ_r'.
  eapply Nat.lt_le_trans; [exact IH|].
  generalize (10 ^ length w). intros X. nia.
Qed.

(** The two-character and one-character months of [%m]. *)
Lemma matched_re_m s w s' :
  matched re_m s w s' ->
  1 <= int_of_digits w <= 12 /\ exists s1, s' = set_grp 2 w s1 /\ grp s1 = grp s.
Proof.
  unfold re_m. cbn [matched alt foldl lit]. intros (s1 & H & ->). split; [|exists s1; split; [done|]].
  - unfold int_of_digits.
    destruct H as [[H|H]|H].
    + destruct H as (w1 & w2 & s2 & -> & (c1 & -> & Hc1 & ->) & (c2 & -> & Hc2 & ->)).
      apply Ascii.eqb_eq in Hc1 as <-.
      unfold in_range in Hc2. apply andb_true_iff in Hc2 as [Hlo%Nat.leb_le Hhi%Nat.leb_le].
      change (code "0"%char) with 48 in Hlo. change (code "2"%char) with 50 in Hhi.
      cbn [app foldl]. change (code "1"%char) with 49. lia.
    + destruct H as (w1 & w2 & s2 & -> & (c1 & -> & Hc1 & ->) & (c2 & -> & Hc2 & ->)).
      apply Ascii.eqb_eq in Hc1 as <-.
      unfold in_range in Hc2. apply andb_true_iff in Hc2 as [Hlo%Nat.leb_le Hhi%Nat.leb_le].
      change (code "1"%char) with 49 in Hlo. change (code "9"%char) with 57 in Hhi.
      cbn [app foldl]. change (code "0"%char) with 48. lia.
    + destruct H as (c & -> & Hc & ->).
      unfold in_range in Hc. apply andb_true_iff in Hc as [Hlo%Nat.leb_le Hhi%Nat.leb_le].
      change (code "1"%char) with 49 in Hlo. change (code "9"%char) with 57 in Hhi.
      cbn [app foldl]. lia.
  - destruct H as [[H|H]|H].
    + by destruct H as (w1 & w2 & s2 & -> & (c1 & -> & Hc1 & ->) & (c2 & -> & Hc2 & ->)).
    + by destruct H as (w1 & w2 & s2 & -> & (c1 & -> & Hc1 & ->) & (c2 & -> & Hc2 & ->)).
    + by destruct H as (c & -> & Hc & ->).
Qed.

Lemma matched_re_Y s w s' :
  matched re_Y s w s' ->
  (Z.of_nat (int_of_digits w) <= 9999)%Z /\ s' = set_grp 3 w (steps w s).
Proof.
  unfold re_Y, exactly. cbn [matched]. intros (s1 & (Hw & Hlo & Hhi & ->) & ->).
  split; [|done]. specialize (Hhi 4 eq_refl).
  pose proof (int_of_digits_bound w Hw) as Hb.
  replace (length w) with 4 in Hb by lia.
  apply Nat2Z.inj_lt in Hb. rewrite Nat2Z.inj_pow in Hb.
  change (Z.of_nat 10 ^ Z.of_nat 4)%Z with 10000%Z in Hb. lia.
Qed.

Lemma matched_re_d s w s' :
  matched re_d s w s' -> exists s1, s' = set_grp 1 w s1 /\ grp s1 = grp s.
Proof.
  unfold re_d. cbn [matched alt foldl lit]. intros (s1 & H & ->). exists s1. split; [done|].
  destruct H as [[[[H|H]|H]|H]|H];
    try (by destruct H as (w1 & w2 & s2 & -> & (c1 & -> & Hc1 & ->) & (c2 & -> & Hc2 & ->)));
    by destruct H as (c & -> & Hc & ->).
Qed.

Lemma matched_lit c s w s' : matched (lit c) s w s' -> grp s' = grp s.
Proof. by intros (x & -> & _ & ->). Qed.

Lemma matched_plus p s w s' : matched (plus p) s w s' -> grp s' = grp s.
Proof. intros (_ & _ & _ & ->). apply grp_steps. Qed.

Lemma a_month_matched s w s' :
  matched re_b s w s' ->
  1 <= month_index a_month (lower w) 1 <= 12
  /\ exists s1, s' = set_grp 2 w s1 /\ grp s1 = grp s.
Proof.
  unfold re_b. cbn [matched]. intros (s1 & H & ->).
  apply (matched_month a_month) in H as [H Hg].
  - split; [exact H|]. by exists s1.
  - done.
  - apply (bool_decide_unpack _). vm_compute. reflexivity.
  - vm_compute. reflexivity.
Qed.

Lemma f_month_matched s w s' :
  matched re_B s w s' ->
  1 <= month_index f_month (lower w) 1 <= 12
  /\ exists s1, s' = set_grp 2 w s1 /\ grp s1 = grp s.
Proof.
  unfold re_B. cbn [matched]. intros (s1 & H & ->).
  apply (matched_month f_month) in H as [H Hg].
  - split; [exact H|]. by exists s1.
  - done.
  - apply (bool_decide_unpack _). vm_compute. reflexivity.
  - vm_compute. reflexivity.
Qed.

(** The groups of a match of one of the four formats: the month is one of
    the twelve and the year has four digits. *)
Lemma format_groups (f : date_format) (s : text) (e : cur) :
  matched (format_regex f) start s e ->
  exists wd wm wy,
    assoc 1 (grp e) = Some wd /\ assoc 2 (grp e) = Some wm /\ assoc 3 (grp e) = Some wy
    /\ (Z.of_nat (int_of_digits wy) <= 9999)%Z
    /\ 1 <= match f with
            | DMY_slash | DMY_dash => int_of_digits wm
            | Mon_D_Y => month_index a_month (lower wm) 1
            | Month_D_Y => month_index f_month (lower wm) 1
            end <= 12.
Proof.
  destruct f; cbn [format_regex cat foldr matched].
  - intros (wd & ? & s1 & _ & (s1' & -> & G1)%matched_re_d
            & ? & ? & s2 & _ & G2%matched_lit
            & wm & ? & s3 & _ & (Hm & s3' & -> & G3)%matched_re_m
            & ? & ? & s4 & _ & G4%matched_lit
            & wy & ? & s5 & _ & (Hy & ->)%matched_re_Y & _ & ->).
    exists wd, wm, wy. cbn [grp set_grp] in *. rewrite grp_steps, G4. cbn [grp set_grp].
    rewrite G3, G2. cbn [grp set_grp]. rewrite G1. done.
  - intros (wd & ? & s1 & _ & (s1' & -> & G1)%matched_re_d
            & ? & ? & s2 & _ & G2%matched_lit
            & wm & ? & s3 & _ & (Hm & s3' & -> & G3)%matched_re_m
            & ? & ? & s4 & _ & G4%matched_lit
            & wy & ? & s5 & _ & (Hy & ->)%matched_re_Y & _ & ->).
    exists wd, wm, wy. cbn [grp set_grp] in *. rewrite grp_steps, G4. cbn [grp set_grp].
    rewrite G3, G2. cbn [grp set_grp]. rewrite G1. done.
  - intros (wm & ? & s1 & _ & (Hm & s1' & -> & G1)%a_month_matched
            & ? & ? & s2 & _ & G2%matched_plus
            & wd & ? & s3 & _ & (s3' & -> & G3)%matched_re_d
            & ? & ? & s4 & _ & G4%matched_lit
            & ? & ? & s5 & _ & G5%matched_plus
            & wy & ? & s6 & _ & (Hy & ->)%matched_re_Y & _ & ->).
    exists wd, wm, wy. cbn [grp set_grp] in *. rewrite grp_steps, G5, G4. cbn [grp set_grp].
    rewrite G3, G2. cbn [grp set_grp]. rewrite G1. done.
  - intros (wm & ? & s1 & _ & (Hm & s1' & -> & G1)%f_month_matched
            & ? & ? & s2 & _ & G2%matched_plus
            & wd & ? & s3 & _ & (s3' & -> & G3)%matched_re_d
            & ? & ? & s4 & _ & G4%matched_lit
            & ? & ? & s5 & _ & G5%matched_plus
            & wy & ? & s6 & _ & (Hy & ->)%matched_re_Y & _ & ->).
    exists wd, wm, wy. cbn [grp set_grp] in *. rewrite grp_steps, G5, G4. cbn [grp set_grp].
    rewrite G3, G2. cbn [grp set_grp]. rewrite G1. done.
Qed.

(** A date that [strptime] returns exists in the calendar. *)
Lemma strptime_valid (s : text) (f : date_format) (dt : date) :
  strptime s f = Ok dt -> valid_date dt.
Proof.
  unfold strptime. destruct (match_ (format_regex f) s) as [found|] eqn:E; [|done].
  destruct (length s =? m_end found) eqn:El; [|done]. cbn [negb].
  destruct (match_whole _ _ _ E El) as (e & Hm & Hg).
  apply format_groups in Hm as (wd & wm & wy & H1 & H2 & H3 & Hy & Hmo).
  unfold group. rewrite Hg, H1, H2, H3. cbn [default from_option id].
  revert Hmo. generalize (match f with
                          | DMY_slash | DMY_dash => int_of_digits wm
                          | Mon_D_Y => month_index a_month (lower wm) 1
                          | Month_D_Y => month_index f_month (lower wm) 1
                          end).
  intros mo Hmo.
  destruct (_ && _) eqn:Hc; [|done]. intros [= <-].
  apply andb_true_iff in Hc as [[Hy1%Nat.leb_le Hd1%Nat.leb_le]%andb_true_iff Hd%Nat.leb_le].
  unfold valid_date. cbn [year month day]. lia.
Qed.

Lemma try_formats_valid (s : text) (fs : list date_format) (r : text) :
  try_formats s fs = Some r -> exists dt, r = fmt_dmy dt /\ valid_date dt.
Proof.
  induction fs as [|f fs IH]; cbn [try_formats]; [done|].
  destruct (strptime (strip s) f) as [dt|] eqn:E; [|done].
  intros [= <-]. exists dt. split; [done|]. by eapply strptime_valid.
Qed.

(** X22 (dates): [to_dmy] returns its argument as it is, or the
    day/month/year form of a date that exists in the calendar: a month from
    1 to 12, a day of that month, a year from 1 to 9999. *)
Theorem to_dmy_date_or_unchanged (date_str : text) :
  to_dmy date_str = date_str
  \/ exists dt, to_dmy date_str = fmt_dmy dt /\ valid_date dt.
Proof.
  unfold to_dmy. destruct date_str as [|c date_str]; [by left|].
  destruct (try_formats _ _) as [r|] eqn:E.
  - right. by apply try_formats_valid in E.
  - destruct (strptime _ Month_D_Y) as [dt|] eqn:E2; [|by left].
    right. exists dt. split; [done|]. by eapply strptime_valid.
Qed.
